(** * Dual bike-rack controller (ESP32 main sketch): model and properties

    A shallow embedding of the main sketch of the barangay bike-rack system:
    the relay-driven actuators, the lock manager, the limit-switch presence
    filter, tamper detection, the SMS cooldown gate, the keypad self-service
    session and the RAM event log.  Globals of the sketch become fields of
    one state record [Sys]; every [void f(...)] of the sketch becomes a
    function [Sys -> Sys], every function with a result a function into
    [_ * Sys].  Hardware and network are part of the state: a millisecond
    clock, the GPIO levels, and a trace of the externally visible effects. *)

From Stdlib Require Import ZArith String Ascii List Lia DecimalString.
From stdpp Require Import base option list gmap strings.

Open Scope string_scope.
Open Scope list_scope.
Open Scope Z_scope.

(** ** Machine arithmetic

    [unsigned long] and [uint32_t] are 32 bits wide on the ESP32; sums and
    differences of timestamps wrap around. *)

Definition ULONG_MOD : Z := 2 ^ 32.
Definition u32 (z : Z) : Z := z mod ULONG_MOD.
Definition usub (a b : Z) : Z := u32 (a - b).
Definition uadd (a b : Z) : Z := u32 (a + b).

(** ** Constants of the sketch *)

Definition LOW : Z := 0.
Definition HIGH : Z := 1.

Definition SMS_COOLDOWN_MS : Z := 30000.
Definition UID_LEN : nat := 4.
Definition RACK1_UID : list Z := [218; 217; 251; 169].
Definition RACK2_UID : list Z := [203; 79; 176; 5].

Definition R1_RELAY_A_PIN : Z := 13.
Definition R1_RELAY_B_PIN : Z := 14.
Definition R2_RELAY_A_PIN : Z := 32.
Definition R2_RELAY_B_PIN : Z := 33.
Definition RELAY_ACTIVE_LOW : bool := true.
Definition ACTUATOR_MOVE_TIME_MS : Z := 8000.

Definition relayOnLevel : Z := if RELAY_ACTIVE_LOW then LOW else HIGH.
Definition relayOffLevel : Z := if RELAY_ACTIVE_LOW then HIGH else LOW.

Definition BUZZER_PIN : Z := 27.
Definition SW1_PIN : Z := 25.
Definition SW2_PIN : Z := 26.
Definition BIKE_PRESENT_LEVEL : Z := LOW.
Definition SW_DEBOUNCE_MS : Z := 60.
Definition LOG_MAX : Z := 80.

(** ** Data model *)

Inductive MotionState := MOTION_IDLE | MOTION_EXTEND | MOTION_RETRACT.

Record RackMotion := mkRackMotion {
  state : MotionState;
  startMs : Z
}.

Record Rack := mkRack {
  ownerName : string;
  ownerNumber : string;
  locked : bool;
  tagUid : list Z;
  tamperLatched : bool
}.

Record LogEntry := mkLogEntry {
  ms : Z;
  msg : string
}.

Inductive UiState := UI_IDLE | UI_ENTER_NUMBER | UI_WAIT_RFID_LOCK.

#[global] Instance MotionState_eq_dec : EqDecision MotionState.
Proof. solve_decision. Defined.
#[global] Instance UiState_eq_dec : EqDecision UiState.
Proof. solve_decision. Defined.

(** Externally visible effects, in the order they happen (the trace in the
    state keeps the newest first). *)
Inductive Effect :=
| EDigitalWrite (t : Z) (pin level : Z)   (* digitalWrite at clock time t *)
| ELcd (line1 line2 : string)              (* lcd2(a, b) *)
| EPost (t : Z) (to body : string)         (* http.POST to the SMS gateway *)
| ESend (code : Z) (body : string).        (* server.send(code, _, body) *)

(** One answer of the phone gateway to an HTTP request: whether
    [http.begin] succeeded, the status code of the POST and how long the
    exchange took. *)
Record HttpReply := mkHttpReply {
  beginOk : bool;
  httpCode : Z;
  took : Z
}.

Record Sys := mkSys {
  (* hardware and environment *)
  clock : Z;                      (* milliseconds since boot, unbounded *)
  pins : gmap Z Z;                (* GPIO levels *)
  trace : list Effect;
  keypadRx : list ascii;          (* bytes waiting in the keypad UART *)
  gateway : list HttpReply;       (* what the gateway will answer *)
  wifiIsAP : bool;                (* WiFi.getMode() == WIFI_AP *)
  (* globals of the sketch *)
  lastSmsMillis : list Z;
  rackMotion : list RackMotion;
  buzzerOffAtMs : Z;
  bikePresent : list bool;
  lastBikePresent : list bool;
  lastSwChangeMs : list Z;
  lastEvent : string;
  racks : list Rack;
  logs : list LogEntry;
  logHead : Z;
  logCount : Z;
  uiState : UiState;
  uiSelectedRack : Z;
  uiNum : string
}.

(** Field updates.  [set_f v st] is the assignment [f = v]. *)

Definition set_clock (v : Z) (st : Sys) : Sys :=
  mkSys v (pins st) (trace st) (keypadRx st) (gateway st) (wifiIsAP st)
    (lastSmsMillis st) (rackMotion st) (buzzerOffAtMs st) (bikePresent st)
    (lastBikePresent st) (lastSwChangeMs st) (lastEvent st) (racks st) (logs
    st) (logHead st) (logCount st) (uiState st) (uiSelectedRack st) (uiNum
    st).

Definition set_pins (v : gmap Z Z) (st : Sys) : Sys :=
  mkSys (clock st) v (trace st) (keypadRx st) (gateway st) (wifiIsAP st)
    (lastSmsMillis st) (rackMotion st) (buzzerOffAtMs st) (bikePresent st)
    (lastBikePresent st) (lastSwChangeMs st) (lastEvent st) (racks st) (logs
    st) (logHead st) (logCount st) (uiState st) (uiSelectedRack st) (uiNum
    st).

Definition set_trace (v : list Effect) (st : Sys) : Sys :=
  mkSys (clock st) (pins st) v (keypadRx st) (gateway st) (wifiIsAP st)
    (lastSmsMillis st) (rackMotion st) (buzzerOffAtMs st) (bikePresent st)
    (lastBikePresent st) (lastSwChangeMs st) (lastEvent st) (racks st) (logs
    st) (logHead st) (logCount st) (uiState st) (uiSelectedRack st) (uiNum
    st).

Definition set_keypadRx (v : list ascii) (st : Sys) : Sys :=
  mkSys (clock st) (pins st) (trace st) v (gateway st) (wifiIsAP st)
    (lastSmsMillis st) (rackMotion st) (buzzerOffAtMs st) (bikePresent st)
    (lastBikePresent st) (lastSwChangeMs st) (lastEvent st) (racks st) (logs
    st) (logHead st) (logCount st) (uiState st) (uiSelectedRack st) (uiNum
    st).

Definition set_gateway (v : list HttpReply) (st : Sys) : Sys :=
  mkSys (clock st) (pins st) (trace st) (keypadRx st) v (wifiIsAP st)
    (lastSmsMillis st) (rackMotion st) (buzzerOffAtMs st) (bikePresent st)
    (lastBikePresent st) (lastSwChangeMs st) (lastEvent st) (racks st) (logs
    st) (logHead st) (logCount st) (uiState st) (uiSelectedRack st) (uiNum
    st).

Definition set_wifiIsAP (v : bool) (st : Sys) : Sys :=
  mkSys (clock st) (pins st) (trace st) (keypadRx st) (gateway st) v
    (lastSmsMillis st) (rackMotion st) (buzzerOffAtMs st) (bikePresent st)
    (lastBikePresent st) (lastSwChangeMs st) (lastEvent st) (racks st) (logs
    st) (logHead st) (logCount st) (uiState st) (uiSelectedRack st) (uiNum
    st).

Definition set_lastSmsMillis (v : list Z) (st : Sys) : Sys :=
  mkSys (clock st) (pins st) (trace st) (keypadRx st) (gateway st) (wifiIsAP
    st) v (rackMotion st) (buzzerOffAtMs st) (bikePresent st)
    (lastBikePresent st) (lastSwChangeMs st) (lastEvent st) (racks st) (logs
    st) (logHead st) (logCount st) (uiState st) (uiSelectedRack st) (uiNum
    st).

Definition set_rackMotion (v : list RackMotion) (st : Sys) : Sys :=
  mkSys (clock st) (pins st) (trace st) (keypadRx st) (gateway st) (wifiIsAP
    st) (lastSmsMillis st) v (buzzerOffAtMs st) (bikePresent st)
    (lastBikePresent st) (lastSwChangeMs st) (lastEvent st) (racks st) (logs
    st) (logHead st) (logCount st) (uiState st) (uiSelectedRack st) (uiNum
    st).

Definition set_buzzerOffAtMs (v : Z) (st : Sys) : Sys :=
  mkSys (clock st) (pins st) (trace st) (keypadRx st) (gateway st) (wifiIsAP
    st) (lastSmsMillis st) (rackMotion st) v (bikePresent st)
    (lastBikePresent st) (lastSwChangeMs st) (lastEvent st) (racks st) (logs
    st) (logHead st) (logCount st) (uiState st) (uiSelectedRack st) (uiNum
    st).

Definition set_bikePresent (v : list bool) (st : Sys) : Sys :=
  mkSys (clock st) (pins st) (trace st) (keypadRx st) (gateway st) (wifiIsAP
    st) (lastSmsMillis st) (rackMotion st) (buzzerOffAtMs st) v
    (lastBikePresent st) (lastSwChangeMs st) (lastEvent st) (racks st) (logs
    st) (logHead st) (logCount st) (uiState st) (uiSelectedRack st) (uiNum
    st).

Definition set_lastBikePresent (v : list bool) (st : Sys) : Sys :=
  mkSys (clock st) (pins st) (trace st) (keypadRx st) (gateway st) (wifiIsAP
    st) (lastSmsMillis st) (rackMotion st) (buzzerOffAtMs st) (bikePresent
    st) v (lastSwChangeMs st) (lastEvent st) (racks st) (logs st) (logHead
    st) (logCount st) (uiState st) (uiSelectedRack st) (uiNum st).

Definition set_lastSwChangeMs (v : list Z) (st : Sys) : Sys :=
  mkSys (clock st) (pins st) (trace st) (keypadRx st) (gateway st) (wifiIsAP
    st) (lastSmsMillis st) (rackMotion st) (buzzerOffAtMs st) (bikePresent
    st) (lastBikePresent st) v (lastEvent st) (racks st) (logs st) (logHead
    st) (logCount st) (uiState st) (uiSelectedRack st) (uiNum st).

Definition set_lastEvent (v : string) (st : Sys) : Sys :=
  mkSys (clock st) (pins st) (trace st) (keypadRx st) (gateway st) (wifiIsAP
    st) (lastSmsMillis st) (rackMotion st) (buzzerOffAtMs st) (bikePresent
    st) (lastBikePresent st) (lastSwChangeMs st) v (racks st) (logs st)
    (logHead st) (logCount st) (uiState st) (uiSelectedRack st) (uiNum st).

Definition set_racks (v : list Rack) (st : Sys) : Sys :=
  mkSys (clock st) (pins st) (trace st) (keypadRx st) (gateway st) (wifiIsAP
    st) (lastSmsMillis st) (rackMotion st) (buzzerOffAtMs st) (bikePresent
    st) (lastBikePresent st) (lastSwChangeMs st) (lastEvent st) v (logs st)
    (logHead st) (logCount st) (uiState st) (uiSelectedRack st) (uiNum st).

Definition set_logs (v : list LogEntry) (st : Sys) : Sys :=
  mkSys (clock st) (pins st) (trace st) (keypadRx st) (gateway st) (wifiIsAP
    st) (lastSmsMillis st) (rackMotion st) (buzzerOffAtMs st) (bikePresent
    st) (lastBikePresent st) (lastSwChangeMs st) (lastEvent st) (racks st) v
    (logHead st) (logCount st) (uiState st) (uiSelectedRack st) (uiNum st).

Definition set_logHead (v : Z) (st : Sys) : Sys :=
  mkSys (clock st) (pins st) (trace st) (keypadRx st) (gateway st) (wifiIsAP
    st) (lastSmsMillis st) (rackMotion st) (buzzerOffAtMs st) (bikePresent
    st) (lastBikePresent st) (lastSwChangeMs st) (lastEvent st) (racks st)
    (logs st) v (logCount st) (uiState st) (uiSelectedRack st) (uiNum st).

Definition set_logCount (v : Z) (st : Sys) : Sys :=
  mkSys (clock st) (pins st) (trace st) (keypadRx st) (gateway st) (wifiIsAP
    st) (lastSmsMillis st) (rackMotion st) (buzzerOffAtMs st) (bikePresent
    st) (lastBikePresent st) (lastSwChangeMs st) (lastEvent st) (racks st)
    (logs st) (logHead st) v (uiState st) (uiSelectedRack st) (uiNum st).

Definition set_uiState (v : UiState) (st : Sys) : Sys :=
  mkSys (clock st) (pins st) (trace st) (keypadRx st) (gateway st) (wifiIsAP
    st) (lastSmsMillis st) (rackMotion st) (buzzerOffAtMs st) (bikePresent
    st) (lastBikePresent st) (lastSwChangeMs st) (lastEvent st) (racks st)
    (logs st) (logHead st) (logCount st) v (uiSelectedRack st) (uiNum st).

Definition set_uiSelectedRack (v : Z) (st : Sys) : Sys :=
  mkSys (clock st) (pins st) (trace st) (keypadRx st) (gateway st) (wifiIsAP
    st) (lastSmsMillis st) (rackMotion st) (buzzerOffAtMs st) (bikePresent
    st) (lastBikePresent st) (lastSwChangeMs st) (lastEvent st) (racks st)
    (logs st) (logHead st) (logCount st) (uiState st) v (uiNum st).

Definition set_uiNum (v : string) (st : Sys) : Sys :=
  mkSys (clock st) (pins st) (trace st) (keypadRx st) (gateway st) (wifiIsAP
    st) (lastSmsMillis st) (rackMotion st) (buzzerOffAtMs st) (bikePresent
    st) (lastBikePresent st) (lastSwChangeMs st) (lastEvent st) (racks st)
    (logs st) (logHead st) (logCount st) (uiState st) (uiSelectedRack st) v.

Definition set_ownerName (v : string) (r : Rack) : Rack :=
  mkRack v (ownerNumber r) (locked r) (tagUid r) (tamperLatched r).

Definition set_ownerNumber (v : string) (r : Rack) : Rack :=
  mkRack (ownerName r) v (locked r) (tagUid r) (tamperLatched r).

Definition set_locked (v : bool) (r : Rack) : Rack :=
  mkRack (ownerName r) (ownerNumber r) v (tagUid r) (tamperLatched r).

Definition set_tagUid (v : list Z) (r : Rack) : Rack :=
  mkRack (ownerName r) (ownerNumber r) (locked r) v (tamperLatched r).

Definition set_tamperLatched (v : bool) (r : Rack) : Rack :=
  mkRack (ownerName r) (ownerNumber r) (locked r) (tagUid r) v.

Definition set_state (v : MotionState) (rm : RackMotion) : RackMotion :=
  mkRackMotion v (startMs rm).

Definition set_startMs (v : Z) (rm : RackMotion) : RackMotion :=
  mkRackMotion (state rm) v.

(** ** Hardware primitives *)

(** [millis()] is the clock reduced to 32 bits. *)
Definition millis (st : Sys) : Z := u32 (clock st).

(** [delay(d)] blocks: only the clock moves. *)
Definition delay (d : Z) (st : Sys) : Sys := set_clock (clock st + d) st.

Definition digitalWrite (pin level : Z) (st : Sys) : Sys :=
  set_trace (EDigitalWrite (clock st) pin level :: trace st)
    (set_pins (<[pin := level]> (pins st)) st).

(** The switch inputs are configured INPUT_PULLUP: an input nobody drives
    reads HIGH. *)
Definition digitalRead (pin : Z) (st : Sys) : Z := default HIGH (pins st !! pin).

Definition lcd2 (a b : string) (st : Sys) : Sys :=
  set_trace (ELcd a b :: trace st) st.

(** [for (int i = 0; i < 2; i++) body] *)
Definition for2 (body : nat -> Sys -> Sys) (st : Sys) : Sys :=
  foldl (fun s i => body i s) st (seq 0 2).

(** Array cells.  The arrays of the sketch have fixed sizes and are indexed
    by [int]; an index outside the array is undefined behaviour in the
    source.  Here a read outside yields the type's default value and a write
    outside changes nothing; every property below is stated for indices
    inside the arrays. *)
#[global] Instance Rack_inhabited : Inhabited Rack :=
  populate (mkRack EmptyString EmptyString false [] false).
#[global] Instance RackMotion_inhabited : Inhabited RackMotion :=
  populate (mkRackMotion MOTION_IDLE 0).
#[global] Instance LogEntry_inhabited : Inhabited LogEntry :=
  populate (mkLogEntry 0 EmptyString).

(** ** Strings of the Arduino core *)

Definition DQUOTE : ascii := "034"%char.
Definition BSLASH : ascii := "092"%char.
Definition NEWLINE : ascii := "010"%char.
Definition CRETURN : ascii := "013"%char.
Definition str1 (c : ascii) : string := String c EmptyString.
Definition DQ : string := str1 DQUOTE.

Definition slen (s : string) : Z := Z.of_nat (String.length s).

(** [String(n)] for an [int]: decimal digits. *)
Definition itoa (n : Z) : string := NilZero.string_of_int (Z.to_int n).

(** [s.replace(c, by)] for a one-character pattern. *)
Fixpoint replaceChar (c : ascii) (by_ : string) (s : string) : string :=
  match s with
  | EmptyString => EmptyString
  | String a rest =>
      if Ascii.eqb a c then by_ +:+ replaceChar c by_ rest
      else String a (replaceChar c by_ rest)
  end.

Definition isDigit (c : ascii) : bool :=
  (48 <=? nat_of_ascii c)%nat && (nat_of_ascii c <=? 57)%nat.

Fixpoint digitsOnly (s : string) : bool :=
  match s with
  | EmptyString => true
  | String c rest => if negb (isDigit c) then false else digitsOnly rest
  end.

(** [s.remove(index)]: drops everything from [index] on. *)
Definition removeFrom (index : nat) (s : string) : string := substring 0 index s.

Definition maskNumber (n : string) : string :=
  if negb (slen n =? 11) then n
  else substring 0 2 n +:+ "*******" +:+ substring 9 (String.length n - 9) n.

Definition pad2 (n : Z) : string :=
  if n <? 10 then "0" +:+ itoa n else itoa n.

(** [snprintf] into [char buf[24]]: at most 23 characters survive. *)
Definition formatUptime (ms : Z) : string :=
  let s := ms / 1000 in
  let days := s / 86400 in
  let s := s mod 86400 in
  let hrs := s / 3600 in
  let s := s mod 3600 in
  let mins := s / 60 in
  let s := s mod 60 in
  let secs := s in
  substring 0 23
    (itoa days +:+ " " +:+ pad2 hrs +:+ ":" +:+ pad2 mins +:+ ":" +:+ pad2 secs).

Definition hexDigit (d : Z) : string :=
  if d <? 10 then itoa d
  else str1 (ascii_of_nat (Z.to_nat (d - 10) + 97)).

(** [String(b, HEX)] for a byte: lower-case digits, no leading zero. *)
Definition hexOfByte (b : Z) : string :=
  if b <? 16 then hexDigit b else hexDigit (b / 16) +:+ hexDigit (b mod 16).

Definition toUpperAscii (c : ascii) : ascii :=
  let n := nat_of_ascii c in
  if (97 <=? n)%nat && (n <=? 122)%nat then ascii_of_nat (n - 32) else c.

Fixpoint toUpperCase (s : string) : string :=
  match s with
  | EmptyString => EmptyString
  | String c rest => String (toUpperAscii c) (toUpperCase rest)
  end.

Fixpoint uidToString_go (uid : list Z) : string :=
  match uid with
  | [] => EmptyString
  | b :: rest =>
      (if b <? 16 then "0" else EmptyString) +:+ hexOfByte b +:+
      (match rest with [] => EmptyString | _ => " " end) +:+
      uidToString_go rest
  end.

Definition uidToString (uid : list Z) : string := toUpperCase (uidToString_go uid).

(** [uidEquals(a, aLen, b, bLen)]: same length and the same bytes. *)
Fixpoint uidEquals (a b : list Z) : bool :=
  match a, b with
  | [], [] => true
  | x :: a', y :: b' => if negb (x =? y) then false else uidEquals a' b'
  | _, _ => false
  end.

Fixpoint jsonEscape (s : string) : string :=
  match s with
  | EmptyString => EmptyString
  | String c rest =>
      if Ascii.eqb c BSLASH || Ascii.eqb c DQUOTE then String BSLASH (String c (jsonEscape rest))
      else if Ascii.eqb c NEWLINE then String BSLASH (String "n" (jsonEscape rest))
      else if Ascii.eqb c CRETURN then jsonEscape rest
      else String c (jsonEscape rest)
  end.

(** ** Actuator relays *)

Definition rackSetStop (rack : nat) (st : Sys) : Sys :=
  if decide (rack = 0%nat) then
    let st := digitalWrite R1_RELAY_A_PIN relayOffLevel st in
    digitalWrite R1_RELAY_B_PIN relayOffLevel st
  else
    let st := digitalWrite R2_RELAY_A_PIN relayOffLevel st in
    digitalWrite R2_RELAY_B_PIN relayOffLevel st.

Definition rackSetExtend (rack : nat) (st : Sys) : Sys :=
  if decide (rack = 0%nat) then
    let st := digitalWrite R1_RELAY_A_PIN relayOnLevel st in
    digitalWrite R1_RELAY_B_PIN relayOffLevel st
  else
    let st := digitalWrite R2_RELAY_A_PIN relayOnLevel st in
    digitalWrite R2_RELAY_B_PIN relayOffLevel st.

Definition rackSetRetract (rack : nat) (st : Sys) : Sys :=
  if decide (rack = 0%nat) then
    let st := digitalWrite R1_RELAY_A_PIN relayOffLevel st in
    digitalWrite R1_RELAY_B_PIN relayOnLevel st
  else
    let st := digitalWrite R2_RELAY_A_PIN relayOffLevel st in
    digitalWrite R2_RELAY_B_PIN relayOnLevel st.

Definition allStop (st : Sys) : Sys :=
  let st := rackSetStop 0 st in
  let st := rackSetStop 1 st in
  let st := set_rackMotion (alter (set_state MOTION_IDLE) 0%nat (rackMotion st)) st in
  set_rackMotion (alter (set_state MOTION_IDLE) 1%nat (rackMotion st)) st.

Definition startMotionForRack (rack : nat) (lockedTarget : bool) (st : Sys) : Sys :=
  let st := rackSetStop rack st in
  let st := delay 50 st in
  let st := set_rackMotion (alter (set_startMs (millis st)) rack (rackMotion st)) st in
  if lockedTarget then
    let st := set_rackMotion (alter (set_state MOTION_EXTEND) rack (rackMotion st)) st in
    rackSetExtend rack st
  else
    let st := set_rackMotion (alter (set_state MOTION_RETRACT) rack (rackMotion st)) st in
    rackSetRetract rack st.

Definition updateMotion_body (now : Z) (rack : nat) (st : Sys) : Sys :=
  let rm := rackMotion st !!! rack in
  if decide (state rm = MOTION_IDLE) then st
  else if usub now (startMs rm) >=? ACTUATOR_MOVE_TIME_MS then
    let st := rackSetStop rack st in
    set_rackMotion (alter (set_state MOTION_IDLE) rack (rackMotion st)) st
  else st.

Definition updateMotion (st : Sys) : Sys :=
  let now := millis st in
  for2 (updateMotion_body now) st.

(** ** Buzzer *)

Definition buzzerOff (st : Sys) : Sys :=
  let st := digitalWrite BUZZER_PIN LOW st in
  set_buzzerOffAtMs 0 st.

Definition buzzerOnFor (d : Z) (st : Sys) : Sys :=
  let st := digitalWrite BUZZER_PIN HIGH st in
  set_buzzerOffAtMs (uadd (millis st) d) st.

Definition updateBuzzer (st : Sys) : Sys :=
  if negb (buzzerOffAtMs st =? 0) && (millis st >=? buzzerOffAtMs st)
  then buzzerOff st else st.

(** ** Event log (ring in RAM) *)

Definition addLog (message : string) (st : Sys) : Sys :=
  let st := set_logs (<[Z.to_nat (logHead st) := mkLogEntry (millis st) message]> (logs st)) st in
  let st := set_logHead (Z.rem (logHead st + 1) LOG_MAX) st in
  if logCount st <? LOG_MAX then set_logCount (logCount st + 1) st else st.

(** [while (idx < 0) idx += LOG_MAX;]  Every round adds at least one, so
    [-idx] rounds always suffice. *)
Fixpoint wrapNeg (fuel : nat) (idx : Z) : Z :=
  if idx <? 0 then
    match fuel with
    | O => idx
    | S fuel' => wrapNeg fuel' (idx + LOG_MAX)
    end
  else idx.

(** The slot read in round [i] of the loop in [logsJson]. *)
Definition logSlot (st : Sys) (i : Z) : Z :=
  let idx := logHead st - 1 - i in
  let idx := wrapNeg (Z.to_nat (- idx)) idx in
  Z.rem idx LOG_MAX.

Definition logEntryJson (e : LogEntry) : string :=
  let ts := formatUptime (ms e) in
  let msg := msg e in
  let msg := replaceChar BSLASH (str1 BSLASH +:+ str1 BSLASH) msg in
  let msg := replaceChar DQUOTE (str1 BSLASH +:+ DQ) msg in
  let msg := replaceChar NEWLINE (str1 BSLASH +:+ "n") msg in
  "{" +:+ DQ +:+ "t" +:+ DQ +:+ ":" +:+ DQ +:+ ts +:+
  DQ +:+ "," +:+ DQ +:+ "msg" +:+ DQ +:+ ":" +:+
  DQ +:+ msg +:+ DQ +:+ "}".

Definition logsJson_body (st : Sys) (out : string) (i : Z) : string :=
  let e := logs st !!! Z.to_nat (logSlot st i) in
  let out := if negb (i =? 0) then out +:+ "," else out in
  out +:+ logEntryJson e.

Definition logsJson (st : Sys) : string :=
  let out := "[" in
  let out := foldl (logsJson_body st) out (seqZ 0 (logCount st)) in
  out +:+ "]".

(** ** SMS through the phone gateway *)

(** What an unreachable gateway answers: the connection attempt fails with
    a negative client error code. *)
Definition noReply : HttpReply := mkHttpReply true (-1) 0.

Definition sendViaPhoneGateway (number message : string) (st : Sys) : bool * Sys :=
  if negb (slen number =? 11) then (false, st)
  else if negb (wifiIsAP st) then (false, st)
  else
    let r := default noReply (head (gateway st)) in
    let st := set_gateway (tail (gateway st)) st in
    if negb (beginOk r) then (false, st)
    else
      let body := "{" +:+ DQ +:+ "to" +:+ DQ +:+ ":" +:+
                  DQ +:+ jsonEscape number +:+ DQ +:+ "," +:+
                  DQ +:+ "message" +:+ DQ +:+ ":" +:+
                  DQ +:+ jsonEscape message +:+ DQ +:+ "}" in
      let st := set_trace (EPost (clock st) number body :: trace st) st in
      let st := delay (took r) st in
      ((httpCode r >=? 200) && (httpCode r <? 300), st).

Definition sendAlertSMS (rackIdx : nat) (number message : string) (st : Sys) : bool * Sys :=
  let now := millis st in
  if usub now (lastSmsMillis st !!! rackIdx) <? SMS_COOLDOWN_MS then (false, st)
  else
    let '(ok, st) := sendViaPhoneGateway number message st in
    let st := if ok then set_lastSmsMillis (<[rackIdx := now]> (lastSmsMillis st)) st else st in
    (ok, st).

(** ** Lock control *)

Definition setLocked (rackIndex : nat) (lockIt : bool) (st : Sys) : Sys :=
  let st := set_racks (alter (set_locked lockIt) rackIndex (racks st)) st in
  let st := if negb lockIt
            then set_racks (alter (set_tamperLatched false) rackIndex (racks st)) st
            else st in
  startMotionForRack rackIndex lockIt st.

Definition toggleLock (rackIndex : nat) (st : Sys) : Sys :=
  setLocked rackIndex (negb (locked (racks st !!! rackIndex))) st.

(** ** Limit switches and tamper detection *)

Definition readBikePresent (pin : Z) (st : Sys) : bool :=
  digitalRead pin st =? BIKE_PRESENT_LEVEL.

Definition updateBikePresence_body (now : Z) (rawPresent : list bool)
    (i : nat) (st : Sys) : Sys :=
  if negb (Bool.eqb (rawPresent !!! i) (bikePresent st !!! i)) then
    if usub now (lastSwChangeMs st !!! i) >=? SW_DEBOUNCE_MS then
      let st := set_lastSwChangeMs (<[i := now]> (lastSwChangeMs st)) st in
      set_bikePresent (<[i := rawPresent !!! i]> (bikePresent st)) st
    else st
  else st.

Definition updateBikePresence (st : Sys) : Sys :=
  let sw1 := readBikePresent SW1_PIN st in
  let sw2 := readBikePresent SW2_PIN st in
  let now := millis st in
  let rawPresent := [sw1; sw2] in
  for2 (updateBikePresence_body now rawPresent) st.

Definition rackNo (i : nat) : string := itoa (Z.of_nat i + 1).

Definition tamperMessage (i : nat) (owner : string) : string :=
  "ALERT! Someone is trying to steal the bike on Rack " +:+ rackNo i +:+
  ". Bike was lifted while LOCKED. (" +:+ owner +:+ ")".

Definition checkTamper_body (i : nat) (st : Sys) : Sys :=
  let bikeJustRemoved := (lastBikePresent st !!! i) && negb (bikePresent st !!! i) in
  let st :=
    if bikeJustRemoved && locked (racks st !!! i) && negb (tamperLatched (racks st !!! i))
    then
      let st := set_racks (alter (set_tamperLatched true) i (racks st)) st in
      let owner := if negb (slen (ownerName (racks st !!! i)) =? 0)
                   then ownerName (racks st !!! i) else "Owner" in
      let msg := tamperMessage i owner in
      let '(ok, st) :=
        if slen (ownerNumber (racks st !!! i)) =? 11 then
          let '(ok, st) := sendAlertSMS i (ownerNumber (racks st !!! i)) msg st in
          (ok, set_lastEvent (if ok then "SMS sent: Tamper Rack " +:+ rackNo i
                              else "SMS FAIL/COOLDOWN: Tamper Rack " +:+ rackNo i) st)
        else
          (false, set_lastEvent ("Tamper but owner # missing (Rack " +:+ rackNo i +:+ ")") st) in
      let st := addLog ("TAMPER Rack " +:+ rackNo i +:+ " Number " +:+
                        maskNumber (ownerNumber (racks st !!! i)) +:+
                        (if ok then " SMS_OK" else " SMS_FAIL")) st in
      let st := lcd2 "ALERT TAMPER!" ("Rack " +:+ rackNo i) st in
      buzzerOnFor 3000 st
    else st in
  set_lastBikePresent (<[i := bikePresent st !!! i]> (lastBikePresent st)) st.

Definition checkTamper (st : Sys) : Sys := for2 checkTamper_body st.

(** ** Keypad and LCD self-service *)

Definition readRemoteKey (st : Sys) : ascii * Sys :=
  match keypadRx st with
  | [] => (zero, st)
  | c :: rest => (c, set_keypadRx rest st)
  end.

Definition findNewest_body (st : Sys) (acc : Z * Z) (i : nat) : Z * Z :=
  let '(best, bestTime) := acc in
  if (bikePresent st !!! i) && negb (locked (racks st !!! i)) then
    if (best =? -1) || (lastSwChangeMs st !!! i >? bestTime)
    then (Z.of_nat i, lastSwChangeMs st !!! i)
    else acc
  else acc.

Definition findNewestAvailableRack (st : Sys) : Z :=
  fst (foldl (findNewest_body st) (-1, 0) (seq 0 2)).

Definition uiShowIdle (st : Sys) : Sys := lcd2 "Place bike then" "Press # to start" st.

Definition uiShowEnterNum (st : Sys) : Sys :=
  let line1 := "Rack " +:+ itoa (uiSelectedRack st + 1) +:+ " Type CP #:" in
  let line2 := uiNum st in
  let line2 := if slen line2 >? 16
               then substring (String.length line2 - 16) 16 line2 else line2 in
  lcd2 line1 line2 st.

Definition uiShowWaitRFID (st : Sys) : Sys :=
  lcd2 "Tap RFID to" ("LOCK Rack " +:+ itoa (uiSelectedRack st + 1)) st.

Definition resetUi (st : Sys) : Sys :=
  let st := set_uiState UI_IDLE st in
  let st := set_uiSelectedRack (-1) st in
  let st := set_uiNum EmptyString st in
  uiShowIdle st.

Definition startSelfServeForCurrentBike (st : Sys) : bool * Sys :=
  let rack := findNewestAvailableRack st in
  if rack =? -1 then
    let st := lcd2 "No Slot" "Please Wait" st in
    let st := delay 2000 st in
    (false, uiShowIdle st)
  else
    let st := set_uiSelectedRack rack st in
    let st := set_uiNum EmptyString st in
    let st := set_uiState UI_ENTER_NUMBER st in
    (true, uiShowEnterNum st).

Definition handleSelfServeKeypad (st : Sys) : Sys :=
  let '(k, st) := readRemoteKey st in
  if Ascii.eqb k zero then st
  else match uiState st with
  | UI_IDLE =>
      if Ascii.eqb k "#" then snd (startSelfServeForCurrentBike st) else st
  | UI_ENTER_NUMBER =>
      if isDigit k then
        let st := if slen (uiNum st) <? 11 then set_uiNum (uiNum st +:+ str1 k) st else st in
        uiShowEnterNum st
      else if Ascii.eqb k "*" then
        if slen (uiNum st) >? 0 then
          let st := set_uiNum (removeFrom (String.length (uiNum st) - 1) (uiNum st)) st in
          uiShowEnterNum st
        else resetUi st
      else if Ascii.eqb k "#" then
        if negb (slen (uiNum st) =? 11) || negb (digitsOnly (uiNum st)) then
          let st := lcd2 "Invalid number" "Need 11 digits" st in
          let st := delay 900 st in
          uiShowEnterNum st
        else
          let sel := Z.to_nat (uiSelectedRack st) in
          let st := set_racks (alter (set_ownerNumber (uiNum st)) sel (racks st)) st in
          let st := if slen (ownerName (racks st !!! sel)) =? 0
                    then set_racks (alter (set_ownerName "Self-Serve") sel (racks st)) st
                    else st in
          let st := set_lastEvent ("Self-serve set # (Rack " +:+
                                   itoa (uiSelectedRack st + 1) +:+ ")") st in
          let st := addLog ("SELF-SERVE Rack " +:+ itoa (uiSelectedRack st + 1) +:+
                            " Number " +:+ maskNumber (uiNum st)) st in
          let st := set_uiState UI_WAIT_RFID_LOCK st in
          uiShowWaitRFID st
      else st
  | UI_WAIT_RFID_LOCK =>
      if Ascii.eqb k "*" then resetUi st else st
  end.

(** ** RFID reader *)

Definition alertUnknownRFID_body (msg : string) (acc : bool * Sys) (i : nat) : bool * Sys :=
  let '(anySent, st) := acc in
  if locked (racks st !!! i) && (slen (ownerNumber (racks st !!! i)) =? 11) then
    let '(ok, st) := sendAlertSMS i (ownerNumber (racks st !!! i)) msg st in
    (anySent || ok, st)
  else acc.

Definition alertUnknownRFID (uidStr : string) (st : Sys) : Sys :=
  let msg := "ALERT: Unknown RFID near bike rack. UID=" +:+ uidStr in
  let '(anySent, st) := foldl (alertUnknownRFID_body msg) (false, st) (seq 0 2) in
  let st := addLog ("UNKNOWN RFID UalertID=" +:+ uidStr) st in
  set_lastEvent (if anySent then "SMS sent: Unknown RFID (locked racks)"
                 else "Unknown RFID (no locked owners / cooldown / gateway fail)") st.

(** The direct-toggle loop of [handleRFID]: the first rack whose tag matches
    is toggled and the loop is left. *)
Fixpoint handleRFID_scan (uid : list Z) (idxs : list nat) (st : Sys) : bool * Sys :=
  match idxs with
  | [] => (false, st)
  | i :: rest =>
      if uidEquals uid (tagUid (racks st !!! i)) then
        let st := toggleLock i st in
        let st := set_lastEvent ("RFID toggle Rack " +:+ rackNo i +:+
                    (if locked (racks st !!! i) then " (LOCK)" else " (UNLOCK)")) st in
        let st := addLog ("RFID " +:+
                    (if locked (racks st !!! i) then "LOCK " else "UNLOCK ") +:+
                    "Rack " +:+ rackNo i +:+ " Number " +:+
                    maskNumber (ownerNumber (racks st !!! i))) st in
        (true, st)
      else handleRFID_scan uid rest st
  end.

(** [card] is what the reader delivers in this cycle: [None] when no new
    card is present or its serial cannot be read. *)
Definition handleRFID (card : option (list Z)) (st : Sys) : Sys :=
  match card with
  | None => st
  | Some uid =>
      let uidStr := uidToString uid in
      if bool_decide (uiState st = UI_WAIT_RFID_LOCK) && negb (uiSelectedRack st =? -1) then
        let i := Z.to_nat (uiSelectedRack st) in
        let st :=
          if uidEquals uid (tagUid (racks st !!! i)) then
            let st := setLocked i true st in
            let st := set_lastEvent ("RFID LOCK Rack " +:+ rackNo i) st in
            let st := addLog ("LOCK Rack " +:+ rackNo i +:+ " (RFID) Number " +:+
                              maskNumber (ownerNumber (racks st !!! i))) st in
            let st := lcd2 ("Rack " +:+ rackNo i +:+ " LOCKED") "Remove key/card" st in
            let st := delay 2000 st in
            resetUi st
          else
            let st := lcd2 "Wrong RFID" "Use Rack tag" st in
            let st := delay 2000 st in
            uiShowWaitRFID st in
        delay 200 st
      else
        let '(matched, st) := handleRFID_scan uid (seq 0 2) st in
        let st := if negb matched then alertUnknownRFID uidStr st else st in
        delay 200 st
  end.

(** ** Web routes *)

Definition serverSend (code : Z) (body : string) (st : Sys) : Sys :=
  set_trace (ESend code body :: trace st) st.

Definition isSpace (c : ascii) : bool :=
  let n := nat_of_ascii c in (n =? 32)%nat || ((9 <=? n)%nat && (n <=? 13)%nat).

Fixpoint skipSpace (s : string) : string :=
  match s with
  | String c rest => if isSpace c then skipSpace rest else s
  | EmptyString => s
  end.

Fixpoint atolDigits (acc : Z) (s : string) : Z :=
  match s with
  | String c rest =>
      if isDigit c then atolDigits (acc * 10 + (Z.of_nat (nat_of_ascii c) - 48)) rest
      else acc
  | EmptyString => acc
  end.

(** [String::toInt]: leading blanks, an optional sign, then the leading
    digits; 0 when there are none (values beyond [long] are not modelled). *)
Definition toInt (s : string) : Z :=
  match skipSpace s with
  | String "-" rest => - atolDigits 0 rest
  | String "+" rest => atolDigits 0 rest
  | s' => atolDigits 0 s'
  end.

Definition getRackArg (s : string) : Z :=
  if slen s =? 0 then -1
  else
    let rack := toInt s in
    if (rack <? 1) || (rack >? 2) then -1 else rack.

Definition jsonBool (b : bool) : string := if b then "true" else "false".

Definition escapeQuotes (s : string) : string :=
  replaceChar DQUOTE (str1 BSLASH +:+ DQ)
    (replaceChar BSLASH (str1 BSLASH +:+ str1 BSLASH) s).

Definition rackJson (idx : nat) (st : Sys) : string :=
  let r := racks st !!! idx in
  let tagStr := uidToString (tagUid r) in
  "{" +:+
  DQ +:+ "locked" +:+ DQ +:+ ":" +:+ jsonBool (locked r) +:+ "," +:+
  DQ +:+ "bike_present" +:+ DQ +:+ ":" +:+ jsonBool (bikePresent st !!! idx) +:+ "," +:+
  DQ +:+ "owner_name" +:+ DQ +:+ ":" +:+ DQ +:+ escapeQuotes (ownerName r) +:+ DQ +:+ "," +:+
  DQ +:+ "owner_number" +:+ DQ +:+ ":" +:+ DQ +:+ escapeQuotes (ownerNumber r) +:+ DQ +:+ "," +:+
  DQ +:+ "tag_uid" +:+ DQ +:+ ":" +:+ DQ +:+ tagStr +:+ DQ +:+
  "}".

Definition statusJson (st : Sys) : string :=
  "{" +:+
  DQ +:+ "rack1" +:+ DQ +:+ ":" +:+ rackJson 0 st +:+ "," +:+
  DQ +:+ "rack2" +:+ DQ +:+ ":" +:+ rackJson 1 st +:+ "," +:+
  DQ +:+ "last_event" +:+ DQ +:+ ":" +:+ DQ +:+ escapeQuotes (lastEvent st) +:+ DQ +:+ "," +:+
  DQ +:+ "logs" +:+ DQ +:+ ":" +:+ logsJson st +:+
  "}".

(** A request as the handlers see it: whether [server.authenticate]
    accepts it, and the raw arguments. *)
Inductive WebReq :=
| ReqStatus (auth : bool)
| ReqSetOwner (auth : bool) (rack name number : string)
| ReqToggle (auth : bool) (rack : string)
| ReqUnlock (auth : bool) (rack : string)
| ReqClear (auth : bool) (rack : string).

Definition requestAuthentication (st : Sys) : Sys := serverSend 401 EmptyString st.

Definition handleStatus (auth : bool) (st : Sys) : Sys :=
  if negb auth then requestAuthentication st
  else serverSend 200 (statusJson st) st.

Definition handleSetOwner (auth : bool) (rackArg name number : string) (st : Sys) : Sys :=
  if negb auth then requestAuthentication st
  else
    let rack := getRackArg rackArg in
    if rack =? -1 then serverSend 400 "Invalid rack" st
    else
      let idx := Z.to_nat (rack - 1) in
      if (slen number >? 0) && negb (digitsOnly number)
      then serverSend 400 "Number must be digits only" st
      else if (slen number >? 0) && negb (slen number =? 11)
      then serverSend 400 "Number must be exactly 11 digits" st
      else
        let st := set_racks (alter (set_ownerName name) idx (racks st)) st in
        let st := set_racks (alter (set_ownerNumber number) idx (racks st)) st in
        let st := set_lastEvent ("Owner updated (Rack " +:+ itoa rack +:+ ")") st in
        let st := addLog ("WEB SET OWNER Rack " +:+ itoa rack +:+ " Name=" +:+ name +:+
                          " Number=" +:+ maskNumber number) st in
        serverSend 200 ("OK: Owner saved for Rack " +:+ itoa rack) st.

Definition handleToggle (auth : bool) (rackArg : string) (st : Sys) : Sys :=
  if negb auth then requestAuthentication st
  else
    let rack := getRackArg rackArg in
    if rack =? -1 then serverSend 400 "Invalid rack" st
    else
      let idx := Z.to_nat (rack - 1) in
      let st := toggleLock idx st in
      let st := set_lastEvent ("WEB toggle (Rack " +:+ itoa rack +:+ ")") st in
      let st := addLog ("WEB TOGGLE Rack " +:+ itoa rack +:+
                        (if locked (racks st !!! idx) then " -> LOCK" else " -> UNLOCK")) st in
      serverSend 200 ("OK: Rack " +:+ itoa rack +:+
                      (if locked (racks st !!! idx) then " LOCKED" else " UNLOCKED")) st.

Definition handleUnlock (auth : bool) (rackArg : string) (st : Sys) : Sys :=
  if negb auth then requestAuthentication st
  else
    let rack := getRackArg rackArg in
    if rack =? -1 then serverSend 400 "Invalid rack" st
    else
      let idx := Z.to_nat (rack - 1) in
      let st := setLocked idx false st in
      let st := set_lastEvent ("KILL UNLOCK (Rack " +:+ itoa rack +:+ ")") st in
      let st := addLog ("WEB KILL UNLOCK Rack " +:+ itoa rack) st in
      serverSend 200 "OK: Rack unlocked by barangay override." st.

Definition handleClear (auth : bool) (rackArg : string) (st : Sys) : Sys :=
  if negb auth then requestAuthentication st
  else
    let rack := getRackArg rackArg in
    if rack =? -1 then serverSend 400 "Invalid rack" st
    else
      let idx := Z.to_nat (rack - 1) in
      let st := set_racks (alter (set_ownerName EmptyString) idx (racks st)) st in
      let st := set_racks (alter (set_ownerNumber EmptyString) idx (racks st)) st in
      let st := set_racks (alter (set_locked false) idx (racks st)) st in
      let st := set_racks (alter (set_tamperLatched false) idx (racks st)) st in
      let st := set_lastEvent ("Session cleared (Rack " +:+ itoa rack +:+ ")") st in
      let st := addLog ("WEB CLEAR Rack " +:+ itoa rack) st in
      serverSend 200 ("OK: Session cleared (name/number) for Rack " +:+ itoa rack) st.

(** [server.handleClient()]: at most one request is served per call. *)
Definition handleClient (req : option WebReq) (st : Sys) : Sys :=
  match req with
  | None => st
  | Some (ReqStatus auth) => handleStatus auth st
  | Some (ReqSetOwner auth rack name number) => handleSetOwner auth rack name number st
  | Some (ReqToggle auth rack) => handleToggle auth rack st
  | Some (ReqUnlock auth rack) => handleUnlock auth rack st
  | Some (ReqClear auth rack) => handleClear auth rack st
  end.

(** ** Setup and main loop *)

Definition RFID_SS : Z := 5.
Definition RFID_RST : Z := 15.

Definition rfidSafeBootInit (st : Sys) : Sys :=
  let st := digitalWrite RFID_SS HIGH st in
  let st := digitalWrite RFID_RST LOW st in
  let st := delay 1200 st in
  let st := digitalWrite RFID_RST HIGH st in
  delay 50 st.

Definition setupWeb (st : Sys) : Sys :=
  let st := set_wifiIsAP true st in
  let st := set_lastEvent "Web server started" st in
  addLog "WEB Server started" st.

(** The machine at power-on: the globals carry their initialisers, the
    environment supplies the input levels, the keys that will arrive and the
    answers of the gateway. *)
Definition powerOn (inputs : gmap Z Z) (keys : list ascii) (gw : list HttpReply) : Sys :=
  mkSys 0 inputs [] keys gw false
    [0; 0]
    [mkRackMotion MOTION_IDLE 0; mkRackMotion MOTION_IDLE 0]
    0
    [false; false] [false; false]
    [0; 0]
    "Boot"
    [mkRack EmptyString EmptyString false [] false;
     mkRack EmptyString EmptyString false [] false]
    (replicate (Z.to_nat LOG_MAX) (mkLogEntry 0 EmptyString)) 0 0
    UI_IDLE (-1) EmptyString.

Definition setup (st : Sys) : Sys :=
  let st := delay 500 st in
  let st := uiShowIdle st in
  let st := set_racks (alter (set_tagUid RACK1_UID) 0%nat (racks st)) st in
  let st := set_racks (alter (set_tagUid RACK2_UID) 1%nat (racks st)) st in
  let st := set_bikePresent (<[0%nat := readBikePresent SW1_PIN st]> (bikePresent st)) st in
  let st := set_bikePresent (<[1%nat := readBikePresent SW2_PIN st]> (bikePresent st)) st in
  let st := set_lastBikePresent (<[0%nat := bikePresent st !!! 0%nat]> (lastBikePresent st)) st in
  let st := set_lastBikePresent (<[1%nat := bikePresent st !!! 1%nat]> (lastBikePresent st)) st in
  let st := allStop st in
  let st := set_rackMotion (alter (set_state MOTION_IDLE) 0%nat (rackMotion st)) st in
  let st := set_rackMotion (alter (set_state MOTION_IDLE) 1%nat (rackMotion st)) st in
  let st := set_racks (alter (set_locked false) 0%nat (racks st)) st in
  let st := set_racks (alter (set_locked false) 1%nat (racks st)) st in
  let st := set_racks (alter (set_tamperLatched false) 0%nat (racks st)) st in
  let st := set_racks (alter (set_tamperLatched false) 1%nat (racks st)) st in
  let st := buzzerOff st in
  let st := rfidSafeBootInit st in
  let st := setupWeb st in
  let st := set_lastEvent "System ready (Phone SMS Gateway)" st in
  addLog "BOOT System ready" st.

Definition sessionAbortCheck (st : Sys) : Sys :=
  if negb (bool_decide (uiState st = UI_IDLE)) && negb (uiSelectedRack st =? -1) then
    if negb (bikePresent st !!! Z.to_nat (uiSelectedRack st)) then
      let st := lcd2 "Bike Removed" "Session reset" st in
      let st := delay 2000 st in
      resetUi st
    else st
  else st.

(** One pass of [loop()], given the request and the card of this cycle. *)
Definition loop (req : option WebReq) (card : option (list Z)) (st : Sys) : Sys :=
  let st := handleClient req st in
  let st := updateBikePresence st in
  let st := checkTamper st in
  let st := handleSelfServeKeypad st in
  let st := handleRFID card st in
  let st := updateMotion st in
  let st := updateBuzzer st in
  sessionAbortCheck st.

(** What the environment does between two instructions of the sketch: time
    passes, a switch or any other input changes level, a key arrives on the
    UART, the gateway's future answers change (an exchange never takes a
    negative time). *)
Inductive env_step : Sys -> Sys -> Prop :=
| env_time st d : 0 <= d -> env_step st (delay d st)
| env_input st pin level :
    pin = SW1_PIN \/ pin = SW2_PIN ->
    env_step st (set_pins (<[pin := level]> (pins st)) st)
| env_key st k : env_step st (set_keypadRx (keypadRx st ++ [k]) st)
| env_gateway st gw :
    Forall (fun r => 0 <= took r) gw -> env_step st (set_gateway gw st).

(** The states the sketch can be in between two calls of its top-level
    operations. *)
Inductive reachable : Sys -> Prop :=
| reach_boot inputs keys gw :
    Forall (fun r => 0 <= took r) gw -> reachable (setup (powerOn inputs keys gw))
| reach_env st st' : reachable st -> env_step st st' -> reachable st'
| reach_loop st req card : reachable st -> reachable (loop req card st)
| reach_updateBikePresence st : reachable st -> reachable (updateBikePresence st)
| reach_checkTamper st : reachable st -> reachable (checkTamper st)
| reach_keypad st : reachable st -> reachable (handleSelfServeKeypad st)
| reach_rfid st card : reachable st -> reachable (handleRFID card st)
| reach_updateMotion st : reachable st -> reachable (updateMotion st)
| reach_updateBuzzer st : reachable st -> reachable (updateBuzzer st)
| reach_sessionAbort st : reachable st -> reachable (sessionAbortCheck st)
| reach_web st req : reachable st -> reachable (handleClient req st)
| reach_setLocked st i b : (i < 2)%nat -> reachable st -> reachable (setLocked i b st)
| reach_toggleLock st i : (i < 2)%nat -> reachable st -> reachable (toggleLock i st).

(** ** Observations used in the statements *)

Definition relayA (rack : nat) : Z := if decide (rack = 0%nat) then R1_RELAY_A_PIN else R2_RELAY_A_PIN.
Definition relayB (rack : nat) : Z := if decide (rack = 0%nat) then R1_RELAY_B_PIN else R2_RELAY_B_PIN.

Definition pinActive (p : gmap Z Z) (pin : Z) : Prop := p !! pin = Some relayOnLevel.
Definition pinInactive (p : gmap Z Z) (pin : Z) : Prop := p !! pin = Some relayOffLevel.
Definition bothActive (rack : nat) (p : gmap Z Z) : Prop :=
  pinActive p (relayA rack) /\ pinActive p (relayB rack).

(** The pin levels after each write of a chronological list of effects,
    starting from [p]: the instants at which the outputs can be sampled. *)
Fixpoint pinSamples (p : gmap Z Z) (es : list Effect) : list (gmap Z Z) :=
  match es with
  | [] => []
  | EDigitalWrite _ pin level :: rest =>
      let p' := <[pin := level]> p in p' :: pinSamples p' rest
  | _ :: rest => pinSamples p rest
  end.

Definition rack_ok (r : Rack) : Prop := tamperLatched r = true -> locked r = true.

(** The rack table has its two cells and no rack is latched while unlocked. *)
Definition racksInv (l : list Rack) : Prop :=
  length l = 2%nat /\ Forall rack_ok l.

Definition lockInv (st : Sys) : Prop := racksInv (racks st).

(** The condition under which [checkTamper] raises the alarm for a rack. *)
Definition tamperCond (i : nat) (st : Sys) : bool :=
  (lastBikePresent st !!! i) && negb (bikePresent st !!! i) &&
  locked (racks st !!! i) && negb (tamperLatched (racks st !!! i)).

(** The relay levels [startMotionForRack] ends with for a lock target. *)
Definition levelA (lockedTarget : bool) : Z := if lockedTarget then relayOnLevel else relayOffLevel.
Definition levelB (lockedTarget : bool) : Z := if lockedTarget then relayOffLevel else relayOnLevel.
Definition motionOf (lockedTarget : bool) : MotionState :=
  if lockedTarget then MOTION_EXTEND else MOTION_RETRACT.

(** The rack's two outputs carry the pattern of a sequence towards [target]. *)
Definition driving (rack : nat) (target : bool) (p : gmap Z Z) : Prop :=
  p !! relayA rack = Some (levelA target) /\ p !! relayB rack = Some (levelB target).

(** The test of [updateMotion] for one rack. *)
Definition motionExpired (now : Z) (rm : RackMotion) : bool :=
  negb (bool_decide (state rm = MOTION_IDLE)) &&
  (usub now (startMs rm) >=? ACTUATOR_MOVE_TIME_MS).

(** The switch input of a rack and the raw sample [updateBikePresence]
    takes from it. *)
Definition swPin (i : nat) : Z := if decide (i = 0%nat) then SW1_PIN else SW2_PIN.
Definition rawSample (i : nat) (st : Sys) : bool := readBikePresent (swPin i) st.

(** The test of [updateBikePresence] for rack [j]: the raw sample differs
    from the accepted value and the last accepted change is old enough. *)
Definition presenceFlips (now : Z) (raw : list bool) (j : nat) (st : Sys) : bool :=
  negb (Bool.eqb (raw !!! j) (bikePresent st !!! j)) &&
  (usub now (lastSwChangeMs st !!! j) >=? SW_DEBOUNCE_MS).

(** Further passes of the presence filter, [d] ms apart, with the inputs
    left as they are. *)
Definition presenceTicks (ds : list Z) (st : Sys) : Sys :=
  foldl (fun s d => updateBikePresence (delay d s)) st ds.

(** The alarm [checkTamper] shows for a rack, and how often a list of
    effects contains it. *)
Definition isTamperAlarm (i : nat) (e : Effect) : bool :=
  match e with
  | ELcd a b => String.eqb a "ALERT TAMPER!" && String.eqb b ("Rack " +:+ rackNo i)
  | _ => false
  end.

Definition alarmCount (i : nat) (es : list Effect) : nat :=
  length (List.filter (isTamperAlarm i) es).

Definition isPost (e : Effect) : bool :=
  match e with EPost _ _ _ => true | _ => false end.

(** The entries [logsJson] reads, in the order it reads them. *)
Definition logRead (st : Sys) : list LogEntry :=
  (fun i => logs st !!! Z.to_nat (logSlot st i)) <$> seqZ 0 (logCount st).

(** The ring as [addLog] keeps it: 80 slots, head and count in range. *)
Definition logWf (st : Sys) : Prop :=
  length (logs st) = Z.to_nat LOG_MAX /\
  0 <= logHead st < LOG_MAX /\
  0 <= logCount st <= LOG_MAX.

(** A run of appends: before each message the clock moves on by the given
    number of milliseconds. *)
Definition appendAll (es : list (Z * string)) (st : Sys) : Sys :=
  foldl (fun s e => addLog e.2 (delay e.1 s)) st es.

(** The entries such a run writes, oldest first. *)
Fixpoint stamped (c : Z) (es : list (Z * string)) : list LogEntry :=
  match es with
  | [] => []
  | e :: rest => mkLogEntry (u32 (c + e.1)) e.2 :: stamped (c + e.1) rest
  end.

(** Strings separated by commas. *)
Fixpoint joinComma (l : list string) : string :=
  match l with
  | [] => EmptyString
  | [x] => x
  | x :: rest => x +:+ "," +:+ joinComma rest
  end.

(** The clock and the cooldown stamps: time has not run backwards, the
    gateway's answers take no negative time, and until 30000 ms after
    power-on both stamps still have their initial value 0. *)
Definition cooldownInv (st : Sys) : Prop :=
  0 <= clock st /\
  Forall (fun r => 0 <= took r) (gateway st) /\
  length (lastSmsMillis st) = 2%nat /\
  (clock st < SMS_COOLDOWN_MS -> lastSmsMillis st = [0; 0]).

Definition sysInv (st : Sys) : Prop := cooldownInv st /\ logWf st.

(** ** Example runs

    The sketch after power-on with both switches open, no key and no gateway
    answer waiting. *)
Definition demoBoot : Sys := setup (powerOn ∅ [] []).

(** A bike is put on rack 1 and seen by the next pass of the loop. *)
Definition demoParked : Sys :=
  loop None None (delay 100 (set_pins (<[SW1_PIN := LOW]> (pins demoBoot)) demoBoot)).

(** Rack 1 is locked; a quarter of a second later the bike is lifted. *)
Definition demoLocked : Sys := setLocked 0 true demoParked.
Definition demoLifted : Sys :=
  updateBikePresence
    (delay 250 (set_pins (<[SW1_PIN := HIGH]> (pins demoLocked)) demoLocked)).

(** The tamper check has seen the lifted bike. *)
Definition demoTamper : Sys := checkTamper demoLifted.

(** The owner of the bike on rack 1 has pressed "#" and typed three digits;
    a "*" is waiting in the UART. *)
Definition demoTyping : Sys :=
  set_keypadRx ["*"%char]
    (Nat.iter 4 handleSelfServeKeypad
       (set_keypadRx (list_ascii_of_string "#123") demoParked)).

(** 81 log messages, 10 ms apart. *)
Definition demoMessages : list (Z * string) :=
  (fun n => (10, "event " +:+ itoa n)) <$> seqZ 0 81.

(** ** Further observations *)

(** Whether [server.authenticate] accepts a request, and the raw [rack]
    argument of the requests that carry one. *)
Definition reqAuth (req : WebReq) : bool :=
  match req with
  | ReqStatus auth | ReqSetOwner auth _ _ _ | ReqToggle auth _
  | ReqUnlock auth _ | ReqClear auth _ => auth
  end.


Definition anySelfServeCandidate_body (st : Sys) (found : bool) (i : nat) : bool :=
  if found then true
  else if (bikePresent st !!! i) && negb (locked (racks st !!! i)) then true
  else false.

(** The loop returns true at the first candidate and false after the last
    rack. *)
Definition anySelfServeCandidate (st : Sys) : bool :=
  foldl (anySelfServeCandidate_body st) false (seq 0 2).

(** Two states that differ at most in what alerting and logging write: the
    gateway script, the trace, the clock, the cooldown stamps, the last-event
    text and the log ring. *)
Definition sameControl (st st' : Sys) : Prop :=
  pins st' = pins st /\ keypadRx st' = keypadRx st /\ wifiIsAP st' = wifiIsAP st /\
  rackMotion st' = rackMotion st /\ buzzerOffAtMs st' = buzzerOffAtMs st /\
  bikePresent st' = bikePresent st /\ lastBikePresent st' = lastBikePresent st /\
  lastSwChangeMs st' = lastSwChangeMs st /\ racks st' = racks st /\
  uiState st' = uiState st /\ uiSelectedRack st' = uiSelectedRack st /\
  uiNum st' = uiNum st.

(** A rack to which [alertUnknownRFID] tries to send. *)
Definition alertTarget (i : nat) (st : Sys) : bool :=
  locked (racks st !!! i) && (slen (ownerNumber (racks st !!! i)) =? 11).

(** A rack after [toggleLock]. *)
Definition toggled (r : Rack) : Rack :=
  mkRack (ownerName r) (ownerNumber r) (negb (locked r)) (tagUid r)
    (if locked r then false else tamperLatched r).

(** A rack the self-service flow can start on: a bike is present and the
    rack is not locked. *)
Definition eligible (i : nat) (st : Sys) : bool :=
  (bikePresent st !!! i) && negb (locked (racks st !!! i)).

(** Whether a character occurs in a string. *)
Fixpoint hasChar (c : ascii) (s : string) : bool :=
  match s with
  | EmptyString => false
  | String a rest => Ascii.eqb a c || hasChar c rest
  end.

(** ** What holds between the operations

    The session: idle with nothing selected and an empty buffer, or active
    on one of the two racks with at most 11 characters, all digits. *)
Definition uiInv (st : Sys) : Prop :=
  (uiState st = UI_IDLE /\ uiSelectedRack st = -1 /\ uiNum st = EmptyString) \/
  (uiState st <> UI_IDLE /\ (uiSelectedRack st = 0 \/ uiSelectedRack st = 1) /\
   slen (uiNum st) <= 11 /\ digitsOnly (uiNum st) = true).

(** The relay outputs of a rack agree with the phase of its motion record. *)
Definition relayState (i : nat) (phase : MotionState) (p : gmap Z Z) : Prop :=
  match phase with
  | MOTION_IDLE => pinInactive p (relayA i) /\ pinInactive p (relayB i)
  | MOTION_EXTEND => driving i true p
  | MOTION_RETRACT => driving i false p
  end.

Definition relayInv (st : Sys) : Prop :=
  forall i, (i < 2)%nat ->
    exists rm, rackMotion st !! i = Some rm /\ relayState i (state rm) (pins st).

(** The racks carry the tags assigned in [setup]. *)
Definition tagsInv (st : Sys) : Prop :=
  tagUid <$> racks st = [RACK1_UID; RACK2_UID].

Definition ctlInv (st : Sys) : Prop := uiInv st /\ relayInv st /\ tagsInv st.

Definition isRelayPin (pin : Z) : bool :=
  (pin =? R1_RELAY_A_PIN) || (pin =? R1_RELAY_B_PIN) ||
  (pin =? R2_RELAY_A_PIN) || (pin =? R2_RELAY_B_PIN).


(** The owner of the bike on rack 1 has pressed "#", typed an 11-digit
    number and pressed "#" again: the session waits for the card. *)
Definition demoWaiting : Sys :=
  Nat.iter 13 handleSelfServeKeypad
    (set_keypadRx (list_ascii_of_string "#09171234567#") demoParked).

(** The bike is taken off rack 1 while the session waits for the card. *)
Definition demoAbandoned : Sys :=
  updateBikePresence
    (delay 100 (set_pins (<[SW1_PIN := HIGH]> (pins demoWaiting)) demoWaiting)).

(** A text without backslash, double quote and line feed: the escaping of
    [logsJson] has nothing to replace in it. *)
Definition plainText (s : string) : bool :=
  negb (hasChar BSLASH s) && negb (hasChar DQUOTE s) && negb (hasChar NEWLINE s).

(** One entry as it stands in the status answer: an object with the uptime
    text under "t" and the message, as it was logged, under "msg". *)
Definition entryText (e : LogEntry) : string :=
  String "{" (String DQUOTE (String "t" (String DQUOTE (String ":" (String DQUOTE
    (formatUptime (ms e) +:+
     String DQUOTE (String "," (String DQUOTE (String "m" (String "s" (String "g"
       (String DQUOTE (String ":" (String DQUOTE
          (msg e +:+ String DQUOTE (String "}" EmptyString)))))))))))))))).

(** A text between double quotes. *)
Definition quoted (s : string) : string := DQ +:+ s +:+ DQ.

(** A bike is put on rack 1 30 ms before [millis()] wraps, another on rack 2
    100 ms later; both racks are unlocked. *)
Definition demoWrapped : Sys :=
  let st := delay (ULONG_MOD - 30 - clock demoBoot)
              (set_pins (<[SW1_PIN := LOW]> (pins demoBoot)) demoBoot) in
  let st := updateBikePresence st in
  let st := delay 100 (set_pins (<[SW2_PIN := LOW]> (pins st)) st) in
  updateBikePresence st.
(** * Properties *)

(** ** 32-bit timestamps *)

Lemma u32_range z : 0 <= u32 z < ULONG_MOD.
Proof. unfold u32, ULONG_MOD. apply Z.mod_pos_bound. lia. Qed.

Lemma u32_small z : 0 <= z < ULONG_MOD -> u32 z = z.
Proof. intros H. unfold u32. apply Z.mod_small. exact H. Qed.

(** Between two readings of the clock less than 2^32 ms apart, the wrapped
    difference of the two [millis()] values is the true elapsed time. *)
Lemma usub_millis t0 t1 :
  0 <= t1 - t0 < ULONG_MOD -> usub (u32 t1) (u32 t0) = t1 - t0.
Proof.
  intros H. unfold usub, u32.
  rewrite <- Zminus_mod. apply Z.mod_small. exact H.
Qed.

(** ** What the primitives leave alone *)

Section Frames.
Variable st : Sys.

Lemma racks_digitalWrite pin level : racks (digitalWrite pin level st) = racks st.
Proof. reflexivity. Qed.

Lemma racks_rackSetStop i : racks (rackSetStop i st) = racks st.
Proof. unfold rackSetStop. case_decide; reflexivity. Qed.

Lemma racks_startMotionForRack i b : racks (startMotionForRack i b st) = racks st.
Proof.
  unfold startMotionForRack, rackSetExtend, rackSetRetract, rackSetStop.
  destruct b; case_decide; reflexivity.
Qed.

Lemma racks_addLog m : racks (addLog m st) = racks st.
Proof. unfold addLog. simpl. case_match; reflexivity. Qed.

Lemma racks_sendViaPhoneGateway n m :
  racks (sendViaPhoneGateway n m st).2 = racks st.
Proof. unfold sendViaPhoneGateway. repeat case_match; reflexivity. Qed.

Lemma racks_sendAlertSMS i n m : racks (sendAlertSMS i n m st).2 = racks st.
Proof.
  unfold sendAlertSMS.
  destruct (usub _ _ <? _); [reflexivity|].
  pose proof (racks_sendViaPhoneGateway n m) as H.
  destruct (sendViaPhoneGateway n m st) as [ok st1]. simpl in *.
  destruct ok; exact H.
Qed.

Lemma racks_buzzerOnFor d : racks (buzzerOnFor d st) = racks st.
Proof. reflexivity. Qed.

Lemma racks_resetUi : racks (resetUi st) = racks st.
Proof. reflexivity. Qed.

Lemma racks_uiShowEnterNum : racks (uiShowEnterNum st) = racks st.
Proof. reflexivity. Qed.

Lemma racks_updateBuzzer : racks (updateBuzzer st) = racks st.
Proof. unfold updateBuzzer. case_match; reflexivity. Qed.

Lemma racks_sessionAbortCheck : racks (sessionAbortCheck st) = racks st.
Proof. unfold sessionAbortCheck. repeat case_match; reflexivity. Qed.
End Frames.

Lemma racks_updateMotion_body now i st : racks (updateMotion_body now i st) = racks st.
Proof.
  unfold updateMotion_body. repeat case_match; try reflexivity.
  simpl. apply racks_rackSetStop.
Qed.

Lemma racks_updateMotion st : racks (updateMotion st) = racks st.
Proof.
  unfold updateMotion, for2. simpl.
  rewrite !racks_updateMotion_body. reflexivity.
Qed.

Lemma racks_updateBikePresence_body now raw i st :
  racks (updateBikePresence_body now raw i st) = racks st.
Proof. unfold updateBikePresence_body. repeat case_match; reflexivity. Qed.

Lemma racks_updateBikePresence st : racks (updateBikePresence st) = racks st.
Proof.
  unfold updateBikePresence, for2. simpl.
  rewrite !racks_updateBikePresence_body. reflexivity.
Qed.

(** Reading a field after a field update, by rewriting with the equation of
    that pair of field and update (proved on the spot for arbitrary states,
    so that checking it never has to compare two large states). *)
Ltac is_field p :=
  lazymatch p with
  | clock => idtac | pins => idtac | trace => idtac | keypadRx => idtac
  | gateway => idtac | wifiIsAP => idtac | lastSmsMillis => idtac
  | rackMotion => idtac | buzzerOffAtMs => idtac | bikePresent => idtac
  | lastBikePresent => idtac | lastSwChangeMs => idtac | lastEvent => idtac
  | racks => idtac | logs => idtac | logHead => idtac | logCount => idtac
  | uiState => idtac | uiSelectedRack => idtac | uiNum => idtac
  end.

Ltac is_update g :=
  lazymatch g with
  | set_clock => idtac | set_pins => idtac | set_trace => idtac
  | set_keypadRx => idtac | set_gateway => idtac | set_wifiIsAP => idtac
  | set_lastSmsMillis => idtac | set_rackMotion => idtac
  | set_buzzerOffAtMs => idtac | set_bikePresent => idtac
  | set_lastBikePresent => idtac | set_lastSwChangeMs => idtac
  | set_lastEvent => idtac | set_racks => idtac | set_logs => idtac
  | set_logHead => idtac | set_logCount => idtac | set_uiState => idtac
  | set_uiSelectedRack => idtac | set_uiNum => idtac
  end.

Ltac field_eq p g :=
  let H := fresh "Hfield" in
  first
    [ assert (H : forall v s, p (g v s) = p s) by (intros; exact eq_refl)
    | assert (H : forall v s, p (g v s) = v) by (intros; exact eq_refl) ];
  rewrite ?H in *; clear H.

Ltac proj_simpl :=
  repeat match goal with
  | |- context [?p (?g ?v ?s)] => is_field p; is_update g; field_eq p g
  | _ : context [?p (?g ?v ?s)] |- _ => is_field p; is_update g; field_eq p g
  end.

Lemma racks_delay d st : racks (delay d st) = racks st.
Proof. reflexivity. Qed.
Lemma racks_lcd2 a b st : racks (lcd2 a b st) = racks st.
Proof. reflexivity. Qed.
Lemma racks_serverSend c b st : racks (serverSend c b st) = racks st.
Proof. reflexivity. Qed.
Lemma racks_uiShowIdle st : racks (uiShowIdle st) = racks st.
Proof. reflexivity. Qed.
Lemma racks_uiShowWaitRFID st : racks (uiShowWaitRFID st) = racks st.
Proof. reflexivity. Qed.
Lemma racks_requestAuthentication st : racks (requestAuthentication st) = racks st.
Proof. reflexivity. Qed.

Create Rewrite HintDb frame.
#[local] Hint Rewrite racks_delay racks_lcd2 racks_serverSend racks_uiShowIdle
  racks_uiShowWaitRFID racks_requestAuthentication racks_digitalWrite
  racks_rackSetStop racks_startMotionForRack racks_addLog racks_buzzerOnFor
  racks_resetUi racks_uiShowEnterNum racks_updateBuzzer racks_sessionAbortCheck
  racks_updateMotion racks_updateBikePresence : frame.

Ltac frame :=
  repeat first
    [ progress proj_simpl
    | progress autorewrite with frame in *
    | progress cbn [fst snd negb] in * ].

(** ** The lock manager and the latch invariant *)

Lemma racks_setLocked i b st :
  racks (setLocked i b st) =
  alter (fun r => mkRack (ownerName r) (ownerNumber r) b (tagUid r)
                    (if b then tamperLatched r else false)) i (racks st).
Proof.
  unfold setLocked. rewrite racks_startMotionForRack.
  destruct b; simpl.
  - apply list_alter_ext; [|reflexivity]. intros [] ?; reflexivity.
  - rewrite list_alter_alter_eq. apply list_alter_ext; [|reflexivity].
    intros [] ?; reflexivity.
Qed.

Lemma racks_toggleLock i st :
  exists b, racks (toggleLock i st) = racks (setLocked i b st).
Proof. unfold toggleLock. eauto. Qed.

Lemma racks_checkTamper_body i st :
  racks (checkTamper_body i st) =
  if tamperCond i st then alter (set_tamperLatched true) i (racks st) else racks st.
Proof.
  unfold checkTamper_body, tamperCond.
  destruct (_ && _ && _ && _); [|reflexivity].
  cbn [racks set_lastBikePresent].
  repeat case_match; simplify_eq; simpl; rewrite ?racks_addLog; simpl;
  try match goal with
  | H : sendAlertSMS ?i ?n ?m ?s = (_, ?s') |- _ =>
      pose proof (racks_sendAlertSMS s i n m) as Hr; rewrite H in Hr; simpl in Hr
  end; congruence.
Qed.

Lemma racksInv_alter f i l :
  (forall r, l !! i = Some r -> rack_ok r -> rack_ok (f r)) ->
  racksInv l -> racksInv (alter f i l).
Proof.
  unfold racksInv. intros Hf [Hlen Hall]. split.
  - rewrite length_alter. exact Hlen.
  - apply Forall_alter; assumption.
Qed.

(** Changing the owner's name or number never touches the two flags. *)
Lemma racksInv_alter_owner f i l :
  (forall r, locked (f r) = locked r /\ tamperLatched (f r) = tamperLatched r) ->
  racksInv l -> racksInv (alter f i l).
Proof.
  intros Hf. apply racksInv_alter. intros r _ Hr. unfold rack_ok.
  destruct (Hf r) as [-> ->]. exact Hr.
Qed.

Lemma lockInv_racks st st' : racks st' = racks st -> lockInv st -> lockInv st'.
Proof. unfold lockInv. intros ->. auto. Qed.

Lemma lockInv_alter f i st st' :
  (forall r, racks st !! i = Some r -> rack_ok r -> rack_ok (f r)) ->
  racks st' = alter f i (racks st) -> lockInv st -> lockInv st'.
Proof. unfold lockInv. intros Hf ->. apply racksInv_alter. exact Hf. Qed.

Lemma lockInv_setLocked i b st : lockInv st -> lockInv (setLocked i b st).
Proof.
  eapply lockInv_alter; [|apply racks_setLocked].
  intros r _ Hr. unfold rack_ok in *. simpl. destruct b; [reflexivity | discriminate].
Qed.

Lemma lockInv_toggleLock i st : lockInv st -> lockInv (toggleLock i st).
Proof. apply lockInv_setLocked. Qed.

Lemma lockInv_checkTamper_body i st : lockInv st -> lockInv (checkTamper_body i st).
Proof.
  intros H. pose proof (racks_checkTamper_body i st) as Hr.
  destruct (tamperCond i st) eqn:Hc.
  - eapply lockInv_alter; [|exact Hr|exact H].
    intros r Hi _ _. simpl.
    unfold tamperCond in Hc. apply list_lookup_total_correct in Hi.
    rewrite Hi in Hc. destruct (locked r); [reflexivity|].
    rewrite andb_false_r in Hc. discriminate.
  - eapply lockInv_racks; eassumption.
Qed.

Lemma lockInv_checkTamper st : lockInv st -> lockInv (checkTamper st).
Proof.
  intros H. unfold checkTamper, for2. simpl.
  auto using lockInv_checkTamper_body.
Qed.

Lemma racks_readRemoteKey st : racks (readRemoteKey st).2 = racks st.
Proof. unfold readRemoteKey. case_match; reflexivity. Qed.

Lemma lockInv_handleSelfServeKeypad st : lockInv st -> lockInv (handleSelfServeKeypad st).
Proof.
  intros H. unfold handleSelfServeKeypad.
  pose proof (racks_readRemoteKey st) as Hk.
  destruct (readRemoteKey st) as [k s]. cbn [snd] in Hk.
  unfold lockInv in *. rewrite <- Hk in H. clear Hk.
  unfold startSelfServeForCurrentBike.
  repeat case_match; frame; try exact H;
    repeat (apply racksInv_alter_owner; [intros []; split; reflexivity|]);
    exact H.
Qed.

Lemma racks_alertUnknownRFID uidStr st : racks (alertUnknownRFID uidStr st) = racks st.
Proof.
  unfold alertUnknownRFID. cbn [foldl seq]. unfold alertUnknownRFID_body.
  repeat case_match; simplify_eq; frame;
  repeat match goal with
  | H : sendAlertSMS ?i ?n ?m ?s = (_, ?s') |- _ =>
      let Hr := fresh in
      pose proof (racks_sendAlertSMS s i n m) as Hr; rewrite H in Hr;
      simpl in Hr; clear H
  end; congruence.
Qed.

Lemma lockInv_handleRFID_scan uid idxs st :
  lockInv st -> lockInv (handleRFID_scan uid idxs st).2.
Proof.
  revert st. induction idxs as [|i rest IH]; intros st H; simpl; [exact H|].
  case_match; [|apply IH; exact H].
  apply (lockInv_toggleLock i) in H. unfold lockInv in *. frame. exact H.
Qed.

Lemma lockInv_handleRFID card st : lockInv st -> lockInv (handleRFID card st).
Proof.
  intros H. unfold handleRFID. destruct card as [uid|]; [|exact H].
  case_match.
  - pose proof (lockInv_setLocked (Z.to_nat (uiSelectedRack st)) true st H) as HL.
    case_match; unfold lockInv in *; frame; assumption.
  - pose proof (lockInv_handleRFID_scan uid (seq 0 2) st H) as Hs.
    destruct (handleRFID_scan uid (seq 0 2) st) as [matched st1].
    destruct matched; cbn [negb]; unfold lockInv in *; frame;
      rewrite ?racks_alertUnknownRFID; exact Hs.
Qed.

Lemma lockInv_handleClient req st : lockInv st -> lockInv (handleClient req st).
Proof.
  intros H. destruct req as [[auth|auth rack name number|auth rack|auth rack|auth rack]|];
    simpl; [| | | | |exact H].
  - unfold handleStatus. case_match; exact H.
  - unfold handleSetOwner. repeat case_match; try exact H.
    unfold lockInv in *. frame.
    repeat (apply racksInv_alter_owner; [intros []; split; reflexivity|]).
    exact H.
  - pose proof (lockInv_toggleLock (Z.to_nat (getRackArg rack - 1)) st H) as HL.
    unfold handleToggle. repeat case_match; try exact H;
      unfold lockInv in *; frame; exact HL.
  - pose proof (lockInv_setLocked (Z.to_nat (getRackArg rack - 1)) false st H) as HL.
    unfold handleUnlock. repeat case_match; try exact H.
    unfold lockInv in *; frame; exact HL.
  - unfold handleClear. repeat case_match; try exact H.
    unfold lockInv in *. frame.
    (* [locked] and [tamperLatched] are cleared together *)
    rewrite list_alter_alter_eq.
    apply racksInv_alter; [intros r _ _; unfold rack_ok; simpl; discriminate|].
    repeat (apply racksInv_alter_owner; [intros []; split; reflexivity|]).
    exact H.
Qed.

Lemma lockInv_env_step st st' : env_step st st' -> lockInv st -> lockInv st'.
Proof. intros [] Hinv; exact Hinv. Qed.
Lemma racks_setup inputs keys gw :
  racks (setup (powerOn inputs keys gw)) =
  [mkRack EmptyString EmptyString false RACK1_UID false;
   mkRack EmptyString EmptyString false RACK2_UID false].
Proof. vm_compute. reflexivity. Qed.

Lemma lockInv_setup inputs keys gw : lockInv (setup (powerOn inputs keys gw)).
Proof.
  unfold lockInv. rewrite racks_setup.
  split; [reflexivity|]. repeat constructor; intros ?; discriminate.
Qed.

Lemma lockInv_loop req card st : lockInv st -> lockInv (loop req card st).
Proof.
  intros H. unfold loop.
  eapply lockInv_racks; [apply racks_sessionAbortCheck|].
  eapply lockInv_racks; [apply racks_updateBuzzer|].
  eapply lockInv_racks; [apply racks_updateMotion|].
  apply lockInv_handleRFID, lockInv_handleSelfServeKeypad, lockInv_checkTamper.
  eapply lockInv_racks; [apply racks_updateBikePresence|].
  apply lockInv_handleClient, H.
Qed.

Lemma reachable_lockInv st : reachable st -> lockInv st.
Proof.
  induction 1 as [inputs keys gw _| | | | | | | | | | | |].
  - apply lockInv_setup.
  - eapply lockInv_env_step; eassumption.
  - apply lockInv_loop; assumption.
  - eapply lockInv_racks; [apply racks_updateBikePresence|assumption].
  - apply lockInv_checkTamper; assumption.
  - apply lockInv_handleSelfServeKeypad; assumption.
  - apply lockInv_handleRFID; assumption.
  - eapply lockInv_racks; [apply racks_updateMotion|assumption].
  - eapply lockInv_racks; [apply racks_updateBuzzer|assumption].
  - eapply lockInv_racks; [apply racks_sessionAbortCheck|assumption].
  - apply lockInv_handleClient; assumption.
  - apply lockInv_setLocked; assumption.
  - apply lockInv_toggleLock; assumption.
Qed.

(** C1.  In every state the sketch can reach -- after setup, after any
    sequence of loop passes, tamper checks, [setLocked], [toggleLock], the
    web force-unlock and clear-session handlers and all the other handlers --
    the rack table has its two racks and a rack whose tamper latch is set is
    locked. *)
Theorem tamper_latched_implies_locked st :
  reachable st ->
  length (racks st) = 2%nat /\
  forall i r, racks st !! i = Some r -> tamperLatched r = true -> locked r = true.
Proof.
  intros H. destruct (reachable_lockInv st H) as [Hlen Hall]. split; [exact Hlen|].
  intros i r Hi. rewrite Forall_lookup in Hall. exact (Hall i r Hi).
Qed.

(** ** Actuator sequences *)

Lemma relayA_neq_relayB i j : relayA i <> relayB j.
Proof. unfold relayA, relayB. repeat case_decide; discriminate. Qed.

Lemma relay_other_rack i j : i <> j -> (i < 2)%nat -> (j < 2)%nat ->
  relayA i <> relayA j /\ relayA i <> relayB j /\ relayB i <> relayA j /\ relayB i <> relayB j.
Proof.
  intros Hne Hi Hj. unfold relayA, relayB.
  repeat case_decide; subst; repeat split; try discriminate; lia.
Qed.

Lemma on_neq_off : relayOnLevel <> relayOffLevel.
Proof. discriminate. Qed.

Section StartMotion.
Variables (rack : nat) (target : bool) (st : Sys).

Lemma rackSetStop_trace :
  trace (rackSetStop rack st) =
  [EDigitalWrite (clock st) (relayB rack) relayOffLevel;
   EDigitalWrite (clock st) (relayA rack) relayOffLevel] ++ trace st.
Proof. unfold rackSetStop, relayA, relayB. case_decide; reflexivity. Qed.

Lemma rackSetStop_pins :
  pins (rackSetStop rack st) =
  <[relayB rack := relayOffLevel]> (<[relayA rack := relayOffLevel]> (pins st)).
Proof. unfold rackSetStop, relayA, relayB. case_decide; reflexivity. Qed.

Lemma rackSetStop_rackMotion : rackMotion (rackSetStop rack st) = rackMotion st.
Proof. unfold rackSetStop. case_decide; reflexivity. Qed.

Lemma rackSetStop_clock : clock (rackSetStop rack st) = clock st.
Proof. unfold rackSetStop. case_decide; reflexivity. Qed.

Lemma startMotionForRack_clock :
  clock (startMotionForRack rack target st) = clock st + 50.
Proof.
  unfold startMotionForRack, rackSetExtend, rackSetRetract, rackSetStop.
  destruct target; case_decide; reflexivity.
Qed.

Lemma startMotionForRack_trace :
  trace (startMotionForRack rack target st) =
  [EDigitalWrite (clock st + 50) (relayB rack) (levelB target);
   EDigitalWrite (clock st + 50) (relayA rack) (levelA target);
   EDigitalWrite (clock st) (relayB rack) relayOffLevel;
   EDigitalWrite (clock st) (relayA rack) relayOffLevel] ++ trace st.
Proof.
  unfold startMotionForRack, rackSetExtend, rackSetRetract, rackSetStop,
    relayA, relayB.
  destruct target; case_decide; reflexivity.
Qed.

Lemma startMotionForRack_pins :
  pins (startMotionForRack rack target st) =
  <[relayB rack := levelB target]> (<[relayA rack := levelA target]>
    (<[relayB rack := relayOffLevel]> (<[relayA rack := relayOffLevel]> (pins st)))).
Proof.
  unfold startMotionForRack, rackSetExtend, rackSetRetract, rackSetStop,
    relayA, relayB.
  destruct target; case_decide; reflexivity.
Qed.

Lemma startMotionForRack_rackMotion :
  rackMotion (startMotionForRack rack target st) =
  alter (fun _ => mkRackMotion (motionOf target) (u32 (clock st + 50))) rack
    (rackMotion st).
Proof.
  unfold startMotionForRack, rackSetExtend, rackSetRetract, rackSetStop.
  destruct target; case_decide; cbn;
    rewrite list_alter_alter_eq; apply list_alter_ext; reflexivity.
Qed.

Lemma startMotionForRack_driving :
  driving rack target (pins (startMotionForRack rack target st)).
Proof.
  rewrite startMotionForRack_pins. unfold driving. split.
  - rewrite lookup_insert_ne by (apply not_eq_sym, relayA_neq_relayB).
    apply lookup_insert_eq.
  - apply lookup_insert_eq.
Qed.
End StartMotion.

Lemma driving_not_bothActive rack target p :
  driving rack target p -> ~ bothActive rack p.
Proof.
  unfold driving, bothActive, pinActive. intros [HA HB] [HA' HB'].
  rewrite HA in HA'. rewrite HB in HB'. destruct target; discriminate.
Qed.

(** The four instants of a motion start: A off, B off, then the new
    direction.  Whatever the outputs were before, from the first write on
    they are never both active. *)
Lemma startMotion_samples rack target p t1 t2 t3 t4 :
  Forall (fun q => ~ bothActive rack q)
    (pinSamples p
       [EDigitalWrite t1 (relayA rack) relayOffLevel;
        EDigitalWrite t2 (relayB rack) relayOffLevel;
        EDigitalWrite t3 (relayA rack) (levelA target);
        EDigitalWrite t4 (relayB rack) (levelB target)]).
Proof.
  pose proof (relayA_neq_relayB rack rack) as Hne.
  assert (Hne' : relayB rack <> relayA rack) by (apply not_eq_sym, Hne).
  cbn [pinSamples]. unfold bothActive, pinActive.
  repeat first [apply List.Forall_nil | apply List.Forall_cons]; intros [HA HB];
    revert HA HB; destruct target; cbn [levelA levelB];
    rewrite ?lookup_insert_eq, ?(lookup_insert_ne _ _ _ _ Hne),
      ?(lookup_insert_ne _ _ _ _ Hne'), ?lookup_insert_eq,
      ?(lookup_insert_ne _ _ _ _ Hne), ?(lookup_insert_ne _ _ _ _ Hne'),
      ?lookup_insert_eq;
    try discriminate.
Qed.

Section SetLocked.
Variables (i : nat) (lockIt : bool) (st : Sys).

Lemma setLocked_trace :
  trace (setLocked i lockIt st) =
  [EDigitalWrite (clock st + 50) (relayB i) (levelB lockIt);
   EDigitalWrite (clock st + 50) (relayA i) (levelA lockIt);
   EDigitalWrite (clock st) (relayB i) relayOffLevel;
   EDigitalWrite (clock st) (relayA i) relayOffLevel] ++ trace st.
Proof.
  unfold setLocked. rewrite startMotionForRack_trace.
  destruct lockIt; reflexivity.
Qed.

Lemma setLocked_pins :
  pins (setLocked i lockIt st) =
  <[relayB i := levelB lockIt]> (<[relayA i := levelA lockIt]>
    (<[relayB i := relayOffLevel]> (<[relayA i := relayOffLevel]> (pins st)))).
Proof.
  unfold setLocked. rewrite startMotionForRack_pins.
  destruct lockIt; reflexivity.
Qed.

Lemma setLocked_rackMotion :
  rackMotion (setLocked i lockIt st) =
  alter (fun _ => mkRackMotion (motionOf lockIt) (u32 (clock st + 50))) i
    (rackMotion st).
Proof.
  unfold setLocked. rewrite startMotionForRack_rackMotion.
  destruct lockIt; reflexivity.
Qed.

Lemma setLocked_driving : driving i lockIt (pins (setLocked i lockIt st)).
Proof. unfold setLocked. apply startMotionForRack_driving. Qed.
End SetLocked.

(** C5.  [setLocked(rack, desired)] stores [desired] in the locked flag,
    clears the tamper latch when [desired] is false, and starts a complete
    actuator sequence -- stop, 50 ms pause, then extend for lock or retract
    for unlock -- whatever the flag was before, so also when it already had
    the desired value. *)
Theorem setLocked_sets_flag_and_restarts_motion st i lockIt r rm :
  racks st !! i = Some r ->
  rackMotion st !! i = Some rm ->
  let st' := setLocked i lockIt st in
  racks st' !! i =
    Some (mkRack (ownerName r) (ownerNumber r) lockIt (tagUid r)
            (if lockIt then tamperLatched r else false)) /\
  rackMotion st' !! i = Some (mkRackMotion (motionOf lockIt) (u32 (clock st + 50))) /\
  trace st' =
    [EDigitalWrite (clock st + 50) (relayB i) (levelB lockIt);
     EDigitalWrite (clock st + 50) (relayA i) (levelA lockIt);
     EDigitalWrite (clock st) (relayB i) relayOffLevel;
     EDigitalWrite (clock st) (relayA i) relayOffLevel] ++ trace st /\
  driving i lockIt (pins st').
Proof.
  intros Hr Hrm st'. subst st'. repeat split.
  - rewrite racks_setLocked, list_lookup_alter_eq, Hr. reflexivity.
  - rewrite setLocked_rackMotion, list_lookup_alter_eq, Hrm. reflexivity.
  - apply setLocked_trace.
  - apply setLocked_driving.
  - apply setLocked_driving.
Qed.

(** C4.  A second [setLocked] for a rack whose first sequence is still
    running: the call writes stop (both relays off) at its start, and 50 ms
    later the pattern of its own direction; at the start and after each of
    these writes the two outputs of the rack are never both active; the rack
    ends up driven in the second call's direction, with the motion record
    restarted for it. *)
Theorem setLocked_again_supersedes st i d1 d2 rm :
  driving i d1 (pins st) ->
  rackMotion st !! i = Some rm ->
  state rm = motionOf d1 ->
  let st' := setLocked i d2 st in
  let writes :=
    [EDigitalWrite (clock st) (relayA i) relayOffLevel;
     EDigitalWrite (clock st) (relayB i) relayOffLevel;
     EDigitalWrite (clock st + 50) (relayA i) (levelA d2);
     EDigitalWrite (clock st + 50) (relayB i) (levelB d2)] in
  trace st' = rev writes ++ trace st /\
  Forall (fun p => ~ bothActive i p) (pins st :: pinSamples (pins st) writes) /\
  last (pinSamples (pins st) writes) = Some (pins st') /\
  driving i d2 (pins st') /\
  rackMotion st' !! i = Some (mkRackMotion (motionOf d2) (u32 (clock st + 50))).
Proof.
  intros Hdrv Hrm Hstate st' writes. subst st' writes. repeat split.
  - apply setLocked_trace.
  - apply List.Forall_cons.
    + eapply driving_not_bothActive, Hdrv.
    + apply startMotion_samples.
  - rewrite setLocked_pins. reflexivity.
  - apply setLocked_driving.
  - apply setLocked_driving.
  - rewrite setLocked_rackMotion, list_lookup_alter_eq, Hrm. reflexivity.
Qed.

Section UpdateMotion.
Variables (now : Z) (j : nat) (st : Sys).

Lemma updateMotion_body_rackMotion :
  rackMotion (updateMotion_body now j st) =
  if motionExpired now (rackMotion st !!! j)
  then alter (set_state MOTION_IDLE) j (rackMotion st) else rackMotion st.
Proof.
  unfold updateMotion_body, motionExpired.
  case_decide; [rewrite bool_decide_eq_true_2 by assumption; reflexivity|].
  rewrite bool_decide_eq_false_2 by assumption. cbn [negb andb].
  case_match; [|reflexivity].
  proj_simpl. rewrite rackSetStop_rackMotion. reflexivity.
Qed.

Lemma updateMotion_body_pins :
  pins (updateMotion_body now j st) =
  if motionExpired now (rackMotion st !!! j)
  then <[relayB j := relayOffLevel]> (<[relayA j := relayOffLevel]> (pins st))
  else pins st.
Proof.
  unfold updateMotion_body, motionExpired.
  case_decide; [rewrite bool_decide_eq_true_2 by assumption; reflexivity|].
  rewrite bool_decide_eq_false_2 by assumption. cbn [negb andb].
  case_match; [|reflexivity].
  proj_simpl. apply rackSetStop_pins.
Qed.

Lemma updateMotion_body_other i :
  i <> j -> (i < 2)%nat -> (j < 2)%nat ->
  rackMotion (updateMotion_body now j st) !! i = rackMotion st !! i /\
  pins (updateMotion_body now j st) !! relayA i = pins st !! relayA i /\
  pins (updateMotion_body now j st) !! relayB i = pins st !! relayB i.
Proof.
  intros Hne Hi Hj.
  destruct (relay_other_rack i j Hne Hi Hj) as (H1 & H2 & H3 & H4).
  rewrite updateMotion_body_rackMotion, updateMotion_body_pins.
  case_match; [|auto].
  rewrite list_lookup_alter_ne by auto.
  rewrite !lookup_insert_ne by auto. auto.
Qed.

Lemma updateMotion_body_own rm :
  rackMotion st !! j = Some rm ->
  (motionExpired now rm = true ->
     rackMotion (updateMotion_body now j st) !! j =
       Some (mkRackMotion MOTION_IDLE (startMs rm)) /\
     pinInactive (pins (updateMotion_body now j st)) (relayA j) /\
     pinInactive (pins (updateMotion_body now j st)) (relayB j)) /\
  (motionExpired now rm = false ->
     rackMotion (updateMotion_body now j st) !! j = Some rm /\
     pins (updateMotion_body now j st) = pins st).
Proof.
  intros Hrm. rewrite updateMotion_body_rackMotion, updateMotion_body_pins.
  rewrite (list_lookup_total_correct _ _ _ Hrm).
  split; intros ->.
  - rewrite list_lookup_alter_eq, Hrm. unfold pinInactive. repeat split.
    + rewrite lookup_insert_ne by (apply not_eq_sym, relayA_neq_relayB).
      apply lookup_insert_eq.
    + apply lookup_insert_eq.
  - auto.
Qed.
End UpdateMotion.

Lemma updateMotion_rack i st rm :
  (i < 2)%nat ->
  rackMotion st !! i = Some rm ->
  (motionExpired (millis st) rm = true ->
     rackMotion (updateMotion st) !! i = Some (mkRackMotion MOTION_IDLE (startMs rm)) /\
     pinInactive (pins (updateMotion st)) (relayA i) /\
     pinInactive (pins (updateMotion st)) (relayB i)) /\
  (motionExpired (millis st) rm = false ->
     rackMotion (updateMotion st) !! i = Some rm /\
     pins (updateMotion st) !! relayA i = pins st !! relayA i /\
     pins (updateMotion st) !! relayB i = pins st !! relayB i).
Proof.
  intros Hi Hrm. unfold updateMotion, for2. cbn [seq foldl].
  set (now := millis st).
  destruct i as [|[|i]]; [| |lia].
  - (* rack 1 is handled first, then the pass for rack 2 leaves it alone *)
    destruct (updateMotion_body_other now 1 (updateMotion_body now 0 st) 0)
      as (Hm & HA & HB); [lia..|].
    destruct (updateMotion_body_own now 0 st rm Hrm) as [Hexp Hnot].
    unfold pinInactive. rewrite Hm, HA, HB. split; intros Hc.
    + apply Hexp, Hc.
    + destruct (Hnot Hc) as [-> ->]. auto.
  - (* the pass for rack 1 leaves rack 2 alone *)
    destruct (updateMotion_body_other now 0 st 1) as (Hm & HA & HB); [lia..|].
    rewrite Hrm in Hm.
    destruct (updateMotion_body_own now 1 (updateMotion_body now 0 st) rm Hm)
      as [Hexp Hnot].
    split; intros Hc.
    + apply Hexp, Hc.
    + destruct (Hnot Hc) as [-> ->]. auto.
Qed.

(** C6.  The periodic tick [updateMotion]: a rack that is extending or
    retracting and whose start timestamp is at least 8000 ms old (the
    difference of the two 32-bit [millis()] values) becomes idle with both
    of its relay outputs inactive; in particular this is where a rack is
    8000 ms or more (and less than 2^32 ms) after a motion start with no
    other call in between.  A rack that is already idle keeps its motion
    record and both output levels. *)
Theorem updateMotion_expires_after_move_time st i rm :
  (i < 2)%nat ->
  rackMotion st !! i = Some rm ->
  (state rm <> MOTION_IDLE ->
   ACTUATOR_MOVE_TIME_MS <= usub (millis st) (startMs rm) ->
     rackMotion (updateMotion st) !! i = Some (mkRackMotion MOTION_IDLE (startMs rm)) /\
     pinInactive (pins (updateMotion st)) (relayA i) /\
     pinInactive (pins (updateMotion st)) (relayB i)) /\
  (state rm = MOTION_IDLE ->
     rackMotion (updateMotion st) !! i = Some rm /\
     pins (updateMotion st) !! relayA i = pins st !! relayA i /\
     pins (updateMotion st) !! relayB i = pins st !! relayB i) /\
  (forall target d,
     ACTUATOR_MOVE_TIME_MS <= d < ULONG_MOD ->
     let st' := updateMotion (delay d (startMotionForRack i target st)) in
     rackMotion st' !! i = Some (mkRackMotion MOTION_IDLE (u32 (clock st + 50))) /\
     pinInactive (pins st') (relayA i) /\
     pinInactive (pins st') (relayB i)).
Proof.
  intros Hi Hrm. split; [|split].
  - intros Hstate Hel.
    apply (updateMotion_rack i st rm Hi Hrm).
    unfold motionExpired. rewrite bool_decide_eq_false_2 by assumption.
    cbn [negb andb]. apply Z.geb_le. exact Hel.
  - intros Hstate.
    apply (updateMotion_rack i st rm Hi Hrm).
    unfold motionExpired. rewrite bool_decide_eq_true_2 by assumption.
    reflexivity.
  - intros target d Hd st'. subst st'.
    set (st1 := delay d (startMotionForRack i target st)).
    assert (Hrm1 : rackMotion st1 !! i =
                   Some (mkRackMotion (motionOf target) (u32 (clock st + 50)))).
    { unfold st1, delay. proj_simpl.
      rewrite startMotionForRack_rackMotion, list_lookup_alter_eq, Hrm.
      reflexivity. }
    apply (updateMotion_rack i st1 _ Hi Hrm1).
    unfold motionExpired. cbn [state startMs].
    rewrite bool_decide_eq_false_2 by (destruct target; discriminate).
    cbn [negb andb]. apply Z.geb_le.
    unfold millis, st1, delay. proj_simpl. rewrite startMotionForRack_clock.
    unfold ACTUATOR_MOVE_TIME_MS in *.
    rewrite usub_millis by lia. lia.
Qed.

(** ** The SMS cooldown gate *)

Section Gateway.
Variables (number message : string) (st : Sys).

Lemma sendViaPhoneGateway_lastSmsMillis :
  lastSmsMillis (sendViaPhoneGateway number message st).2 = lastSmsMillis st.
Proof. unfold sendViaPhoneGateway. repeat case_match; reflexivity. Qed.

(** The gateway is contacted at most once per call, and only with a
    non-negative duration does the clock move. *)
Lemma sendViaPhoneGateway_clock :
  clock (sendViaPhoneGateway number message st).2 = clock st \/
  exists r, head (gateway st) = Some r /\
    clock (sendViaPhoneGateway number message st).2 = clock st + took r.
Proof.
  unfold sendViaPhoneGateway. repeat case_match; try (left; reflexivity).
  destruct (gateway st) as [|r rest]; cbn; [left|right; exists r; split];
    unfold delay; proj_simpl; try reflexivity.
  cbn. lia.
Qed.
End Gateway.

(** C7.  [sendAlertSMS] first looks at the rack's cooldown stamp.  While
    fewer than 30000 ms separate [millis()] from the stamp the call returns
    false and leaves the whole state as it is: nothing is sent and nothing
    is kept for later.  Otherwise the gateway is tried and the result
    returned; the stamp of the rack becomes the [millis()] of the call when
    the delivery succeeded and stays what it was when it failed, so the
    next attempt is judged against the last successful send. *)
Theorem sendAlertSMS_cooldown_gate st i number message last :
  lastSmsMillis st !! i = Some last ->
  (usub (millis st) last < SMS_COOLDOWN_MS ->
     sendAlertSMS i number message st = (false, st)) /\
  (SMS_COOLDOWN_MS <= usub (millis st) last ->
     (sendAlertSMS i number message st).1 =
       (sendViaPhoneGateway number message st).1 /\
     lastSmsMillis (sendAlertSMS i number message st).2 =
       if (sendAlertSMS i number message st).1
       then <[i := millis st]> (lastSmsMillis st)
       else lastSmsMillis st).
Proof.
  intros Hlast. unfold sendAlertSMS.
  rewrite (list_lookup_total_correct _ _ _ Hlast).
  split; intros Hgate.
  - apply Z.ltb_lt in Hgate. rewrite Hgate. reflexivity.
  - apply Z.ltb_ge in Hgate. rewrite Hgate.
    pose proof (sendViaPhoneGateway_lastSmsMillis number message st) as Hl.
    destruct (sendViaPhoneGateway number message st) as [ok st1].
    cbn [fst snd] in *. destruct ok; proj_simpl; rewrite ?Hl; auto.
Qed.

(** ** Presence filter *)

Section PresenceBody.
Variables (now : Z) (raw : list bool) (j : nat) (st : Sys).

Let flips := presenceFlips now raw j st.

Lemma updateBikePresence_body_bikePresent :
  bikePresent (updateBikePresence_body now raw j st) =
  if flips then <[j := raw !!! j]> (bikePresent st) else bikePresent st.
Proof.
  unfold updateBikePresence_body, flips, presenceFlips.
  destruct (negb _); [|reflexivity]. destruct (_ >=? _); reflexivity.
Qed.

Lemma updateBikePresence_body_lastSwChangeMs :
  lastSwChangeMs (updateBikePresence_body now raw j st) =
  if flips then <[j := now]> (lastSwChangeMs st) else lastSwChangeMs st.
Proof.
  unfold updateBikePresence_body, flips, presenceFlips.
  destruct (negb _); [|reflexivity]. destruct (_ >=? _); reflexivity.
Qed.

Lemma updateBikePresence_body_pins :
  pins (updateBikePresence_body now raw j st) = pins st.
Proof. unfold updateBikePresence_body. repeat case_match; reflexivity. Qed.

Lemma updateBikePresence_body_clock :
  clock (updateBikePresence_body now raw j st) = clock st.
Proof. unfold updateBikePresence_body. repeat case_match; reflexivity. Qed.

Lemma updateBikePresence_body_other i :
  i <> j ->
  bikePresent (updateBikePresence_body now raw j st) !! i = bikePresent st !! i /\
  lastSwChangeMs (updateBikePresence_body now raw j st) !! i = lastSwChangeMs st !! i.
Proof.
  intros Hne.
  rewrite updateBikePresence_body_bikePresent, updateBikePresence_body_lastSwChangeMs.
  case_match; [|auto]. rewrite !list_lookup_insert_ne by auto. auto.
Qed.
End PresenceBody.

Lemma updateBikePresence_pins st : pins (updateBikePresence st) = pins st.
Proof.
  unfold updateBikePresence, for2. cbn [seq foldl].
  rewrite !updateBikePresence_body_pins. reflexivity.
Qed.

Lemma updateBikePresence_clock st : clock (updateBikePresence st) = clock st.
Proof.
  unfold updateBikePresence, for2. cbn [seq foldl].
  rewrite !updateBikePresence_body_clock. reflexivity.
Qed.

(** What one call does to one rack. *)
Lemma updateBikePresence_rack st i b last :
  (i < 2)%nat ->
  bikePresent st !! i = Some b ->
  lastSwChangeMs st !! i = Some last ->
  let change := negb (Bool.eqb (rawSample i st) b) &&
                (usub (millis st) last >=? SW_DEBOUNCE_MS) in
  bikePresent (updateBikePresence st) !! i =
    Some (if change then rawSample i st else b) /\
  lastSwChangeMs (updateBikePresence st) !! i =
    Some (if change then millis st else last).
Proof.
  intros Hi Hb Hl change. subst change.
  unfold updateBikePresence, for2. cbn [seq foldl].
  set (now := millis st).
  set (raw := [readBikePresent SW1_PIN st; readBikePresent SW2_PIN st]).
  pose proof (lookup_lt_Some _ _ _ Hb) as Hlb.
  pose proof (lookup_lt_Some _ _ _ Hl) as Hll.
  destruct i as [|[|i]]; [| |lia].
  - destruct (updateBikePresence_body_other now raw 1
                (updateBikePresence_body now raw 0 st) 0) as [-> ->]; [lia|].
    rewrite updateBikePresence_body_bikePresent, updateBikePresence_body_lastSwChangeMs.
    unfold presenceFlips.
    rewrite (list_lookup_total_correct _ _ _ Hb), (list_lookup_total_correct _ _ _ Hl).
    change (raw !!! 0%nat) with (rawSample 0 st).
    case_match; [|auto].
    rewrite !list_lookup_insert_eq by assumption. auto.
  - destruct (updateBikePresence_body_other now raw 0 st 1) as [Hb1 Hl1]; [lia|].
    rewrite Hb in Hb1. rewrite Hl in Hl1.
    rewrite updateBikePresence_body_bikePresent, updateBikePresence_body_lastSwChangeMs.
    unfold presenceFlips.
    rewrite (list_lookup_total_correct _ _ _ Hb1), (list_lookup_total_correct _ _ _ Hl1).
    change (raw !!! 1%nat) with (rawSample 1 st).
    pose proof (lookup_lt_Some _ _ _ Hb1). pose proof (lookup_lt_Some _ _ _ Hl1).
    case_match; [|auto].
    rewrite !list_lookup_insert_eq by assumption. auto.
Qed.

Lemma rawSample_pins i st st' : pins st' = pins st -> rawSample i st' = rawSample i st.
Proof. unfold rawSample, readBikePresent, digitalRead. intros ->. reflexivity. Qed.

(** Once the accepted value agrees with the input, passes of the filter
    change neither the value nor the stamp as long as the input stays. *)
Lemma presenceTicks_stable i ds : forall st t,
  (i < 2)%nat ->
  bikePresent st !! i = Some (rawSample i st) ->
  lastSwChangeMs st !! i = Some t ->
  bikePresent (presenceTicks ds st) !! i = Some (rawSample i st) /\
  lastSwChangeMs (presenceTicks ds st) !! i = Some t /\
  pins (presenceTicks ds st) = pins st.
Proof.
  induction ds as [|d ds IH]; intros st t Hi Hb Hl; [cbn; auto|].
  cbn [presenceTicks foldl]. fold (presenceTicks ds (updateBikePresence (delay d st))).
  assert (Hp : pins (updateBikePresence (delay d st)) = pins st)
    by (rewrite updateBikePresence_pins; reflexivity).
  assert (Hraw : rawSample i (delay d st) = rawSample i st)
    by (apply rawSample_pins; reflexivity).
  destruct (updateBikePresence_rack (delay d st) i (rawSample i st) t Hi Hb Hl)
    as [Hb' Hl'].
  rewrite Hraw, Bool.eqb_reflx in Hb', Hl'. cbn [negb andb] in Hb', Hl'.
  rewrite <- (rawSample_pins i st _ Hp) in Hb'.
  destruct (IH _ t Hi Hb' Hl') as (H1 & H2 & H3).
  rewrite (rawSample_pins i st _ Hp) in H1. rewrite H3, Hp. auto.
Qed.

(** C2, as the sketch has it.  The filter is a lock-out: a raw sample that
    differs from the accepted value is taken over as soon as 60 ms (in
    32-bit [millis()] arithmetic) have passed since the last accepted change,
    however briefly the input has differed, and is ignored while fewer than
    60 ms have passed since then.  When it is taken over the stamp becomes
    the [millis()] of that pass, and while the input is held no further pass
    changes the value or the stamp: the value has changed exactly once.  The
    stamp is written on no other occasion. *)
Theorem presence_changes_after_lockout st i b last :
  (i < 2)%nat ->
  bikePresent st !! i = Some b ->
  lastSwChangeMs st !! i = Some last ->
  let st' := updateBikePresence st in
  (rawSample i st <> b -> SW_DEBOUNCE_MS <= usub (millis st) last ->
     bikePresent st' !! i = Some (rawSample i st) /\
     lastSwChangeMs st' !! i = Some (millis st) /\
     forall ds,
       bikePresent (presenceTicks ds st') !! i = Some (rawSample i st) /\
       lastSwChangeMs (presenceTicks ds st') !! i = Some (millis st)) /\
  (rawSample i st = b \/ usub (millis st) last < SW_DEBOUNCE_MS ->
     bikePresent st' !! i = Some b /\
     lastSwChangeMs st' !! i = Some last).
Proof.
  intros Hi Hb Hl st'. subst st'.
  destruct (updateBikePresence_rack st i b last Hi Hb Hl) as [Hb' Hl'].
  split.
  - intros Hraw Hold.
    assert (Hc : negb (Bool.eqb (rawSample i st) b) &&
                 (usub (millis st) last >=? SW_DEBOUNCE_MS) = true).
    { apply andb_true_intro. split.
      - destruct (rawSample i st), b; try reflexivity; congruence.
      - apply Z.geb_le. exact Hold. }
    rewrite Hc in Hb', Hl'. split; [exact Hb'|]. split; [exact Hl'|].
    intros ds.
    pose proof (updateBikePresence_pins st) as Hp.
    rewrite <- (rawSample_pins i st _ Hp) in Hb'.
    destruct (presenceTicks_stable i ds _ _ Hi Hb' Hl') as (H1 & H2 & _).
    rewrite (rawSample_pins i st _ Hp) in H1. auto.
  - intros Hno.
    assert (Hc : negb (Bool.eqb (rawSample i st) b) &&
                 (usub (millis st) last >=? SW_DEBOUNCE_MS) = false).
    { destruct Hno as [->|Hlt].
      - rewrite Bool.eqb_reflx. reflexivity.
      - apply andb_false_intro2. rewrite Z.geb_leb. apply Z.leb_gt. exact Hlt. }
    rewrite Hc in Hb', Hl'. auto.
Qed.

(** C2 as stated fails.  After boot the switch of rack 1 is open and the
    accepted value is "absent".  The switch closes at 2000 ms and the input
    is sampled 10 ms later: the accepted value is "present" at once, although
    the input has differed for 10 ms only. *)
Lemma short_presence_change_is_accepted :
  let st0 := setup (powerOn ∅ [] []) in
  let st1 := updateBikePresence (delay 250 st0) in
  let st2 := set_pins (<[SW1_PIN := LOW]> (pins st1)) st1 in
  let st3 := updateBikePresence (delay 10 st2) in
  clock st1 = 2000 /\
  rawSample 0 st1 = false /\ bikePresent st1 !! 0%nat = Some false /\
  rawSample 0 st2 = true /\
  clock st3 - clock st1 = 10 /\ 10 < SW_DEBOUNCE_MS /\
  bikePresent st3 !! 0%nat = Some true /\
  bikePresent st3 !! 0%nat <> bikePresent st1 !! 0%nat.
Proof. vm_compute. repeat split; congruence. Qed.

(** ** Tamper detection *)

Lemma alarmCount_app i es1 es2 :
  alarmCount i (es1 ++ es2) = (alarmCount i es1 + alarmCount i es2)%nat.
Proof. unfold alarmCount. rewrite List.filter_app, length_app. reflexivity. Qed.

Lemma alarmCount_posts i es : forallb isPost es = true -> alarmCount i es = 0%nat.
Proof.
  unfold alarmCount. induction es as [|e es IH]; [reflexivity|].
  cbn [forallb List.filter]. intros [He Hes]%andb_prop.
  destruct e; try discriminate. cbn. apply IH, Hes.
Qed.

Lemma sendViaPhoneGateway_trace number message st :
  exists posts, trace (sendViaPhoneGateway number message st).2 = posts ++ trace st /\
                forallb isPost posts = true.
Proof.
  unfold sendViaPhoneGateway.
  repeat case_match; try (exists []; split; reflexivity).
  eexists [_]. split; reflexivity.
Qed.

Lemma sendAlertSMS_trace i number message st :
  exists posts, trace (sendAlertSMS i number message st).2 = posts ++ trace st /\
                forallb isPost posts = true.
Proof.
  unfold sendAlertSMS. case_match; [exists []; split; reflexivity|].
  destruct (sendViaPhoneGateway_trace number message st) as (posts & Ht & Hp).
  destruct (sendViaPhoneGateway number message st) as [ok st1].
  exists posts. split; [|exact Hp]. destruct ok; exact Ht.
Qed.

Lemma trace_addLog m st : trace (addLog m st) = trace st.
Proof. unfold addLog. case_match; reflexivity. Qed.

Lemma alarm_of_other_rack i j :
  (i < 2)%nat -> (j < 2)%nat ->
  isTamperAlarm j (ELcd "ALERT TAMPER!" ("Rack " +:+ rackNo i)) = bool_decide (i = j).
Proof.
  intros Hi Hj.
  destruct i as [|[|i]]; [| |lia]; destruct j as [|[|j]]; try lia; reflexivity.
Qed.

(** The effects of the pass for one rack: none when the condition fails,
    otherwise possibly a POST, then the alarm on the LCD and the buzzer. *)
Lemma checkTamper_body_trace i st :
  exists new, trace (checkTamper_body i st) = new ++ trace st /\
    forall j, (i < 2)%nat -> (j < 2)%nat ->
      alarmCount j new = if tamperCond i st && bool_decide (i = j) then 1%nat else 0%nat.
Proof.
  unfold checkTamper_body. fold (tamperCond i st).
  destruct (tamperCond i st); [|exists []; split; [reflexivity|intros; reflexivity]].
  set (st1 := set_racks _ st).
  assert (Hcount : forall posts t j, (i < 2)%nat -> (j < 2)%nat ->
            forallb isPost posts = true ->
            alarmCount j ([EDigitalWrite t BUZZER_PIN HIGH;
                           ELcd "ALERT TAMPER!" ("Rack " +:+ rackNo i)] ++ posts) =
            if true && bool_decide (i = j) then 1%nat else 0%nat).
  { intros posts t j Hi Hj Hp. rewrite alarmCount_app, (alarmCount_posts _ _ Hp).
    unfold alarmCount. cbn [List.filter]. rewrite alarm_of_other_rack by assumption.
    cbn [isTamperAlarm andb]. case_bool_decide; reflexivity. }
  destruct (slen _ =? 11).
  - match goal with
    | |- context [sendAlertSMS ?a ?b ?c ?d] =>
        destruct (sendAlertSMS_trace a b c d) as (posts & Ht & Hp);
        destruct (sendAlertSMS a b c d) as [ok st2]
    end.
    cbn [snd] in Ht.
    exists ([EDigitalWrite (clock st2) BUZZER_PIN HIGH;
             ELcd "ALERT TAMPER!" ("Rack " +:+ rackNo i)] ++ posts).
    split; [|intros; apply Hcount; assumption].
    unfold buzzerOnFor, digitalWrite, lcd2. proj_simpl.
    rewrite trace_addLog. proj_simpl. rewrite Ht.
    unfold addLog. destruct (logCount _ <? _); reflexivity.
  - exists ([EDigitalWrite (clock st1) BUZZER_PIN HIGH;
             ELcd "ALERT TAMPER!" ("Rack " +:+ rackNo i)] ++ []).
    split; [|intros; apply Hcount; auto].
    unfold buzzerOnFor, digitalWrite, lcd2. proj_simpl.
    rewrite trace_addLog. proj_simpl.
    unfold addLog. destruct (logCount _ <? _); reflexivity.
Qed.

(** An SMS attempt touches the gateway script, the trace, the clock and the
    cooldown stamps, and nothing else; a log entry touches the ring only. *)
Lemma sendViaPhoneGateway_shape number message st :
  exists g t c,
    (sendViaPhoneGateway number message st).2 =
    set_clock c (set_trace t (set_gateway g st)).
Proof.
  unfold sendViaPhoneGateway, delay.
  repeat case_match; cbn [snd]; proj_simpl.
  1, 2: exists (gateway st), (trace st), (clock st); destruct st; reflexivity.
  - exists (tail (gateway st)), (trace st), (clock st); destruct st; reflexivity.
  - eexists (tail (gateway st)), (_ :: trace st), (clock st + _).
    destruct st; reflexivity.
Qed.

Lemma sendAlertSMS_shape i number message st :
  exists g t c l,
    (sendAlertSMS i number message st).2 =
    set_lastSmsMillis l (set_clock c (set_trace t (set_gateway g st))).
Proof.
  unfold sendAlertSMS. case_match.
  - exists (gateway st), (trace st), (clock st), (lastSmsMillis st).
    destruct st; reflexivity.
  - destruct (sendViaPhoneGateway_shape number message st) as (g & t & c & Hs).
    destruct (sendViaPhoneGateway number message st) as [ok st1].
    cbn [snd] in *. subst st1. exists g, t, c.
    destruct ok; [eexists; reflexivity|].
    exists (lastSmsMillis st). destruct st; reflexivity.
Qed.

Lemma addLog_shape m st :
  exists l h c, addLog m st = set_logCount c (set_logHead h (set_logs l st)).
Proof.
  unfold addLog. case_match; [eexists _, _, _; reflexivity|].
  exists (<[Z.to_nat (logHead st) := mkLogEntry (millis st) m]> (logs st)),
    (Z.rem (logHead st + 1) LOG_MAX), (logCount st).
  destruct st; reflexivity.
Qed.

Lemma checkTamper_body_presence i st :
  bikePresent (checkTamper_body i st) = bikePresent st /\
  lastBikePresent (checkTamper_body i st) =
    <[i := bikePresent st !!! i]> (lastBikePresent st).
Proof.
  unfold checkTamper_body. fold (tamperCond i st).
  destruct (tamperCond i st); [|split; reflexivity].
  set (st1 := set_racks _ st).
  assert (Hst1 : bikePresent st1 = bikePresent st /\
                 lastBikePresent st1 = lastBikePresent st) by (split; reflexivity).
  destruct Hst1 as [Hb Hl]. rewrite <- Hb, <- Hl. clearbody st1.
  destruct (slen _ =? 11).
  - match goal with
    | |- context [sendAlertSMS ?a ?b ?c ?d] =>
        destruct (sendAlertSMS_shape a b c d) as (g & t & c' & l & Hs);
        destruct (sendAlertSMS a b c d) as [ok st2]
    end.
    cbn [snd] in Hs. subst st2.
    match goal with
    | |- context [addLog ?m ?s] =>
        destruct (addLog_shape m s) as (ll & h & cc & ->)
    end.
    unfold buzzerOnFor, digitalWrite, lcd2. proj_simpl. split; reflexivity.
  - match goal with
    | |- context [addLog ?m ?s] =>
        destruct (addLog_shape m s) as (ll & h & cc & ->)
    end.
    unfold buzzerOnFor, digitalWrite, lcd2. proj_simpl. split; reflexivity.
Qed.

Lemma tamperCond_after_other i j st :
  i <> j -> tamperCond i (checkTamper_body j st) = tamperCond i st.
Proof.
  intros Hne. unfold tamperCond.
  destruct (checkTamper_body_presence j st) as [-> ->].
  rewrite racks_checkTamper_body.
  rewrite list_lookup_total_insert_ne by auto.
  destruct (tamperCond j st); [|reflexivity].
  rewrite list_lookup_total_alter_ne by auto. reflexivity.
Qed.

Lemma checkTamper_body_latch i st r :
  racks st !! i = Some r ->
  racks (checkTamper_body i st) !! i =
    Some (if tamperCond i st then set_tamperLatched true r else r).
Proof.
  intros Hr. rewrite racks_checkTamper_body.
  destruct (tamperCond i st); [|exact Hr].
  rewrite list_lookup_alter_eq, Hr. reflexivity.
Qed.

Lemma checkTamper_body_racks_other i j st :
  i <> j -> racks (checkTamper_body j st) !! i = racks st !! i.
Proof.
  intros Hne. rewrite racks_checkTamper_body.
  destruct (tamperCond j st); [|reflexivity].
  apply list_lookup_alter_ne. auto.
Qed.

(** C3.  In one call of [checkTamper] the alarm of a rack is raised once if
    the rack's bike was present at the previous call and is absent now, the
    rack is locked and its latch is not set, and not at all otherwise.  When
    it is raised the latch is set; with the latch set -- so also at a second
    removal while the rack is still locked -- no alarm is raised. *)
Theorem checkTamper_raises_alarm_iff st i r :
  (i < 2)%nat ->
  racks st !! i = Some r ->
  exists new,
    trace (checkTamper st) = new ++ trace st /\
    alarmCount i new = (if tamperCond i st then 1%nat else 0%nat) /\
    ((0 < alarmCount i new)%nat <->
       lastBikePresent st !!! i = true /\ bikePresent st !!! i = false /\
       locked r = true /\ tamperLatched r = false) /\
    (tamperCond i st = true ->
       exists r', racks (checkTamper st) !! i = Some r' /\ tamperLatched r' = true) /\
    (tamperLatched r = true -> alarmCount i new = 0%nat).
Proof.
  intros Hi Hr.
  assert (Hcond : tamperCond i st = true <->
            lastBikePresent st !!! i = true /\ bikePresent st !!! i = false /\
            locked r = true /\ tamperLatched r = false).
  { unfold tamperCond. rewrite (list_lookup_total_correct _ _ _ Hr).
    rewrite !andb_true_iff, !negb_true_iff. tauto. }
  unfold checkTamper, for2. cbn [seq foldl].
  destruct (checkTamper_body_trace 0 st) as (new0 & Ht0 & Hc0).
  destruct (checkTamper_body_trace 1 (checkTamper_body 0 st)) as (new1 & Ht1 & Hc1).
  exists (new1 ++ new0).
  assert (Hcount : alarmCount i (new1 ++ new0) =
                   if tamperCond i st then 1%nat else 0%nat).
  { rewrite alarmCount_app, Hc0, Hc1 by lia.
    destruct i as [|[|i]]; [| |lia].
    - rewrite (bool_decide_eq_false_2 (1 = 0)%nat) by lia.
      rewrite (bool_decide_eq_true_2 (0 = 0)%nat) by lia.
      rewrite andb_false_r, andb_true_r. reflexivity.
    - rewrite tamperCond_after_other by lia.
      rewrite (bool_decide_eq_false_2 (0 = 1)%nat) by lia.
      rewrite (bool_decide_eq_true_2 (1 = 1)%nat) by lia.
      rewrite andb_false_r, andb_true_r. destruct (tamperCond 1 st); reflexivity. }
  split; [rewrite Ht1, Ht0, app_assoc; reflexivity|].
  split; [exact Hcount|]. split; [|split].
  - rewrite Hcount, <- Hcond. destruct (tamperCond i st); split; intros; try lia; auto.
  - intros Hc. destruct i as [|[|i]]; [| |lia].
    + rewrite checkTamper_body_racks_other by lia.
      rewrite (checkTamper_body_latch 0 st r Hr), Hc. eexists; split; reflexivity.
    + assert (Hr1 : racks (checkTamper_body 0 st) !! 1%nat = Some r)
        by (rewrite checkTamper_body_racks_other by lia; exact Hr).
      rewrite (checkTamper_body_latch 1 _ r Hr1), tamperCond_after_other, Hc by lia.
      eexists; split; reflexivity.
  - intros Hl. rewrite Hcount.
    destruct (tamperCond i st); [|reflexivity].
    destruct (proj1 Hcond eq_refl) as (_ & _ & _ & Hc). congruence.
Qed.

(** ** Keypad session: entering the number *)

Lemma substring_all_but_last s : forall a,
  exists c, String a s = substring 0 (String.length s) (String a s) +:+ str1 c.
Proof.
  induction s as [|b s IH]; intros a.
  - exists a. reflexivity.
  - destruct (IH b) as [c Hc]. exists c.
    change (String a (String b s) =
            String a (substring 0 (String.length s) (String b s) +:+ str1 c)).
    f_equal. exact Hc.
Qed.

Lemma removeFrom_last s :
  s <> EmptyString ->
  exists c, s = removeFrom (String.length s - 1) s +:+ str1 c.
Proof.
  unfold removeFrom. destruct s as [|a s]; [congruence|]. intros _.
  cbn [String.length Nat.sub]. rewrite Nat.sub_0_r.
  apply substring_all_but_last.
Qed.

Lemma slen_pos s : s <> EmptyString -> (slen s >? 0) = true.
Proof.
  destruct s; [congruence|]. intros _. unfold slen. cbn [String.length].
  apply Z.gtb_lt. lia.
Qed.

Lemma isDigit_not_control k : isDigit k = true -> k <> zero /\ k <> "*"%char /\ k <> "#"%char.
Proof. intros H. repeat split; intros ->; discriminate. Qed.

Section EnterNumber.
Variables (st : Sys) (k : ascii) (rest : list ascii).
Hypothesis Hkey : keypadRx st = k :: rest.
Hypothesis Hstate : uiState st = UI_ENTER_NUMBER.

Let st0 := set_keypadRx rest st.

Lemma enterNumber_digit :
  isDigit k = true ->
  handleSelfServeKeypad st =
  uiShowEnterNum (if slen (uiNum st) <? 11
                  then set_uiNum (uiNum st +:+ str1 k) st0 else st0).
Proof.
  intros Hd. destruct (isDigit_not_control k Hd) as (Hz & _).
  unfold handleSelfServeKeypad, readRemoteKey. rewrite Hkey.
  apply Ascii.eqb_neq in Hz. rewrite Hz. fold st0.
  change (uiState st0) with (uiState st). rewrite Hstate, Hd.
  reflexivity.
Qed.

Lemma enterNumber_back :
  k = "*"%char ->
  handleSelfServeKeypad st =
  if slen (uiNum st) >? 0
  then uiShowEnterNum (set_uiNum (removeFrom (String.length (uiNum st) - 1) (uiNum st)) st0)
  else resetUi st0.
Proof.
  intros ->. unfold handleSelfServeKeypad, readRemoteKey. rewrite Hkey.
  fold st0. change (uiState st0) with (uiState st). rewrite Hstate.
  reflexivity.
Qed.

Lemma enterNumber_confirm :
  k = "#"%char ->
  handleSelfServeKeypad st =
  if negb (slen (uiNum st) =? 11) || negb (digitsOnly (uiNum st)) then
    uiShowEnterNum (delay 900 (lcd2 "Invalid number" "Need 11 digits" st0))
  else
    let sel := Z.to_nat (uiSelectedRack st) in
    let st1 := set_racks (alter (set_ownerNumber (uiNum st)) sel (racks st)) st0 in
    let st2 := if slen (ownerName (racks st1 !!! sel)) =? 0
               then set_racks (alter (set_ownerName "Self-Serve") sel (racks st1)) st1
               else st1 in
    let st3 := set_lastEvent ("Self-serve set # (Rack " +:+
                              itoa (uiSelectedRack st + 1) +:+ ")") st2 in
    let st4 := addLog ("SELF-SERVE Rack " +:+ itoa (uiSelectedRack st + 1) +:+
                       " Number " +:+ maskNumber (uiNum st)) st3 in
    uiShowWaitRFID (set_uiState UI_WAIT_RFID_LOCK st4).
Proof.
  intros ->. unfold handleSelfServeKeypad, readRemoteKey. rewrite Hkey.
  fold st0. change (uiState st0) with (uiState st). rewrite Hstate.
  change (uiNum st0) with (uiNum st).
  change (uiSelectedRack st0) with (uiSelectedRack st).
  change (racks st0) with (racks st).
  destruct (negb (slen (uiNum st) =? 11) || negb (digitsOnly (uiNum st)));
    [reflexivity|].
  cbv zeta. destruct (slen _ =? 0); reflexivity.
Qed.

Lemma alter_as_insert {A} (f : A -> A) (l : list A) i x :
  l !! i = Some x -> alter f i l = <[i := f x]> l.
Proof.
  intros Hx. rewrite list_insert_alter. apply list_alter_ext; [|reflexivity].
  intros y Hy. congruence.
Qed.

Lemma enterNumber_confirm_valid r :
  k = "#"%char ->
  slen (uiNum st) = 11 ->
  digitsOnly (uiNum st) = true ->
  racks st !! Z.to_nat (uiSelectedRack st) = Some r ->
  racks (handleSelfServeKeypad st) =
    <[Z.to_nat (uiSelectedRack st) :=
        mkRack (if slen (ownerName r) =? 0 then "Self-Serve" else ownerName r)
               (uiNum st) (locked r) (tagUid r) (tamperLatched r)]> (racks st) /\
  uiState (handleSelfServeKeypad st) = UI_WAIT_RFID_LOCK /\
  uiNum (handleSelfServeKeypad st) = uiNum st /\
  uiSelectedRack (handleSelfServeKeypad st) = uiSelectedRack st.
Proof.
  intros Hk Hlen Hdig Hr. rewrite (enterNumber_confirm Hk), Hlen, Hdig.
  cbn [Z.eqb Pos.eqb negb orb]. cbv zeta.
  set (sel := Z.to_nat (uiSelectedRack st)) in *.
  set (st1 := set_racks _ st0).
  assert (Hr1 : racks st1 !!! sel = set_ownerNumber (uiNum st) r).
  { apply list_lookup_total_correct. unfold st1. proj_simpl.
    rewrite list_lookup_alter_eq. fold sel. change (racks st0) with (racks st).
    rewrite Hr. reflexivity. }
  rewrite Hr1. cbn [ownerName set_ownerNumber].
  unfold uiShowWaitRFID, lcd2.
  destruct (addLog_shape ("SELF-SERVE Rack " +:+ itoa (uiSelectedRack st + 1) +:+
                          " Number " +:+ maskNumber (uiNum st))
              (set_lastEvent ("Self-serve set # (Rack " +:+
                 itoa (uiSelectedRack st + 1) +:+ ")")
                 (if slen (ownerName r) =? 0
                  then set_racks (alter (set_ownerName "Self-Serve") sel (racks st1)) st1
                  else st1))) as (l & h & c & ->).
  destruct (slen (ownerName r) =? 0); unfold st1, st0; proj_simpl;
    repeat split; try reflexivity.
  - rewrite list_alter_alter_eq, (alter_as_insert _ _ _ _ Hr). reflexivity.
  - rewrite (alter_as_insert _ _ _ _ Hr). reflexivity.
Qed.

End EnterNumber.

(** C8.  The keys of the EnteringNumber phase.  A digit is appended while
    the buffer holds fewer than 11 characters and dropped otherwise; "*"
    removes the last character of a non-empty buffer and keeps the phase,
    and on an empty buffer resets the session to Idle; "#" with a buffer
    that is not 11 digits changes neither phase nor buffer nor racks; "#"
    with 11 digits stores the buffer as the owner number of the selected
    rack, names the owner "Self-Serve" when no name was set, and moves to
    the phase that waits for the RFID tag. *)
Theorem enterNumber_key_handling st k rest :
  keypadRx st = k :: rest ->
  uiState st = UI_ENTER_NUMBER ->
  let st' := handleSelfServeKeypad st in
  (isDigit k = true ->
     uiNum st' = (if slen (uiNum st) <? 11 then uiNum st +:+ str1 k else uiNum st) /\
     uiState st' = UI_ENTER_NUMBER /\ racks st' = racks st) /\
  (k = "*"%char -> uiNum st <> EmptyString ->
     (exists c, uiNum st = uiNum st' +:+ str1 c) /\
     uiState st' = UI_ENTER_NUMBER /\ racks st' = racks st) /\
  (k = "*"%char -> uiNum st = EmptyString ->
     uiState st' = UI_IDLE /\ uiSelectedRack st' = -1 /\ uiNum st' = EmptyString) /\
  (k = "#"%char -> slen (uiNum st) <> 11 \/ digitsOnly (uiNum st) = false ->
     uiState st' = UI_ENTER_NUMBER /\ uiNum st' = uiNum st /\
     uiSelectedRack st' = uiSelectedRack st /\ racks st' = racks st) /\
  (k = "#"%char -> slen (uiNum st) = 11 -> digitsOnly (uiNum st) = true ->
     forall r, racks st !! Z.to_nat (uiSelectedRack st) = Some r ->
       racks st' =
         <[Z.to_nat (uiSelectedRack st) :=
             mkRack (if slen (ownerName r) =? 0 then "Self-Serve" else ownerName r)
                    (uiNum st) (locked r) (tagUid r) (tamperLatched r)]> (racks st) /\
       uiState st' = UI_WAIT_RFID_LOCK).
Proof.
  intros Hkey Hstate st'. subst st'. repeat apply conj.
  - intros Hd. rewrite (enterNumber_digit st k rest Hkey Hstate Hd).
    destruct (slen (uiNum st) <? 11); repeat split; try reflexivity; exact Hstate.
  - intros Hk Hne. rewrite (enterNumber_back st k rest Hkey Hstate Hk).
    rewrite (slen_pos _ Hne). unfold uiShowEnterNum, lcd2. proj_simpl.
    repeat split; [apply removeFrom_last, Hne|exact Hstate].
  - intros Hk Hempty. rewrite (enterNumber_back st k rest Hkey Hstate Hk).
    rewrite Hempty. repeat split.
  - intros Hk Hbad. rewrite (enterNumber_confirm st k rest Hkey Hstate Hk).
    assert (Hc : negb (slen (uiNum st) =? 11) || negb (digitsOnly (uiNum st)) = true).
    { destruct Hbad as [Hl| ->]; [|apply orb_true_r].
      apply Z.eqb_neq in Hl. rewrite Hl. reflexivity. }
    rewrite Hc. repeat split. exact Hstate.
  - intros Hk Hlen Hdig r Hr.
    destruct (enterNumber_confirm_valid st k rest Hkey Hstate r Hk Hlen Hdig Hr)
      as (H1 & H2 & _). split; assumption.
Qed.

(** ** Event log *)

(** The [while] loop of [logsJson] ends with the index brought into range. *)
Lemma wrapNeg_spec fuel : forall idx,
  - idx <= Z.of_nat fuel ->
  wrapNeg fuel idx = if idx <? 0 then idx mod LOG_MAX else idx.
Proof.
  unfold LOG_MAX.
  induction fuel as [|fuel IH]; intros idx Hf; cbn [wrapNeg];
    destruct (idx <? 0) eqn:Hneg; try reflexivity.
  - apply Z.ltb_lt in Hneg. lia.
  - apply Z.ltb_lt in Hneg. rewrite IH by (unfold LOG_MAX; lia). unfold LOG_MAX.
    destruct (idx + 80 <? 0) eqn:Hneg'.
    + rewrite <- (Z.mod_add idx 1 80) by lia. reflexivity.
    + apply Z.ltb_ge in Hneg'.
      rewrite <- (Z.mod_add idx 1 80) by lia.
      rewrite Z.mod_small by lia. lia.
Qed.

Lemma logSlot_mod st i : logSlot st i = (logHead st - 1 - i) mod LOG_MAX.
Proof.
  unfold logSlot. rewrite wrapNeg_spec by lia. unfold LOG_MAX.
  destruct (logHead st - 1 - i <? 0) eqn:Hneg.
  - rewrite Z.rem_mod_nonneg by (try apply Z.mod_pos_bound; lia).
    apply Z.mod_mod. lia.
  - apply Z.ltb_ge in Hneg. apply Z.rem_mod_nonneg; lia.
Qed.

Lemma logRead_length st : 0 <= logCount st -> length (logRead st) = Z.to_nat (logCount st).
Proof. intros H. unfold logRead. rewrite length_fmap, length_seqZ. reflexivity. Qed.

Section AddLog.
Variables (message : string) (st : Sys).
Hypothesis Hwf : logWf st.

Lemma addLog_logs :
  logs (addLog message st) =
  <[Z.to_nat (logHead st) := mkLogEntry (millis st) message]> (logs st).
Proof. unfold addLog. case_match; reflexivity. Qed.

Lemma addLog_logHead : logHead (addLog message st) = (logHead st + 1) mod LOG_MAX.
Proof.
  destruct Hwf as (_ & Hh & _).
  unfold addLog. case_match; proj_simpl; apply Z.rem_mod_nonneg; unfold LOG_MAX in *; lia.
Qed.

Lemma addLog_logCount :
  logCount (addLog message st) = Z.min (logCount st + 1) LOG_MAX.
Proof.
  unfold addLog. case_match; proj_simpl.
  - apply Z.ltb_lt in H. lia.
  - apply Z.ltb_ge in H. destruct Hwf as (_ & _ & Hc). lia.
Qed.

Lemma addLog_logWf : logWf (addLog message st).
Proof.
  destruct Hwf as (Hl & Hh & Hc). unfold logWf.
  rewrite addLog_logs, addLog_logHead, addLog_logCount, length_insert.
  unfold LOG_MAX in *. repeat split; try lia.
  - apply Z.mod_pos_bound. lia.
  - apply Z.mod_pos_bound. lia.
Qed.

Lemma addLog_clock : clock (addLog message st) = clock st.
Proof. unfold addLog. case_match; reflexivity. Qed.
End AddLog.

Lemma take_seqZ k n : 0 <= n -> take k (seqZ 0 n) = seqZ 0 (Z.min (Z.of_nat k) n).
Proof.
  intros Hn. destruct (Z.le_gt_cases n (Z.of_nat k)) as [Hle|Hgt].
  - rewrite Z.min_r by lia. apply take_ge. rewrite length_seqZ. lia.
  - rewrite Z.min_l by lia.
    replace n with (Z.of_nat k + (n - Z.of_nat k)) at 1 by lia.
    rewrite seqZ_app by lia. apply take_app_length'.
    rewrite length_seqZ. lia.
Qed.

(** Appending puts the new entry in front of what is read and drops what
    no longer fits into 80 entries. *)
Lemma logRead_addLog message st :
  logWf st ->
  logRead (addLog message st) =
  take (Z.to_nat LOG_MAX) (mkLogEntry (millis st) message :: logRead st).
Proof.
  intros Hwf. pose proof Hwf as (Hlen & Hh & Hc).
  unfold logRead. rewrite (addLog_logCount _ _ Hwf).
  assert (Hslot : forall i, logSlot (addLog message st) i = (logHead st - i) mod LOG_MAX).
  { intros i. rewrite logSlot_mod, (addLog_logHead _ _ Hwf).
    replace ((logHead st + 1) mod LOG_MAX - 1 - i)
      with ((logHead st + 1) mod LOG_MAX - (1 + i)) by lia.
    rewrite Zminus_mod_idemp_l. f_equal. lia. }
  unfold LOG_MAX in *. change (Z.to_nat 80) with 80%nat in *.
  rewrite seqZ_cons by lia. cbn [fmap list_fmap take]. f_equal.
  - rewrite Hslot, addLog_logs, Z.sub_0_r, Z.mod_small by lia.
    apply list_lookup_total_insert_eq. lia.
  - rewrite <- fmap_take, take_seqZ by lia.
    change (Z.succ 0) with (1 + 0). rewrite <- fmap_add_seqZ, <- list_fmap_compose.
    replace (Z.pred (Z.min (logCount st + 1) 80)) with (Z.min (Z.of_nat 79) (logCount st))
      by lia.
    apply list_fmap_ext. intros j x [-> Hx]%lookup_seqZ.
    cbn [compose]. rewrite Hslot, logSlot_mod, addLog_logs.
    replace (logHead st - (1 + (0 + Z.of_nat j))) with (logHead st - 1 - (0 + Z.of_nat j))
      by lia.
    apply list_lookup_total_insert_ne.
    intros Heq. apply Z2Nat.inj in Heq; try lia.
    + unfold LOG_MAX in Heq.
      pose proof (Z.div_mod (logHead st - 1 - (0 + Z.of_nat j)) 80 ltac:(lia)).
      lia.
    + apply Z.mod_pos_bound. reflexivity.
Qed.

Lemma appendAll_logWf es : forall st, logWf st -> logWf (appendAll es st).
Proof.
  induction es as [|e es IH]; intros st Hwf; [exact Hwf|].
  cbn [appendAll foldl]. apply IH. apply addLog_logWf. exact Hwf.
Qed.

Lemma logRead_appendAll es : forall st,
  logWf st ->
  logRead (appendAll es st) =
  take (Z.to_nat LOG_MAX) (reverse (stamped (clock st) es) ++ logRead st).
Proof.
  induction es as [|e es IH]; intros st Hwf.
  - cbn. symmetry. apply take_ge. rewrite logRead_length by apply Hwf.
    destruct Hwf as (_ & _ & Hc). unfold LOG_MAX in *. lia.
  - cbn [appendAll foldl stamped].
    change (foldl _ ?s es) with (appendAll es s).
    rewrite IH by (apply addLog_logWf; exact Hwf).
    rewrite addLog_clock, logRead_addLog by exact Hwf.
    rewrite reverse_cons, <- app_assoc. cbn [app].
    change (clock (delay e.1 st)) with (clock st + e.1).
    change (millis (delay e.1 st)) with (u32 (clock st + e.1)).
    change (logRead (delay e.1 st)) with (logRead st).
    set (new := reverse _). set (x := mkLogEntry _ _). set (old := logRead st).
    set (n := Z.to_nat LOG_MAX).
    rewrite !take_app.
    destruct (decide (n - length new = 0)%nat) as [->|Hpos]; [reflexivity|].
    f_equal. rewrite take_take. f_equal. lia.
Qed.

Lemma append_cons a s t : String a s +:+ t = String a (s +:+ t).
Proof. reflexivity. Qed.

Lemma append_assoc s1 s2 s3 : (s1 +:+ s2) +:+ s3 = s1 +:+ s2 +:+ s3.
Proof.
  induction s1 as [|a s1 IH]; [reflexivity|].
  rewrite !append_cons, IH. reflexivity.
Qed.

Lemma joinComma_cons2 x y l :
  joinComma (x :: y :: l) = x +:+ "," +:+ joinComma (y :: l).
Proof. reflexivity. Qed.

Lemma logsJson_fold st idxs : forall acc x,
  Forall (fun i => i <> 0) idxs ->
  foldl (logsJson_body st) (acc +:+ x) idxs =
  acc +:+ joinComma (x :: ((fun i => logEntryJson (logs st !!! Z.to_nat (logSlot st i))) <$> idxs)).
Proof.
  induction idxs as [|i idxs IH]; intros acc x Hall; [reflexivity|].
  apply Forall_cons in Hall as [Hi Hall].
  cbn [foldl fmap list_fmap]. unfold logsJson_body at 2.
  apply Z.eqb_neq in Hi. rewrite Hi. cbn [negb].
  rewrite (append_assoc acc x ","), IH by exact Hall.
  rewrite joinComma_cons2, !append_assoc. reflexivity.
Qed.

(** The JSON array of [logsJson] lists exactly the entries of [logRead], in
    that order. *)
Lemma logsJson_logRead st :
  logsJson st = "[" +:+ joinComma (logEntryJson <$> logRead st) +:+ "]".
Proof.
  unfold logsJson, logRead.
  destruct (Z.le_gt_cases (logCount st) 0) as [Hle|Hgt].
  - rewrite seqZ_nil by exact Hle. reflexivity.
  - rewrite seqZ_cons by lia. cbn [foldl fmap list_fmap].
    unfold logsJson_body at 2. cbn [Z.eqb negb].
    rewrite logsJson_fold.
    + rewrite <- list_fmap_compose, append_assoc. reflexivity.
    + apply Forall_seqZ. intros j Hj. lia.
Qed.

Lemma replaceChar_plain c by_ s : hasChar c s = false -> replaceChar c by_ s = s.
Proof.
  induction s as [|a s IH]; [reflexivity|]. cbn [hasChar replaceChar].
  intros H. apply orb_false_iff in H as [Ha Hs]. rewrite Ha, IH by exact Hs.
  reflexivity.
Qed.

Lemma logEntryJson_plain e : plainText (msg e) = true -> logEntryJson e = entryText e.
Proof.
  unfold plainText. intros H.
  apply andb_true_iff in H as [H H3]. apply andb_true_iff in H as [H1 H2].
  apply negb_true_iff in H1, H2, H3.
  unfold logEntryJson, entryText. cbv zeta.
  rewrite (replaceChar_plain BSLASH _ _ H1), (replaceChar_plain DQUOTE _ _ H2),
    (replaceChar_plain NEWLINE _ _ H3).
  unfold DQ, str1. rewrite !append_cons. rewrite <- !append_assoc.
  rewrite ?append_cons. reflexivity.
Qed.

Lemma stamped_plain es : forall c,
  forallb (fun e => plainText e.2) es = true ->
  Forall (fun e => plainText (msg e) = true) (stamped c es).
Proof.
  induction es as [|e es IH]; intros c H; [constructor|].
  cbn [forallb] in H. apply andb_true_iff in H as [He Hes].
  cbn [stamped]. constructor; [exact He|apply IH, Hes].
Qed.

(** C9.  The ring never reads back more than 80 entries.  Whatever it held
    before, after 81 appends the status read lists the last 80 of them,
    newest first, and nothing else: the first of the 81 and all older
    entries are gone.  The answer carries each entry written out -- its
    uptime and, for a message without backslash, double quote and line
    feed, the message as it was logged -- between brackets and separated by
    commas. *)
Theorem log_ring_keeps_newest_80 st es :
  logWf st ->
  (length (logRead (appendAll es st)) <= 80)%nat /\
  logCount (appendAll es st) <= LOG_MAX /\
  logsJson (appendAll es st) =
    "[" +:+ joinComma (logEntryJson <$> logRead (appendAll es st)) +:+ "]" /\
  (length es = 81%nat ->
     logRead (appendAll es st) = reverse (drop 1 (stamped (clock st) es))) /\
  (forall e, plainText (msg e) = true -> logEntryJson e = entryText e) /\
  (length es = 81%nat -> forallb (fun e => plainText e.2) es = true ->
     logsJson (appendAll es st) =
       "[" +:+ joinComma (entryText <$> reverse (drop 1 (stamped (clock st) es)))
       +:+ "]").
Proof.
  intros Hwf. pose proof (appendAll_logWf es st Hwf) as Hwf'.
  assert (H81 : length es = 81%nat ->
     logRead (appendAll es st) = reverse (drop 1 (stamped (clock st) es))).
  { intros Hlen. rewrite logRead_appendAll by exact Hwf.
    assert (Hs : forall c, length (stamped c es) = length es).
    { clear. induction es as [|e es IH]; intros c; cbn; [reflexivity|].
      rewrite IH. reflexivity. }
    change (Z.to_nat LOG_MAX) with 80%nat.
    rewrite take_app_le by (rewrite length_reverse, Hs; lia).
    rewrite <- (reverse_involutive (take _ _)), reverse_take.
    rewrite reverse_involutive, length_reverse, Hs, Hlen. reflexivity. }
  split; [|split; [|split; [|split; [|split]]]].
  - rewrite logRead_appendAll by exact Hwf.
    rewrite length_take. change (Z.to_nat LOG_MAX) with 80%nat. lia.
  - apply Hwf'.
  - apply logsJson_logRead.
  - exact H81.
  - exact logEntryJson_plain.
  - intros Hlen Hplain. rewrite logsJson_logRead, (H81 Hlen).
    apply (f_equal (fun l => "[" +:+ joinComma l +:+ "]")).
    apply Forall_fmap_ext_1.
    apply Forall_reverse, Forall_drop.
    eapply Forall_impl; [apply stamped_plain, Hplain|].
    intros e He. apply logEntryJson_plain, He.
Qed.

(** ** Clock, cooldown stamps and log ring in the reachable states *)

Lemma sysInv_view st st' :
  clock st' = clock st -> gateway st' = gateway st ->
  lastSmsMillis st' = lastSmsMillis st ->
  logs st' = logs st -> logHead st' = logHead st -> logCount st' = logCount st ->
  sysInv st -> sysInv st'.
Proof.
  unfold sysInv, cooldownInv, logWf.
  intros -> -> -> -> -> ->. auto.
Qed.

Lemma sysInv_delay d st : 0 <= d -> sysInv st -> sysInv (delay d st).
Proof.
  unfold sysInv, cooldownInv, logWf, delay. proj_simpl.
  intros Hd ((Hc & Hg & Hl & H0) & Hlog). repeat split; try tauto; try lia.
  intros Hlt. apply H0. lia.
Qed.

Lemma sysInv_addLog m st : sysInv st -> sysInv (addLog m st).
Proof.
  intros [HK Hlog]. split; [|apply addLog_logWf, Hlog].
  destruct (addLog_shape m st) as (l & h & c & ->). exact HK.
Qed.

Lemma sendViaPhoneGateway_sysInv number message st :
  sysInv st ->
  sysInv (sendViaPhoneGateway number message st).2 /\
  clock st <= clock (sendViaPhoneGateway number message st).2.
Proof.
  intros Hinv. pose proof Hinv as ((Hc & Hg & Hl & H0) & Hlog).
  unfold sendViaPhoneGateway.
  destruct (negb (slen number =? 11)); [split; [exact Hinv|reflexivity]|].
  destruct (negb (wifiIsAP st)); [split; [exact Hinv|reflexivity]|].
  assert (Hr : 0 <= took (default noReply (head (gateway st)))).
  { destruct (gateway st) as [|r g]; [cbn; lia|].
    apply Forall_cons in Hg as [Hr _]. exact Hr. }
  assert (Htail : Forall (fun r => 0 <= took r) (tail (gateway st))).
  { destruct (gateway st) as [|r g]; [constructor|].
    apply Forall_cons in Hg as [_ Hg]. exact Hg. }
  set (st1 := set_gateway _ st).
  assert (Hinv1 : sysInv st1)
    by (unfold sysInv, cooldownInv, st1; proj_simpl; split; [tauto|exact Hlog]).
  destruct (negb (beginOk _)); [split; [exact Hinv1|reflexivity]|].
  cbn [snd]. split.
  - apply sysInv_delay; [exact Hr|].
    apply (sysInv_view st1); [reflexivity..|exact Hinv1].
  - unfold delay, st1. proj_simpl. lia.
Qed.

(** While the clock is below 30000 ms the stamps are 0 and the gate of
    [sendAlertSMS] is shut. *)
Lemma sendAlertSMS_gate_shut i number message st :
  (i < 2)%nat -> cooldownInv st -> clock st < SMS_COOLDOWN_MS ->
  sendAlertSMS i number message st = (false, st).
Proof.
  intros Hi (Hc & _ & _ & H0) Hlt. unfold sendAlertSMS.
  rewrite (H0 Hlt).
  assert (Hz : [0; 0] !!! i = 0) by (destruct i as [|[|i]]; [reflexivity..|lia]).
  rewrite Hz. unfold usub, millis.
  unfold SMS_COOLDOWN_MS, u32, ULONG_MOD in *.
  rewrite Z.sub_0_r, Z.mod_mod by lia. rewrite Z.mod_small by lia.
  destruct (Z.ltb_spec (clock st) 30000); [reflexivity|lia].
Qed.

Lemma sendAlertSMS_sysInv i number message st :
  (i < 2)%nat -> sysInv st -> sysInv (sendAlertSMS i number message st).2.
Proof.
  intros Hi Hinv.
  destruct (Z.lt_ge_cases (clock st) SMS_COOLDOWN_MS) as [Hlt|Hge].
  - rewrite sendAlertSMS_gate_shut by (try apply Hinv; assumption). exact Hinv.
  - unfold sendAlertSMS. case_match; [exact Hinv|].
    destruct (sendViaPhoneGateway_sysInv number message st Hinv) as [Hinv1 Hclk].
    destruct (sendViaPhoneGateway number message st) as [ok st1]. cbn [snd] in *.
    destruct ok; [|exact Hinv1].
    destruct Hinv1 as ((Hc & Hg & Hl & H0) & Hlog).
    unfold sysInv, cooldownInv. proj_simpl.
    rewrite length_insert. split; [|exact Hlog]. repeat split; try tauto.
    intros Hlt. lia.
Qed.

(** One step of a chain of calls: [delay], [addLog], or a call that leaves
    clock, gateway, stamps and ring alone (stated and checked for an
    arbitrary state in place of the argument, which keeps the check small). *)
Ltac inv_step :=
  lazymatch goal with
  | |- sysInv (delay _ _) => apply sysInv_delay; [lia|]
  | |- sysInv (addLog _ _) => apply sysInv_addLog
  | |- sysInv (?f ?s) =>
      let Hv := fresh "Hview" in
      assert (Hv : forall s', sysInv s' -> sysInv (f s'))
        by (let s' := fresh in let Hs' := fresh in
            intros s' Hs'; apply (sysInv_view s'); [reflexivity..|exact Hs']);
      apply Hv; clear Hv
  end.

Ltac inv_steps := repeat first [assumption | inv_step].

Lemma sysInv_startMotionForRack rack target st :
  sysInv st -> sysInv (startMotionForRack rack target st).
Proof.
  intros H. unfold startMotionForRack, rackSetExtend, rackSetRetract, rackSetStop.
  destruct target; case_decide; inv_steps.
Qed.

Lemma sysInv_setLocked i b st : sysInv st -> sysInv (setLocked i b st).
Proof.
  intros H. unfold setLocked. apply sysInv_startMotionForRack.
  destruct b; inv_steps.
Qed.

Lemma sysInv_toggleLock i st : sysInv st -> sysInv (toggleLock i st).
Proof. apply sysInv_setLocked. Qed.

Lemma sysInv_updateBikePresence st : sysInv st -> sysInv (updateBikePresence st).
Proof.
  intros H. unfold updateBikePresence, for2. cbn [seq foldl].
  unfold updateBikePresence_body. repeat case_match; inv_steps.
Qed.

Lemma sysInv_updateMotion st : sysInv st -> sysInv (updateMotion st).
Proof.
  intros H. unfold updateMotion, for2. cbn [seq foldl].
  assert (Hb : forall now j s, sysInv s -> sysInv (updateMotion_body now j s)).
  { intros now j s Hs. unfold updateMotion_body, rackSetStop.
    repeat case_match; inv_steps. }
  auto.
Qed.

Lemma sysInv_updateBuzzer st : sysInv st -> sysInv (updateBuzzer st).
Proof. intros H. unfold updateBuzzer, buzzerOff. case_match; inv_steps. Qed.

Lemma sysInv_sessionAbortCheck st : sysInv st -> sysInv (sessionAbortCheck st).
Proof. intros H. unfold sessionAbortCheck. repeat case_match; inv_steps. Qed.

Lemma sysInv_checkTamper_body i st :
  (i < 2)%nat -> sysInv st -> sysInv (checkTamper_body i st).
Proof.
  intros Hi H. unfold checkTamper_body.
  destruct (_ && _ && _ && _); [|inv_steps].
  set (st1 := set_racks _ st).
  assert (H1 : sysInv st1) by (unfold st1; inv_steps).
  clearbody st1.
  destruct (slen _ =? 11).
  - match goal with
    | |- context [sendAlertSMS ?a ?b ?c ?d] =>
        pose proof (sendAlertSMS_sysInv a b c d Hi H1) as H2;
        destruct (sendAlertSMS a b c d) as [ok st2]
    end.
    cbn [snd] in H2. inv_steps.
  - inv_steps.
Qed.

Lemma sysInv_checkTamper st : sysInv st -> sysInv (checkTamper st).
Proof.
  intros H. unfold checkTamper, for2. cbn [seq foldl].
  apply sysInv_checkTamper_body; [lia|]. apply sysInv_checkTamper_body; [lia|exact H].
Qed.

Lemma sysInv_handleSelfServeKeypad st : sysInv st -> sysInv (handleSelfServeKeypad st).
Proof.
  intros H. unfold handleSelfServeKeypad.
  assert (Hk : sysInv (readRemoteKey st).2)
    by (unfold readRemoteKey; case_match; inv_steps).
  destruct (readRemoteKey st) as [k s]. cbn [snd] in Hk. clear H.
  unfold startSelfServeForCurrentBike.
  repeat case_match; cbn [snd]; inv_steps.
Qed.

Lemma sysInv_alertUnknownRFID uidStr st : sysInv st -> sysInv (alertUnknownRFID uidStr st).
Proof.
  intros H. unfold alertUnknownRFID. cbn [seq foldl].
  assert (Hb : forall msg i acc, (i < 2)%nat -> sysInv acc.2 ->
                 sysInv (alertUnknownRFID_body msg acc i).2).
  { intros msg i [anySent s] Hi Hs. unfold alertUnknownRFID_body. cbn [snd] in Hs.
    case_match; [|exact Hs].
    match goal with
    | |- context [sendAlertSMS ?a ?b ?c ?d] =>
        pose proof (sendAlertSMS_sysInv a b c d Hi Hs) as H2;
        destruct (sendAlertSMS a b c d) as [ok st2]
    end. exact H2. }
  match goal with
  | |- context [alertUnknownRFID_body ?m (alertUnknownRFID_body ?m ?acc 0%nat) 1%nat] =>
      pose proof (Hb m 1%nat _ ltac:(lia) (Hb m 0%nat acc ltac:(lia) H)) as H2;
      destruct (alertUnknownRFID_body m (alertUnknownRFID_body m acc 0%nat) 1%nat)
        as [anySent s]
  end.
  cbn [snd] in H2. inv_steps.
Qed.

Lemma sysInv_handleRFID_scan uid idxs : forall st,
  sysInv st -> sysInv (handleRFID_scan uid idxs st).2.
Proof.
  induction idxs as [|i rest IH]; intros st H; cbn [handleRFID_scan]; [exact H|].
  case_match; [|apply IH; exact H].
  cbn [snd]. pose proof (sysInv_toggleLock i st H). inv_steps.
Qed.

Lemma sysInv_handleRFID card st : sysInv st -> sysInv (handleRFID card st).
Proof.
  intros H. unfold handleRFID. destruct card as [uid|]; [|exact H].
  case_match.
  - pose proof (sysInv_setLocked (Z.to_nat (uiSelectedRack st)) true st H).
    case_match; inv_steps.
  - pose proof (sysInv_handleRFID_scan uid (seq 0 2) st H) as Hs.
    destruct (handleRFID_scan uid (seq 0 2) st) as [matched s]. cbn [snd] in Hs.
    destruct matched; cbn [negb]; inv_steps.
    apply sysInv_alertUnknownRFID, Hs.
Qed.

Lemma sysInv_handleClient req st : sysInv st -> sysInv (handleClient req st).
Proof.
  intros H.
  destruct req as [[auth|auth rack name number|auth rack|auth rack|auth rack]|];
    cbn [handleClient]; [| | | | |exact H].
  - unfold handleStatus. case_match; inv_steps.
  - unfold handleSetOwner. repeat case_match; inv_steps.
  - pose proof (sysInv_toggleLock (Z.to_nat (getRackArg rack - 1)) st H).
    unfold handleToggle. repeat case_match; inv_steps.
  - pose proof (sysInv_setLocked (Z.to_nat (getRackArg rack - 1)) false st H).
    unfold handleUnlock. repeat case_match; inv_steps.
  - unfold handleClear. repeat case_match; inv_steps.
Qed.

Lemma sysInv_loop req card st : sysInv st -> sysInv (loop req card st).
Proof.
  intros H. unfold loop.
  apply sysInv_sessionAbortCheck, sysInv_updateBuzzer, sysInv_updateMotion,
    sysInv_handleRFID, sysInv_handleSelfServeKeypad, sysInv_checkTamper,
    sysInv_updateBikePresence, sysInv_handleClient, H.
Qed.

Lemma sysInv_env_step st st' : env_step st st' -> sysInv st -> sysInv st'.
Proof.
  intros [s d Hd|s pin level _|s k|s gw Hgw] H.
  - apply sysInv_delay; assumption.
  - inv_steps.
  - inv_steps.
  - destruct H as ((Hc & _ & Hl & H0) & Hlog).
    unfold sysInv, cooldownInv. proj_simpl. tauto.
Qed.

Lemma sysInv_powerOn inputs keys gw :
  Forall (fun r => 0 <= took r) gw -> sysInv (powerOn inputs keys gw).
Proof.
  intros Hgw. unfold sysInv, cooldownInv, logWf, powerOn. cbn.
  rewrite length_replicate. unfold LOG_MAX. repeat split; try lia; auto.
Qed.

Lemma sysInv_let (e : Sys) (body : Sys -> Sys) :
  sysInv e -> (forall s, sysInv s -> sysInv (body s)) ->
  sysInv (let s := e in body s).
Proof. intros He Hb. apply Hb, He. Qed.

Lemma sysInv_setup st : sysInv st -> sysInv (setup st).
Proof.
  intros H. cbv delta [setup] beta.
  repeat lazymatch goal with
  | |- sysInv (let s := ?e in @?b s) =>
      apply (sysInv_let e b);
      [ unfold allStop, buzzerOff, rfidSafeBootInit, setupWeb, rackSetStop;
        repeat case_decide; inv_steps
      | clear st H; intros st H ]
  end.
  inv_steps.
Qed.

(** Every reachable state has the clock, stamps and ring in order. *)
Lemma reachable_sysInv st : reachable st -> sysInv st.
Proof.
  induction 1 as [inputs keys gw Hgw| | | | | | | | | | | |].
  - apply sysInv_setup, sysInv_powerOn, Hgw.
  - eapply sysInv_env_step; eassumption.
  - apply sysInv_loop; assumption.
  - apply sysInv_updateBikePresence; assumption.
  - apply sysInv_checkTamper; assumption.
  - apply sysInv_handleSelfServeKeypad; assumption.
  - apply sysInv_handleRFID; assumption.
  - apply sysInv_updateMotion; assumption.
  - apply sysInv_updateBuzzer; assumption.
  - apply sysInv_sessionAbortCheck; assumption.
  - apply sysInv_handleClient; assumption.
  - apply sysInv_setLocked; assumption.
  - apply sysInv_toggleLock; assumption.
Qed.

(** C10.  In every reachable state less than 30000 ms after power-on, the
    cooldown stamp of either rack still has its initial value 0 -- no
    message has been delivered -- and a call of [sendAlertSMS] for that rack
    is turned away by the cooldown test: it returns false and changes
    nothing, so the gateway is not contacted. *)
Theorem no_alert_in_first_30s st i number message :
  reachable st ->
  (i < 2)%nat ->
  clock st < SMS_COOLDOWN_MS ->
  lastSmsMillis st !! i = Some 0 /\
  usub (millis st) 0 < SMS_COOLDOWN_MS /\
  sendAlertSMS i number message st = (false, st).
Proof.
  intros Hreach Hi Hlt.
  destruct (reachable_sysInv st Hreach) as [HK _].
  pose proof HK as (Hc & _ & _ & H0).
  repeat split.
  - rewrite (H0 Hlt). destruct i as [|[|i]]; [reflexivity..|lia].
  - unfold usub, millis, u32, ULONG_MOD, SMS_COOLDOWN_MS in *.
    rewrite Z.sub_0_r, Z.mod_mod by lia. rewrite Z.mod_small by lia. exact Hlt.
  - apply sendAlertSMS_gate_shut; assumption.
Qed.

(** ** The example runs as instances *)

Lemma demoBoot_reachable : reachable demoBoot.
Proof. apply reach_boot. constructor. Qed.

Lemma demoParked_reachable : reachable demoParked.
Proof.
  unfold demoParked. apply reach_loop.
  refine (reach_env _ _ _ (env_time _ 100 _)); [|lia].
  refine (reach_env _ _ demoBoot_reachable (env_input _ SW1_PIN LOW _)).
  left. reflexivity.
Qed.

Lemma demoTamper_reachable : reachable demoTamper.
Proof.
  unfold demoTamper, demoLifted.
  apply reach_checkTamper, reach_updateBikePresence.
  refine (reach_env _ _ _ (env_time _ 250 _)); [|lia].
  refine (reach_env _ _ _ (env_input _ SW1_PIN HIGH _)); [|left; reflexivity].
  apply reach_setLocked; [lia|]. exact demoParked_reachable.
Qed.

Lemma tamper_latched_implies_locked_witness :
  exists r, racks demoTamper !! 0%nat = Some r /\
            tamperLatched r = true /\ locked r = true.
Proof.
  exists (mkRack EmptyString EmptyString true RACK1_UID true).
  split; [vm_compute; reflexivity|]. split; [reflexivity|].
  apply (proj2 (tamper_latched_implies_locked demoTamper demoTamper_reachable) 0%nat);
    [vm_compute; reflexivity|reflexivity].
Defined.

Lemma presence_changes_after_lockout_witness :
  let st := set_pins (<[SW1_PIN := LOW]> (pins demoBoot)) demoBoot in
  bikePresent (updateBikePresence st) !! 0%nat = Some true /\
  lastSwChangeMs (updateBikePresence st) !! 0%nat = Some 1750.
Proof.
  intros st.
  assert (Hb : bikePresent st !! 0%nat = Some false) by (vm_compute; reflexivity).
  assert (Hl : lastSwChangeMs st !! 0%nat = Some 0) by (vm_compute; reflexivity).
  destruct (presence_changes_after_lockout st 0 false 0 ltac:(lia) Hb Hl) as [H _].
  destruct H as (H1 & H2 & _).
  - vm_compute. discriminate.
  - vm_compute. discriminate.
  - split; [exact H1|exact H2].
Defined.

Lemma checkTamper_raises_alarm_iff_witness :
  exists new, trace (checkTamper demoLifted) = new ++ trace demoLifted /\
              alarmCount 0 new = 1%nat.
Proof.
  assert (Hr : racks demoLifted !! 0%nat =
               Some (mkRack EmptyString EmptyString true RACK1_UID false))
    by (vm_compute; reflexivity).
  destruct (checkTamper_raises_alarm_iff demoLifted 0 _ ltac:(lia) Hr)
    as (new & Ht & Hc & _).
  exists new. split; [exact Ht|]. rewrite Hc. vm_compute. reflexivity.
Defined.

Lemma setLocked_again_supersedes_witness :
  driving 0 false (pins (setLocked 0 false demoLocked)) /\
  rackMotion (setLocked 0 false demoLocked) !! 0%nat =
    Some (mkRackMotion MOTION_RETRACT 1950).
Proof.
  assert (Hd : driving 0 true (pins demoLocked))
    by (split; vm_compute; reflexivity).
  assert (Hrm : rackMotion demoLocked !! 0%nat = Some (mkRackMotion MOTION_EXTEND 1900))
    by (vm_compute; reflexivity).
  destruct (setLocked_again_supersedes demoLocked 0 true false _ Hd Hrm eq_refl)
    as (_ & _ & _ & H1 & H2).
  split; [exact H1|exact H2].
Defined.

Lemma setLocked_sets_flag_and_restarts_motion_witness :
  racks (setLocked 0 true demoParked) !! 0%nat =
    Some (mkRack EmptyString EmptyString true RACK1_UID false) /\
  rackMotion (setLocked 0 true demoParked) !! 0%nat =
    Some (mkRackMotion MOTION_EXTEND 1900).
Proof.
  assert (Hr : racks demoParked !! 0%nat =
               Some (mkRack EmptyString EmptyString false RACK1_UID false))
    by (vm_compute; reflexivity).
  assert (Hrm : rackMotion demoParked !! 0%nat = Some (mkRackMotion MOTION_IDLE 0))
    by (vm_compute; reflexivity).
  destruct (setLocked_sets_flag_and_restarts_motion demoParked 0 true _ _ Hr Hrm)
    as (H1 & H2 & _).
  split; [exact H1|exact H2].
Defined.

Lemma updateMotion_expires_after_move_time_witness :
  rackMotion (updateMotion (delay 8000 demoLocked)) !! 0%nat =
    Some (mkRackMotion MOTION_IDLE 1900) /\
  pinInactive (pins (updateMotion (delay 8000 demoLocked))) R1_RELAY_A_PIN /\
  pinInactive (pins (updateMotion (delay 8000 demoLocked))) R1_RELAY_B_PIN.
Proof.
  assert (Hrm : rackMotion (delay 8000 demoLocked) !! 0%nat =
                Some (mkRackMotion MOTION_EXTEND 1900))
    by (vm_compute; reflexivity).
  destruct (updateMotion_expires_after_move_time (delay 8000 demoLocked) 0 _
              ltac:(lia) Hrm) as (H & _).
  apply H; [discriminate|vm_compute; discriminate].
Defined.

Lemma sendAlertSMS_cooldown_gate_witness :
  sendAlertSMS 0 "09171234567" "test" demoBoot = (false, demoBoot).
Proof.
  assert (Hl : lastSmsMillis demoBoot !! 0%nat = Some 0) by (vm_compute; reflexivity).
  destruct (sendAlertSMS_cooldown_gate demoBoot 0 "09171234567" "test" 0 Hl) as [H _].
  apply H. vm_compute. reflexivity.
Defined.

Lemma enterNumber_key_handling_witness :
  uiNum demoTyping = "123" /\
  (exists c, "123" = uiNum (handleSelfServeKeypad demoTyping) +:+ str1 c) /\
  uiState (handleSelfServeKeypad demoTyping) = UI_ENTER_NUMBER.
Proof.
  assert (Hk : keypadRx demoTyping = ["*"%char]) by (vm_compute; reflexivity).
  assert (Hs : uiState demoTyping = UI_ENTER_NUMBER) by (vm_compute; reflexivity).
  assert (Hn : uiNum demoTyping = "123") by (vm_compute; reflexivity).
  destruct (enterNumber_key_handling demoTyping _ _ Hk Hs) as (_ & H & _).
  destruct H as (H1 & H2 & _); [reflexivity|rewrite Hn; discriminate|].
  rewrite Hn in H1. auto.
Defined.

Lemma demoBoot_logWf : logWf demoBoot.
Proof. apply reachable_sysInv, demoBoot_reachable. Qed.

Lemma log_ring_keeps_newest_80_witness :
  (length (logRead (appendAll demoMessages demoBoot)) <= 80)%nat /\
  logRead (appendAll demoMessages demoBoot) =
    reverse (drop 1 (stamped (clock demoBoot) demoMessages)) /\
  substring 0 72 (logsJson (appendAll demoMessages demoBoot)) =
    "[{" +:+ quoted "t" +:+ ":" +:+ quoted "0 00:00:02" +:+ "," +:+
             quoted "msg" +:+ ":" +:+ quoted "event 80" +:+ "}," +:+
     "{" +:+ quoted "t" +:+ ":" +:+ quoted "0 00:00:02" +:+ "," +:+
             quoted "msg" +:+ ":" +:+ quoted "event 79" +:+ "}" /\
  substring (2872 - 36) 36 (logsJson (appendAll demoMessages demoBoot)) =
    ",{" +:+ quoted "t" +:+ ":" +:+ quoted "0 00:00:01" +:+ "," +:+
             quoted "msg" +:+ ":" +:+ quoted "event 1" +:+ "}]" /\
  String.length (logsJson (appendAll demoMessages demoBoot)) = 2872%nat.
Proof.
  destruct (log_ring_keeps_newest_80 demoBoot demoMessages demoBoot_logWf)
    as (H1 & _ & _ & H2 & _ & H3).
  assert (Hlen : length demoMessages = 81%nat) by (vm_compute; reflexivity).
  assert (Hplain : forallb (fun e => plainText e.2) demoMessages = true)
    by (vm_compute; reflexivity).
  split; [exact H1|]. split; [exact (H2 Hlen)|].
  rewrite (H3 Hlen Hplain).
  split; [vm_compute; reflexivity|]. split; vm_compute; reflexivity.
Defined.

Lemma no_alert_in_first_30s_witness :
  lastSmsMillis demoBoot !! 1%nat = Some 0 /\
  sendAlertSMS 1 "09171234567" "test" demoBoot = (false, demoBoot).
Proof.
  destruct (no_alert_in_first_30s demoBoot 1 "09171234567" "test"
              demoBoot_reachable ltac:(lia) ltac:(vm_compute; reflexivity))
    as (H1 & _ & H2).
  split; [exact H1|exact H2].
Defined.


(** * Further properties of the sketch *)

(** ** Web requests *)

Lemma getRackArg_index s :
  getRackArg s <> -1 -> (Z.to_nat (getRackArg s - 1) < 2)%nat.
Proof.
  unfold getRackArg. destruct (slen s =? 0); [congruence|].
  destruct (toInt s <? 1) eqn:H1; [cbn; congruence|].
  destruct (toInt s >? 2) eqn:H2; [cbn; congruence|]. cbn [orb]. intros _.
  apply Z.ltb_ge in H1. rewrite Z.gtb_ltb in H2. apply Z.ltb_ge in H2. lia.
Qed.



(** X2.  A request that fails authentication is answered with 401 and changes
    nothing else, whatever it asks for. *)
Theorem unauthenticated_request_changes_nothing req st :
  reqAuth req = false ->
  handleClient (Some req) st = serverSend 401 EmptyString st.
Proof.
  destruct req; cbn [reqAuth handleClient]; intros ->; reflexivity.
Qed.

Lemma unauthenticated_request_changes_nothing_witness :
  handleClient (Some (ReqUnlock false "1")) demoLocked =
  serverSend 401 EmptyString demoLocked.
Proof.
  apply (unauthenticated_request_changes_nothing (ReqUnlock false "1") demoLocked).
  reflexivity.
Defined.




(** Expose the state behind a log append as field updates. *)
Ltac open_addLog :=
  match goal with
  | |- context [addLog ?m ?s] =>
      let l := fresh "l" in let h := fresh "h" in let c := fresh "c" in
      let Hs := fresh "Hs" in
      destruct (addLog_shape m s) as (l & h & c & Hs); rewrite Hs; clear Hs
  end.

(** X4.  [/setOwner] with a valid rack: an empty number or one of exactly 11
    digits is stored together with the name, in that rack only and without
    touching its lock flags or the actuators; any other number is refused
    with 400 and nothing is stored. *)
Theorem handleSetOwner_validates st rackArg name number :
  getRackArg rackArg <> -1 ->
  let idx := Z.to_nat (getRackArg rackArg - 1) in
  let st' := handleSetOwner true rackArg name number st in
  (number = EmptyString \/ (slen number = 11 /\ digitsOnly number = true) ->
     racks st' =
       alter (fun r => mkRack name number (locked r) (tagUid r) (tamperLatched r))
         idx (racks st) /\
     pins st' = pins st /\ rackMotion st' = rackMotion st) /\
  (number <> EmptyString -> slen number <> 11 \/ digitsOnly number = false ->
     exists body, st' = serverSend 400 body st).
Proof.
  intros Hr idx st'. subst st'. unfold handleSetOwner. cbn [negb].
  apply Z.eqb_neq in Hr. rewrite Hr. fold idx. split.
  - intros Hok.
    assert (H1 : (slen number >? 0) && negb (digitsOnly number) = false).
    { destruct Hok as [->|[_ ->]]; [reflexivity|apply andb_false_r]. }
    assert (H2 : (slen number >? 0) && negb (slen number =? 11) = false).
    { destruct Hok as [->|[-> _]]; [reflexivity|apply andb_false_r]. }
    rewrite H1, H2. open_addLog. unfold serverSend. proj_simpl.
    repeat split. rewrite list_alter_alter_eq.
    apply list_alter_ext; [|reflexivity]. intros [] _. reflexivity.
  - intros Hne Hbad. rewrite (slen_pos _ Hne). cbn [andb].
    destruct (digitsOnly number) eqn:Hd; cbn [negb]; [|eexists; reflexivity].
    destruct Hbad as [Hl|Hf]; [|discriminate].
    apply Z.eqb_neq in Hl. rewrite Hl. eexists; reflexivity.
Qed.

Lemma handleSetOwner_validates_witness :
  exists body,
    handleSetOwner true "1" "Ana" "0917" demoParked = serverSend 400 body demoParked.
Proof.
  destruct (handleSetOwner_validates demoParked "1" "Ana" "0917") as [_ H].
  - vm_compute. discriminate.
  - apply H; [discriminate|left; vm_compute; discriminate].
Defined.

(** X5.  [/clear] with a valid rack empties the owner fields and both lock flags
    of that rack and leaves the relay outputs and the motion records as they
    are: the only new effect is the answer to the request. *)
Theorem handleClear_resets_without_motion st rackArg :
  getRackArg rackArg <> -1 ->
  let idx := Z.to_nat (getRackArg rackArg - 1) in
  let st' := handleClear true rackArg st in
  racks st' =
    alter (fun r => mkRack EmptyString EmptyString false (tagUid r) false)
      idx (racks st) /\
  pins st' = pins st /\ rackMotion st' = rackMotion st /\
  exists body, trace st' = ESend 200 body :: trace st.
Proof.
  intros Hr idx st'. subst st'. unfold handleClear. cbn [negb].
  apply Z.eqb_neq in Hr. rewrite Hr. fold idx.
  open_addLog. unfold serverSend. proj_simpl. repeat split.
  - rewrite !list_alter_alter_eq.
    apply list_alter_ext; [|reflexivity]. intros [] _. reflexivity.
  - eexists; reflexivity.
Qed.

Lemma handleClear_resets_without_motion_witness :
  racks (handleClear true "1" demoTamper) !! 0%nat =
    Some (mkRack EmptyString EmptyString false RACK1_UID false) /\
  pins (handleClear true "1" demoTamper) = pins demoTamper.
Proof.
  destruct (handleClear_resets_without_motion demoTamper "1") as (H1 & H2 & _).
  - vm_compute. discriminate.
  - split; [|exact H2]. rewrite H1. vm_compute. reflexivity.
Defined.

(** ** Lock toggling *)

(** X6.  [toggleLock] inverts the locked flag of the rack; two toggles in a row
    bring the flag back, with the tamper latch cleared on the way. *)
Theorem toggleLock_twice st i r :
  racks st !! i = Some r ->
  racks (toggleLock i st) !! i =
    Some (mkRack (ownerName r) (ownerNumber r) (negb (locked r)) (tagUid r)
            (if locked r then false else tamperLatched r)) /\
  racks (toggleLock i (toggleLock i st)) !! i =
    Some (mkRack (ownerName r) (ownerNumber r) (locked r) (tagUid r) false).
Proof.
  intros Hr.
  assert (H1 : racks (toggleLock i st) !! i =
    Some (mkRack (ownerName r) (ownerNumber r) (negb (locked r)) (tagUid r)
            (if locked r then false else tamperLatched r))).
  { unfold toggleLock. rewrite racks_setLocked, list_lookup_alter_eq, Hr.
    rewrite (list_lookup_total_correct _ _ _ Hr). destruct (locked r); reflexivity. }
  split; [exact H1|].
  unfold toggleLock at 1. rewrite racks_setLocked, list_lookup_alter_eq, H1.
  rewrite (list_lookup_total_correct _ _ _ H1). cbn.
  destruct (locked r); reflexivity.
Qed.

Lemma toggleLock_twice_witness :
  racks (toggleLock 0 (toggleLock 0 demoTamper)) !! 0%nat =
    Some (mkRack EmptyString EmptyString true RACK1_UID false).
Proof.
  assert (Hr : racks demoTamper !! 0%nat =
               Some (mkRack EmptyString EmptyString true RACK1_UID true))
    by (vm_compute; reflexivity).
  exact (proj2 (toggleLock_twice demoTamper 0 _ Hr)).
Defined.

(** ** RFID tags *)

Lemma uidEquals_true a : forall b, uidEquals a b = true <-> a = b.
Proof.
  induction a as [|x a IH]; intros [|y b]; cbn [uidEquals];
    try (split; [discriminate|congruence]); [tauto|].
  destruct (Z.eqb_spec x y) as [->|Hne]; cbn [negb].
  - rewrite IH. split; congruence.
  - split; [discriminate|congruence].
Qed.

(** X7.  [uidEquals] holds exactly for equal byte sequences; sequences of
    different lengths are never equal, whatever their common prefix. *)
Theorem uidEquals_iff a b :
  (uidEquals a b = true <-> a = b) /\
  (length a <> length b -> uidEquals a b = false).
Proof.
  split; [apply uidEquals_true|]. intros Hlen.
  destruct (uidEquals a b) eqn:Hu; [|reflexivity].
  apply uidEquals_true in Hu. subst b. contradiction.
Qed.

Lemma uidEquals_iff_witness : uidEquals [218; 217; 251] RACK1_UID = false.
Proof. apply (uidEquals_iff [218; 217; 251] RACK1_UID). discriminate. Defined.


(** ** Lock commands of the web panel *)

Lemma toggleLock_lookup i st r :
  racks st !! i = Some r -> racks (toggleLock i st) !! i = Some (toggled r).
Proof.
  intros Hr. unfold toggleLock.
  rewrite racks_setLocked, list_lookup_alter_eq, Hr.
  rewrite (list_lookup_total_correct _ _ _ Hr). unfold toggled.
  destruct (locked r); reflexivity.
Qed.

Lemma setLocked_ui i b st :
  uiState (setLocked i b st) = uiState st /\
  uiSelectedRack (setLocked i b st) = uiSelectedRack st /\
  uiNum (setLocked i b st) = uiNum st.
Proof.
  unfold setLocked, startMotionForRack, rackSetExtend, rackSetRetract, rackSetStop.
  destruct b; cbn [negb]; case_decide; (split; [reflexivity|]); split; reflexivity.
Qed.

(** X8.  [/unlock] and [/toggle] with a valid rack.  [/unlock] leaves the rack
    unlocked with its tamper latch cleared, whatever it was, and starts the
    retract sequence; [/toggle] behaves as [toggleLock] and its answer names
    the state after the toggle: LOCKED exactly when the rack was unlocked
    before.  Neither touches the keypad session: phase, selected rack and
    number buffer stay as they are. *)
Theorem web_lock_commands st rackArg r :
  getRackArg rackArg <> -1 ->
  let idx := Z.to_nat (getRackArg rackArg - 1) in
  racks st !! idx = Some r ->
  (let st' := handleUnlock true rackArg st in
   racks st' !! idx =
     Some (mkRack (ownerName r) (ownerNumber r) false (tagUid r) false) /\
   driving idx false (pins st') /\
   uiState st' = uiState st /\ uiSelectedRack st' = uiSelectedRack st /\
   uiNum st' = uiNum st /\
   trace st' = ESend 200 "OK: Rack unlocked by barangay override."
                 :: trace (setLocked idx false st)) /\
  (let st' := handleToggle true rackArg st in
   racks st' = racks (toggleLock idx st) /\ pins st' = pins (toggleLock idx st) /\
   uiState st' = uiState st /\ uiSelectedRack st' = uiSelectedRack st /\
   uiNum st' = uiNum st /\
   trace st' = ESend 200 ("OK: Rack " +:+ itoa (getRackArg rackArg) +:+
                          (if locked r then " UNLOCKED" else " LOCKED"))
                 :: trace (toggleLock idx st)).
Proof.
  intros Hr idx Hrack. apply Z.eqb_neq in Hr. split.
  - intros st'. subst st'. unfold handleUnlock. cbn [negb]. rewrite Hr. fold idx.
    open_addLog. unfold serverSend. proj_simpl.
    split; [|split; [apply setLocked_driving|]].
    + rewrite racks_setLocked, list_lookup_alter_eq, Hrack. reflexivity.
    + destruct (setLocked_ui idx false st) as (-> & -> & ->).
      split; [reflexivity|]. split; [reflexivity|]. split; reflexivity.
  - intros st'. subst st'. unfold handleToggle. cbn [negb]. rewrite Hr. fold idx.
    open_addLog. unfold serverSend. proj_simpl.
    rewrite (list_lookup_total_correct _ _ _ (toggleLock_lookup idx st r Hrack)).
    split; [reflexivity|]. split; [reflexivity|].
    split; [apply setLocked_ui|]. split; [apply setLocked_ui|].
    split; [apply setLocked_ui|].
    unfold toggled. cbn [locked]. destruct (locked r); reflexivity.
Qed.

Lemma web_lock_commands_witness :
  racks (handleUnlock true "1" demoTamper) !! 0%nat =
    Some (mkRack EmptyString EmptyString false RACK1_UID false).
Proof.
  assert (Hr : racks demoTamper !! 0%nat =
               Some (mkRack EmptyString EmptyString true RACK1_UID true))
    by (vm_compute; reflexivity).
  assert (Hg : getRackArg "1" <> -1) by (vm_compute; discriminate).
  destruct (web_lock_commands demoTamper "1" _ Hg Hr) as [(H & _) _].
  exact H.
Defined.


Lemma sameControl_refl st : sameControl st st.
Proof. unfold sameControl. repeat split. Qed.

Lemma sameControl_trans st1 st2 st3 :
  sameControl st1 st2 -> sameControl st2 st3 -> sameControl st1 st3.
Proof.
  unfold sameControl.
  intros (A1 & A2 & A3 & A4 & A5 & A6 & A7 & A8 & A9 & A10 & A11 & A12)
         (B1 & B2 & B3 & B4 & B5 & B6 & B7 & B8 & B9 & B10 & B11 & B12).
  repeat split; congruence.
Qed.

Lemma sameControl_sendAlertSMS i number message st :
  sameControl st (sendAlertSMS i number message st).2.
Proof.
  destruct (sendAlertSMS_shape i number message st) as (g & t & c & l & ->).
  unfold sameControl. repeat split.
Qed.

Lemma sameControl_addLog m st : sameControl st (addLog m st).
Proof.
  destruct (addLog_shape m st) as (l & h & c & ->).
  unfold sameControl. repeat split.
Qed.

Lemma sameControl_set_lastEvent e st : sameControl st (set_lastEvent e st).
Proof. unfold sameControl. repeat split. Qed.

Lemma sameControl_alertUnknownRFID uidStr st :
  sameControl st (alertUnknownRFID uidStr st).
Proof.
  unfold alertUnknownRFID. cbn [seq foldl].
  assert (Hb : forall msg i acc, sameControl st acc.2 ->
                 sameControl st (alertUnknownRFID_body msg acc i).2).
  { intros msg i [anySent s] Hs. unfold alertUnknownRFID_body. cbn [snd] in Hs.
    case_match; [|exact Hs].
    match goal with
    | |- context [sendAlertSMS ?a ?b ?c ?d] =>
        pose proof (sameControl_sendAlertSMS a b c d) as H2;
        destruct (sendAlertSMS a b c d) as [ok st2]
    end.
    cbn [snd] in *. eapply sameControl_trans; eassumption. }
  match goal with
  | |- context [alertUnknownRFID_body ?m (alertUnknownRFID_body ?m ?acc 0%nat) 1%nat] =>
      pose proof (Hb m 1%nat _ (Hb m 0%nat acc (sameControl_refl st))) as H2;
      destruct (alertUnknownRFID_body m (alertUnknownRFID_body m acc 0%nat) 1%nat)
        as [anySent s]
  end.
  cbn [snd] in H2.
  eapply sameControl_trans; [exact H2|].
  eapply sameControl_trans; [apply sameControl_addLog|apply sameControl_set_lastEvent].
Qed.

(** X9.  An unknown card leaves locks, owners, session, presence, relay outputs
    and motion records alone; when no rack is locked with an 11-character
    owner number it contacts nobody: the trace, the clock, the gateway
    script and the cooldown stamps stay as they are, the event is logged
    once and the last-event text says that nothing was sent. *)
Theorem alertUnknownRFID_only_alerts uidStr st :
  sameControl st (alertUnknownRFID uidStr st) /\
  (alertTarget 0 st = false -> alertTarget 1 st = false ->
     alertUnknownRFID uidStr st =
       set_lastEvent "Unknown RFID (no locked owners / cooldown / gateway fail)"
         (addLog ("UNKNOWN RFID UalertID=" +:+ uidStr) st)).
Proof.
  split; [apply sameControl_alertUnknownRFID|].
  unfold alertTarget. intros H0 H1.
  unfold alertUnknownRFID. cbn [seq foldl].
  unfold alertUnknownRFID_body at 2. rewrite H0.
  unfold alertUnknownRFID_body. rewrite H1. reflexivity.
Qed.


Section RfidInSession.
Variables (st : Sys) (uid : list Z) (r : Rack).
Hypothesis Hstate : uiState st = UI_WAIT_RFID_LOCK.
Hypothesis Hsel : uiSelectedRack st <> -1.
Hypothesis Hr : racks st !! Z.to_nat (uiSelectedRack st) = Some r.

Lemma handleRFID_session_branch :
  handleRFID (Some uid) st =
  let i := Z.to_nat (uiSelectedRack st) in
  delay 200
    (if uidEquals uid (tagUid r) then
       let st1 := setLocked i true st in
       let st2 := set_lastEvent ("RFID LOCK Rack " +:+ rackNo i) st1 in
       let st3 := addLog ("LOCK Rack " +:+ rackNo i +:+ " (RFID) Number " +:+
                          maskNumber (ownerNumber (racks st2 !!! i))) st2 in
       resetUi (delay 2000
                  (lcd2 ("Rack " +:+ rackNo i +:+ " LOCKED") "Remove key/card" st3))
     else uiShowWaitRFID (delay 2000 (lcd2 "Wrong RFID" "Use Rack tag" st))).
Proof.
  unfold handleRFID. rewrite Hstate.
  rewrite bool_decide_eq_true_2 by reflexivity.
  apply Z.eqb_neq in Hsel. rewrite Hsel. cbn [negb andb].
  rewrite (list_lookup_total_correct _ _ _ Hr). reflexivity.
Qed.
End RfidInSession.

(** X10.  A card shown while the session waits for it: the tag of the selected
    rack locks that rack (extend sequence started) and ends the session;
    any other card changes neither racks nor relay outputs nor the
    session, which keeps waiting. *)
Theorem handleRFID_confirms_session st uid r :
  uiState st = UI_WAIT_RFID_LOCK ->
  uiSelectedRack st <> -1 ->
  racks st !! Z.to_nat (uiSelectedRack st) = Some r ->
  let i := Z.to_nat (uiSelectedRack st) in
  let st' := handleRFID (Some uid) st in
  (uid = tagUid r ->
     racks st' !! i =
       Some (mkRack (ownerName r) (ownerNumber r) true (tagUid r) (tamperLatched r)) /\
     driving i true (pins st') /\
     uiState st' = UI_IDLE /\ uiSelectedRack st' = -1 /\ uiNum st' = EmptyString) /\
  (uid <> tagUid r ->
     racks st' = racks st /\ pins st' = pins st /\ rackMotion st' = rackMotion st /\
     uiState st' = UI_WAIT_RFID_LOCK /\ uiSelectedRack st' = uiSelectedRack st /\
     uiNum st' = uiNum st).
Proof.
  intros Hstate Hsel Hr i st'. subst st'.
  rewrite (handleRFID_session_branch st uid r Hstate Hsel Hr). fold i. cbv zeta.
  split.
  - intros ->. rewrite (proj2 (uidEquals_true _ _) eq_refl).
    open_addLog. unfold resetUi, uiShowIdle, lcd2, delay. proj_simpl.
    repeat split.
    + rewrite racks_setLocked, list_lookup_alter_eq. fold i in Hr. rewrite Hr.
      reflexivity.
    + apply setLocked_driving.
    + apply setLocked_driving.
  - intros Hne.
    assert (Hu : uidEquals uid (tagUid r) = false).
    { destruct (uidEquals uid (tagUid r)) eqn:Hu; [|reflexivity].
      apply uidEquals_true in Hu. contradiction. }
    rewrite Hu. unfold uiShowWaitRFID, lcd2, delay. proj_simpl.
    repeat split. exact Hstate.
Qed.

Lemma handleRFID_scan_two uid st r0 r1 :
  racks st = [r0; r1] ->
  handleRFID_scan uid (seq 0 2) st =
  if uidEquals uid (tagUid r0) then
    let st1 := toggleLock 0 st in
    let st2 := set_lastEvent ("RFID toggle Rack " +:+ rackNo 0 +:+
                 (if locked (racks st1 !!! 0%nat) then " (LOCK)" else " (UNLOCK)")) st1 in
    (true, addLog ("RFID " +:+
                   (if locked (racks st2 !!! 0%nat) then "LOCK " else "UNLOCK ") +:+
                   "Rack " +:+ rackNo 0 +:+ " Number " +:+
                   maskNumber (ownerNumber (racks st2 !!! 0%nat))) st2)
  else if uidEquals uid (tagUid r1) then
    let st1 := toggleLock 1 st in
    let st2 := set_lastEvent ("RFID toggle Rack " +:+ rackNo 1 +:+
                 (if locked (racks st1 !!! 1%nat) then " (LOCK)" else " (UNLOCK)")) st1 in
    (true, addLog ("RFID " +:+
                   (if locked (racks st2 !!! 1%nat) then "LOCK " else "UNLOCK ") +:+
                   "Rack " +:+ rackNo 1 +:+ " Number " +:+
                   maskNumber (ownerNumber (racks st2 !!! 1%nat))) st2)
  else (false, st).
Proof.
  intros Hracks. cbn [seq handleRFID_scan]. rewrite Hracks.
  change ([r0; r1] !!! 0%nat) with r0. change ([r0; r1] !!! 1%nat) with r1.
  reflexivity.
Qed.

Lemma racks_toggleLock_two i st r0 r1 :
  racks st = [r0; r1] ->
  racks (toggleLock i st) = alter toggled i [r0; r1].
Proof.
  intros Hracks. unfold toggleLock. rewrite racks_setLocked, Hracks.
  destruct i as [|[|i]]; [| |reflexivity].
  - change ([r0; r1] !!! 0%nat) with r0. unfold toggled. cbn.
    destruct (locked r0); reflexivity.
  - change ([r0; r1] !!! 1%nat) with r1. unfold toggled. cbn.
    destruct (locked r1); reflexivity.
Qed.

(** X11.  A card shown outside the waiting phase: the racks are tried in order
    and the first whose tag equals the card is toggled, the other one left
    alone even if it carries the same tag; a card matching no rack changes
    no lock, no relay output and no session field. *)
Theorem handleRFID_toggles_first_match st uid r0 r1 :
  uiState st <> UI_WAIT_RFID_LOCK \/ uiSelectedRack st = -1 ->
  racks st = [r0; r1] ->
  let st' := handleRFID (Some uid) st in
  (uid = tagUid r0 -> racks st' = [toggled r0; r1]) /\
  (uid <> tagUid r0 -> uid = tagUid r1 -> racks st' = [r0; toggled r1]) /\
  (uid <> tagUid r0 -> uid <> tagUid r1 ->
     sameControl (delay 200 st) st' /\ racks st' = racks st).
Proof.
  intros Hmode Hracks st'. subst st'. unfold handleRFID.
  assert (Hc : bool_decide (uiState st = UI_WAIT_RFID_LOCK) &&
               negb (uiSelectedRack st =? -1) = false).
  { destruct Hmode as [Hs| ->].
    - rewrite bool_decide_eq_false_2 by exact Hs. reflexivity.
    - apply andb_false_r. }
  rewrite Hc, (handleRFID_scan_two uid st r0 r1 Hracks).
  assert (Hno : forall r, uid <> tagUid r -> uidEquals uid (tagUid r) = false).
  { intros r Hne. destruct (uidEquals uid (tagUid r)) eqn:Hu; [|reflexivity].
    apply uidEquals_true in Hu. contradiction. }
  split; [|split].
  - intros ->. rewrite (proj2 (uidEquals_true _ _) eq_refl). cbv zeta. cbn [negb].
    open_addLog. unfold delay. proj_simpl.
    rewrite (racks_toggleLock_two 0 st r0 r1 Hracks). reflexivity.
  - intros Hne ->. rewrite (Hno _ Hne), (proj2 (uidEquals_true _ _) eq_refl).
    cbv zeta. cbn [negb]. open_addLog. unfold delay. proj_simpl.
    rewrite (racks_toggleLock_two 1 st r0 r1 Hracks). reflexivity.
  - intros H0 H1. rewrite (Hno _ H0), (Hno _ H1). cbn [negb].
    pose proof (sameControl_alertUnknownRFID (uidToString uid) st) as Hs.
    split.
    + unfold sameControl in *. unfold delay. proj_simpl. exact Hs.
    + unfold delay. proj_simpl. apply racks_alertUnknownRFID.
Qed.


(** ** Choosing a rack and the keys outside number entry *)

Lemma findNewestAvailableRack_range st :
  findNewestAvailableRack st <> -1 -> 0 <= findNewestAvailableRack st < 2.
Proof.
  unfold findNewestAvailableRack. cbn [seq foldl]. unfold findNewest_body.
  fold (eligible 0 st) (eligible 1 st).
  destruct (eligible 0 st), (eligible 1 st);
    cbn -[eligible lookup_total Z.gtb];
    try destruct (_ >? _); cbn -[eligible lookup_total Z.gtb];
    change (Z.of_nat 0) with 0; change (Z.of_nat 1) with 1;
    cbn [Z.eqb orb fst]; intros; try congruence; lia.
Qed.

(** X12.  [findNewestAvailableRack] returns -1 exactly when no rack has a
    bike and is unlocked ([anySelfServeCandidate] is false); otherwise it
    returns an eligible rack: the only one, or of two rack index 1 when its
    stamp in [lastSwChangeMs] is strictly greater than that of rack index 0,
    and rack index 0 otherwise.  The stamps are raw [millis()] values: of
    two changes before [millis()] wraps the later one wins, but of a change
    before the wrap and a later one after it the earlier one wins. *)
Theorem findNewestAvailableRack_spec st :
  findNewestAvailableRack st =
    (if eligible 0 st then
       if eligible 1 st && (lastSwChangeMs st !!! 1%nat >? lastSwChangeMs st !!! 0%nat)
       then 1 else 0
     else if eligible 1 st then 1 else -1) /\
  (findNewestAvailableRack st = -1 <-> anySelfServeCandidate st = false) /\
  (findNewestAvailableRack st <> -1 ->
     0 <= findNewestAvailableRack st < 2 /\
     eligible (Z.to_nat (findNewestAvailableRack st)) st = true) /\
  (forall t0 t1,
     eligible 0 st = true -> eligible 1 st = true ->
     lastSwChangeMs st !!! 0%nat = u32 t0 -> lastSwChangeMs st !!! 1%nat = u32 t1 ->
     0 <= t0 < t1 ->
     (t1 < ULONG_MOD -> findNewestAvailableRack st = 1) /\
     (t0 < ULONG_MOD <= t1 -> t1 < t0 + ULONG_MOD -> findNewestAvailableRack st = 0)).
Proof.
  assert (Hcases : findNewestAvailableRack st =
    (if eligible 0 st then
       if eligible 1 st && (lastSwChangeMs st !!! 1%nat >? lastSwChangeMs st !!! 0%nat)
       then 1 else 0
     else if eligible 1 st then 1 else -1)).
  { unfold findNewestAvailableRack. cbn [seq foldl].
    unfold findNewest_body. fold (eligible 0 st) (eligible 1 st).
    destruct (eligible 0 st), (eligible 1 st);
      cbn -[eligible lookup_total Z.gtb];
      try destruct (_ >? _); reflexivity. }
  split; [exact Hcases|]. split; [|split].
  - rewrite Hcases. unfold anySelfServeCandidate. cbn [seq foldl].
    unfold anySelfServeCandidate_body. fold (eligible 0 st) (eligible 1 st).
    destruct (eligible 0 st), (eligible 1 st); cbn [andb];
      try destruct (_ >? _); split; intros; congruence.
  - rewrite Hcases.
    destruct (eligible 0 st) eqn:E0, (eligible 1 st) eqn:E1; cbn [andb];
      try destruct (_ >? _); intros Hne; try congruence;
      change (Z.to_nat 0) with 0%nat; change (Z.to_nat 1) with 1%nat;
      (split; [lia|assumption]).
  - intros t0 t1 E0 E1 H0 H1 Ht. rewrite Hcases, E0, E1, H0, H1. cbn [andb].
    split.
    + intros Hlt. rewrite !u32_small by lia.
      destruct (Z.gtb_spec t1 t0); [reflexivity|lia].
    + intros Hwrap Hnear. rewrite (u32_small t0) by lia.
      assert (Hu : u32 t1 = t1 - ULONG_MOD).
      { unfold u32. symmetry. apply (Z.mod_unique t1 ULONG_MOD 1); lia. }
      rewrite Hu. destruct (Z.gtb_spec (t1 - ULONG_MOD) t0); [lia|reflexivity].
Qed.

Section KeysOutsideEntry.
Variables (st : Sys) (k : ascii) (rest : list ascii).
Hypothesis Hkey : keypadRx st = k :: rest.
Hypothesis Hk : k <> zero.

Lemma handleSelfServeKeypad_idle :
  uiState st = UI_IDLE ->
  handleSelfServeKeypad st =
  if Ascii.eqb k "#"
  then (startSelfServeForCurrentBike (set_keypadRx rest st)).2
  else set_keypadRx rest st.
Proof.
  intros Hs. unfold handleSelfServeKeypad, readRemoteKey. rewrite Hkey.
  apply Ascii.eqb_neq in Hk. rewrite Hk.
  change (uiState (set_keypadRx rest st)) with (uiState st). rewrite Hs.
  reflexivity.
Qed.

Lemma handleSelfServeKeypad_waiting :
  uiState st = UI_WAIT_RFID_LOCK ->
  handleSelfServeKeypad st =
  if Ascii.eqb k "*" then resetUi (set_keypadRx rest st) else set_keypadRx rest st.
Proof.
  intros Hs. unfold handleSelfServeKeypad, readRemoteKey. rewrite Hkey.
  apply Ascii.eqb_neq in Hk. rewrite Hk.
  change (uiState (set_keypadRx rest st)) with (uiState st). rewrite Hs.
  reflexivity.
Qed.
End KeysOutsideEntry.

(** X13.  Keys while the session is idle: every key is taken from the UART; only
    "#" acts.  Without an eligible rack it shows "No Slot" for 2000 ms and
    the session stays idle; with one it selects the rack chosen by
    [findNewestAvailableRack], empties the buffer and starts number entry.
    Racks are never changed. *)
Theorem idle_keys st k rest :
  keypadRx st = k :: rest ->
  k <> zero ->
  uiState st = UI_IDLE ->
  let st' := handleSelfServeKeypad st in
  keypadRx st' = rest /\ racks st' = racks st /\
  (k <> "#"%char -> st' = set_keypadRx rest st) /\
  (k = "#"%char -> findNewestAvailableRack st = -1 ->
     uiState st' = UI_IDLE /\ uiSelectedRack st' = uiSelectedRack st /\
     clock st' = clock st + 2000) /\
  (k = "#"%char -> findNewestAvailableRack st <> -1 ->
     uiState st' = UI_ENTER_NUMBER /\
     uiSelectedRack st' = findNewestAvailableRack st /\
     uiNum st' = EmptyString /\ clock st' = clock st).
Proof.
  intros Hkey Hk Hs st'. subst st'.
  rewrite (handleSelfServeKeypad_idle st k rest Hkey Hk Hs).
  unfold startSelfServeForCurrentBike.
  change (findNewestAvailableRack (set_keypadRx rest st))
    with (findNewestAvailableRack st).
  destruct (Ascii.eqb_spec k "#") as [->|Hne].
  - destruct (Z.eqb_spec (findNewestAvailableRack st) (-1)) as [Hf|Hf];
      cbn [snd]; unfold uiShowIdle, uiShowEnterNum, lcd2, delay; proj_simpl;
      repeat split; try congruence.
  - repeat split; congruence.
Qed.

(** X14.  Keys while the session waits for the card: "*" cancels the session
    (idle, no rack selected, empty buffer); every other key is only taken
    from the UART.  Racks are never changed. *)
Theorem waiting_keys st k rest :
  keypadRx st = k :: rest ->
  k <> zero ->
  uiState st = UI_WAIT_RFID_LOCK ->
  let st' := handleSelfServeKeypad st in
  racks st' = racks st /\ keypadRx st' = rest /\
  (k = "*"%char ->
     uiState st' = UI_IDLE /\ uiSelectedRack st' = -1 /\ uiNum st' = EmptyString) /\
  (k <> "*"%char -> st' = set_keypadRx rest st).
Proof.
  intros Hkey Hk Hs st'. subst st'.
  rewrite (handleSelfServeKeypad_waiting st k rest Hkey Hk Hs).
  destruct (Ascii.eqb_spec k "*") as [->|Hne].
  - repeat split. intros; congruence.
  - repeat split; congruence.
Qed.

(** X15.  Without a key in the UART the keypad handler does nothing; a NUL byte
    is taken from the UART and otherwise ignored, in every phase. *)
Theorem no_key_no_change st :
  (keypadRx st = [] -> handleSelfServeKeypad st = st) /\
  (forall rest, keypadRx st = zero :: rest ->
     handleSelfServeKeypad st = set_keypadRx rest st).
Proof.
  unfold handleSelfServeKeypad, readRemoteKey.
  split; [intros ->|intros rest ->]; reflexivity.
Qed.

(** ** Bike removed during a session *)

(** X16.  The last step of the loop: an active session whose selected rack has no
    bike is reset to idle after a 2000 ms message; in every other case the
    step changes nothing.  Racks and relay outputs are never changed. *)
Theorem sessionAbortCheck_spec st :
  let st' := sessionAbortCheck st in
  racks st' = racks st /\ pins st' = pins st /\
  (uiState st <> UI_IDLE -> uiSelectedRack st <> -1 ->
   bikePresent st !!! Z.to_nat (uiSelectedRack st) = false ->
     uiState st' = UI_IDLE /\ uiSelectedRack st' = -1 /\
     uiNum st' = EmptyString /\ clock st' = clock st + 2000) /\
  (uiState st = UI_IDLE \/ uiSelectedRack st = -1 \/
   bikePresent st !!! Z.to_nat (uiSelectedRack st) = true ->
     st' = st).
Proof.
  intros st'. subst st'. unfold sessionAbortCheck.
  destruct (decide (uiState st = UI_IDLE)) as [Hs|Hs].
  - rewrite bool_decide_eq_true_2 by exact Hs. cbn [negb andb].
    repeat split; try reflexivity; contradiction.
  - rewrite bool_decide_eq_false_2 by exact Hs. cbn [negb andb].
    destruct (Z.eqb_spec (uiSelectedRack st) (-1)) as [Hsel|Hsel]; cbn [negb].
    + repeat split; try reflexivity; contradiction.
    + destruct (bikePresent st !!! Z.to_nat (uiSelectedRack st)) eqn:Hb; cbn [negb].
      * repeat split; try reflexivity; discriminate.
      * split; [reflexivity|]. split; [reflexivity|]. split.
        -- intros _ _ _. repeat split.
        -- intros [?|[?|?]]; [contradiction|contradiction|discriminate].
Qed.


(** ** Gateway, buzzer, actuator timer *)

(** X17.  [sendViaPhoneGateway] refuses without contacting the gateway when the
    number does not have 11 characters or the WiFi is not in AP mode.
    Otherwise it uses up one answer of the gateway; the POST is made only
    when the connection could be set up, and the result is true exactly
    for a status code from 200 to 299. *)
Theorem sendViaPhoneGateway_spec number message st :
  (slen number <> 11 \/ wifiIsAP st = false ->
     sendViaPhoneGateway number message st = (false, st)) /\
  (slen number = 11 -> wifiIsAP st = true ->
   forall r rest, gateway st = r :: rest ->
     let res := sendViaPhoneGateway number message st in
     gateway res.2 = rest /\
     res.1 = beginOk r && (200 <=? httpCode r) && (httpCode r <? 300) /\
     (beginOk r = false -> trace res.2 = trace st /\ clock res.2 = clock st) /\
     (beginOk r = true ->
        clock res.2 = clock st + took r /\
        exists body, trace res.2 = EPost (clock st) number body :: trace st)).
Proof.
  unfold sendViaPhoneGateway. split.
  - intros [Hl|Hw].
    + apply Z.eqb_neq in Hl. rewrite Hl. reflexivity.
    + rewrite Hw. destruct (negb (slen number =? 11)); reflexivity.
  - intros Hl Hw r rest Hg. rewrite Hl, Hw, Hg.
    change (default noReply (head (r :: rest))) with r.
    change (tail (r :: rest)) with rest. cbn [Z.eqb Pos.eqb negb].
    destruct (beginOk r); cbn [negb fst snd andb]; unfold delay; proj_simpl.
    + repeat split; try discriminate.
      * rewrite Z.geb_leb. reflexivity.
      * eexists; reflexivity.
    + repeat split; try discriminate.
Qed.

Lemma sendViaPhoneGateway_spec_witness :
  sendViaPhoneGateway "0917" "hello" demoBoot = (false, demoBoot).
Proof.
  apply (proj1 (sendViaPhoneGateway_spec "0917" "hello" demoBoot)).
  left. vm_compute. discriminate.
Defined.

(** X18.  The buzzer timer while [millis()] does not wrap: [buzzerOnFor d] drives
    the buzzer pin high; a later [updateBuzzer] leaves it high while fewer
    than [d] ms have passed, and from [d] ms on drives it low and clears the
    timer. *)
Theorem buzzer_timer st d e :
  0 <= clock st -> 0 < d -> 0 <= e ->
  clock st + d < ULONG_MOD -> clock st + e < ULONG_MOD ->
  let st1 := buzzerOnFor d st in
  let st2 := updateBuzzer (delay e st1) in
  pins st1 !! BUZZER_PIN = Some HIGH /\
  buzzerOffAtMs st1 = clock st + d /\
  (e < d -> st2 = delay e st1) /\
  (d <= e -> pins st2 !! BUZZER_PIN = Some LOW /\ buzzerOffAtMs st2 = 0).
Proof.
  intros Hc Hd He Hcd Hce st1 st2. subst st1 st2.
  assert (Hoff : buzzerOffAtMs (buzzerOnFor d st) = clock st + d).
  { unfold buzzerOnFor, digitalWrite, uadd, millis. proj_simpl.
    rewrite !u32_small; [reflexivity|lia|rewrite u32_small; lia]. }
  assert (Hpin : pins (buzzerOnFor d st) !! BUZZER_PIN = Some HIGH).
  { unfold buzzerOnFor, digitalWrite. proj_simpl. apply lookup_insert_eq. }
  split; [exact Hpin|]. split; [exact Hoff|].
  unfold updateBuzzer.
  change (buzzerOffAtMs (delay e (buzzerOnFor d st)))
    with (buzzerOffAtMs (buzzerOnFor d st)).
  rewrite Hoff.
  assert (Hm : millis (delay e (buzzerOnFor d st)) = clock st + e).
  { unfold millis, delay, buzzerOnFor, digitalWrite. proj_simpl.
    apply u32_small. lia. }
  rewrite Hm.
  assert (Hnz : (clock st + d =? 0) = false) by (apply Z.eqb_neq; lia).
  rewrite Hnz. cbn [negb andb]. rewrite Z.geb_leb. split.
  - intros Hlt. assert (Hf : (clock st + d <=? clock st + e) = false)
      by (apply Z.leb_gt; lia).
    rewrite Hf. reflexivity.
  - intros Hge. assert (Ht : (clock st + d <=? clock st + e) = true)
      by (apply Z.leb_le; lia).
    rewrite Ht. unfold buzzerOff, digitalWrite. proj_simpl.
    split; [apply lookup_insert_eq|reflexivity].
Qed.

Lemma buzzer_timer_witness :
  pins (updateBuzzer (delay 3000 (buzzerOnFor 3000 demoBoot))) !! BUZZER_PIN = Some LOW.
Proof.
  assert (H0 : 0 <= clock demoBoot) by (vm_compute; discriminate).
  assert (H1 : clock demoBoot + 3000 < ULONG_MOD) by (vm_compute; reflexivity).
  destruct (buzzer_timer demoBoot 3000 3000 H0 ltac:(lia) ltac:(lia) H1 H1)
    as (_ & _ & _ & H).
  apply H. lia.
Defined.

(** X19.  The value 0 of the buzzer deadline means "no timer": when
    [millis() + d] wraps to exactly 0 the buzzer is switched on and no
    later [updateBuzzer] switches it off. *)
Theorem buzzer_deadline_zero_never_fires st d e :
  uadd (millis st) d = 0 ->
  let st1 := buzzerOnFor d st in
  pins st1 !! BUZZER_PIN = Some HIGH /\
  updateBuzzer (delay e st1) = delay e st1.
Proof.
  intros Hz st1. subst st1. split.
  - unfold buzzerOnFor, digitalWrite. proj_simpl. apply lookup_insert_eq.
  - unfold updateBuzzer.
    change (buzzerOffAtMs (delay e (buzzerOnFor d st)))
      with (uadd (millis st) d).
    rewrite Hz. reflexivity.
Qed.

Lemma buzzer_deadline_zero_never_fires_witness :
  let st := delay (ULONG_MOD - 3000 - 1750) demoBoot in
  updateBuzzer (delay 5000 (buzzerOnFor 3000 st)) = delay 5000 (buzzerOnFor 3000 st).
Proof.
  intros st.
  apply (proj2 (buzzer_deadline_zero_never_fires st 3000 5000 ltac:(vm_compute; reflexivity))).
Defined.

(** X20.  A rack that is moving and whose start is less than 8000 ms old is left
    alone by [updateMotion]: same motion record, same relay levels. *)
Theorem updateMotion_keeps_running st i rm :
  (i < 2)%nat ->
  rackMotion st !! i = Some rm ->
  usub (millis st) (startMs rm) < ACTUATOR_MOVE_TIME_MS ->
  rackMotion (updateMotion st) !! i = Some rm /\
  pins (updateMotion st) !! relayA i = pins st !! relayA i /\
  pins (updateMotion st) !! relayB i = pins st !! relayB i.
Proof.
  intros Hi Hrm Hlt. apply (updateMotion_rack i st rm Hi Hrm).
  unfold motionExpired. apply andb_false_intro2.
  rewrite Z.geb_leb. apply Z.leb_gt. exact Hlt.
Qed.

Lemma updateMotion_keeps_running_witness :
  rackMotion (updateMotion (delay 7999 demoLocked)) !! 0%nat =
    Some (mkRackMotion MOTION_EXTEND 1900).
Proof.
  assert (Hrm : rackMotion (delay 7999 demoLocked) !! 0%nat =
                Some (mkRackMotion MOTION_EXTEND 1900))
    by (vm_compute; reflexivity).
  apply (updateMotion_keeps_running (delay 7999 demoLocked) 0 _ ltac:(lia) Hrm).
  vm_compute. reflexivity.
Defined.

(** ** Log ring *)

(** X21.  Whatever the head and the round, the slot [logsJson] reads lies inside
    the ring: the [while] loop always ends and leaves an index from 0 to 79. *)
Theorem logSlot_in_ring st i : 0 <= logSlot st i < LOG_MAX.
Proof. rewrite logSlot_mod. apply Z.mod_pos_bound. reflexivity. Qed.

(** X22.  In every reachable state time is not negative, the ring has its 80
    slots with head and count in range, and the status read returns
    exactly [logCount] entries. *)
Theorem reachable_log_well_formed st :
  reachable st ->
  0 <= clock st /\ logWf st /\
  length (logRead st) = Z.to_nat (logCount st) /\ (length (logRead st) <= 80)%nat.
Proof.
  intros Hreach. destruct (reachable_sysInv st Hreach) as [(Hc & _) Hwf].
  pose proof Hwf as (_ & _ & Hcount).
  rewrite logRead_length by lia. unfold LOG_MAX in *. repeat split; try apply Hwf; lia.
Qed.

Lemma reachable_log_well_formed_witness :
  length (logRead demoTamper) = Z.to_nat (logCount demoTamper).
Proof.
  apply (reachable_log_well_formed demoTamper demoTamper_reachable).
Defined.


(** ** Tamper check: edge and contact *)

Lemma checkTamper_body_quiet i st :
  tamperCond i st = false ->
  checkTamper_body i st =
  set_lastBikePresent (<[i := bikePresent st !!! i]> (lastBikePresent st)) st.
Proof.
  intros Hc. unfold checkTamper_body. fold (tamperCond i st). rewrite Hc.
  reflexivity.
Qed.

Lemma checkTamper_body_settled i st :
  (i < length (lastBikePresent st))%nat ->
  lastBikePresent st !!! i = bikePresent st !!! i ->
  checkTamper_body i st = st.
Proof.
  intros Hi Heq. rewrite checkTamper_body_quiet.
  - rewrite <- Heq, list_insert_id by (apply list_lookup_lookup_total_lt, Hi).
    destruct st; reflexivity.
  - unfold tamperCond. rewrite Heq.
    destruct (bikePresent st !!! i); reflexivity.
Qed.

(** X23.  [checkTamper] reacts to a change of presence only: it ends with the
    previous-presence record equal to the current presence, so calling it
    again before the presence changes does nothing at all. *)
Theorem checkTamper_idempotent st :
  length (bikePresent st) = 2%nat ->
  length (lastBikePresent st) = 2%nat ->
  bikePresent (checkTamper st) = bikePresent st /\
  lastBikePresent (checkTamper st) = bikePresent st /\
  checkTamper (checkTamper st) = checkTamper st.
Proof.
  intros Hb Hl.
  assert (H1 : bikePresent (checkTamper st) = bikePresent st).
  { unfold checkTamper, for2. cbn [seq foldl].
    rewrite (proj1 (checkTamper_body_presence 1 _)).
    apply (proj1 (checkTamper_body_presence 0 _)). }
  assert (H2 : lastBikePresent (checkTamper st) = bikePresent st).
  { unfold checkTamper, for2. cbn [seq foldl].
    rewrite (proj2 (checkTamper_body_presence 1 _)).
    rewrite (proj1 (checkTamper_body_presence 0 _)).
    rewrite (proj2 (checkTamper_body_presence 0 _)).
    destruct (bikePresent st) as [|b0 [|b1 [|]]]; try discriminate.
    destruct (lastBikePresent st) as [|l0 [|l1 [|]]]; try discriminate.
    reflexivity. }
  split; [exact H1|]. split; [exact H2|].
  set (s := checkTamper st) in *.
  assert (Hlen : length (lastBikePresent s) = 2%nat) by (rewrite H2; exact Hb).
  unfold checkTamper at 1, for2. cbn [seq foldl].
  rewrite (checkTamper_body_settled 0 s) by (rewrite ?Hlen, ?H1, ?H2; auto with lia).
  apply checkTamper_body_settled; rewrite ?Hlen, ?H1, ?H2; auto with lia.
Qed.

Lemma checkTamper_idempotent_witness :
  checkTamper (checkTamper demoLifted) = checkTamper demoLifted.
Proof.
  apply (checkTamper_idempotent demoLifted); vm_compute; reflexivity.
Defined.

(** X24.  A tamper on a rack whose owner number does not have 11 characters: the
    latch is set and the alarm is shown and sounded, but no delivery is
    attempted -- gateway script, clock and cooldown stamps are untouched --
    and the last-event text says that the number is missing. *)
Theorem tamper_without_owner_number i st r :
  racks st !! i = Some r ->
  tamperCond i st = true ->
  slen (ownerNumber r) <> 11 ->
  let st' := checkTamper_body i st in
  racks st' = alter (set_tamperLatched true) i (racks st) /\
  gateway st' = gateway st /\ clock st' = clock st /\
  lastSmsMillis st' = lastSmsMillis st /\
  lastEvent st' = "Tamper but owner # missing (Rack " +:+ rackNo i +:+ ")" /\
  trace st' = [EDigitalWrite (clock st) BUZZER_PIN HIGH;
               ELcd "ALERT TAMPER!" ("Rack " +:+ rackNo i)] ++ trace st /\
  logs st' =
    <[Z.to_nat (logHead st) :=
        mkLogEntry (millis st)
          ("TAMPER Rack " +:+ rackNo i +:+ " Number " +:+
           maskNumber (ownerNumber r) +:+ " SMS_FAIL")]> (logs st).
Proof.
  intros Hr Hc Hn st'. subst st'.
  split; [rewrite racks_checkTamper_body, Hc; reflexivity|].
  unfold checkTamper_body. fold (tamperCond i st). rewrite Hc.
  set (st1 := set_racks _ st).
  assert (Hr1 : racks st1 !!! i = set_tamperLatched true r).
  { apply list_lookup_total_correct. unfold st1. proj_simpl.
    rewrite list_lookup_alter_eq, Hr. reflexivity. }
  rewrite Hr1. cbn [ownerNumber ownerName set_tamperLatched].
  apply Z.eqb_neq in Hn. rewrite Hn.
  change (racks (set_lastEvent ?e st1) !!! i) with (racks st1 !!! i).
  rewrite Hr1. cbn [ownerNumber set_tamperLatched].
  unfold buzzerOnFor, digitalWrite, lcd2. proj_simpl.
  match goal with |- context [addLog ?m ?s] =>
    destruct (addLog_shape m s) as (l & h & c & Hshape);
    pose proof (addLog_logs m s) as Hlogs; rewrite Hlogs; clear Hlogs;
    rewrite Hshape; clear Hshape
  end.
  unfold millis, st1. proj_simpl.
  split; [reflexivity|]. split; [reflexivity|]. split; [reflexivity|].
  split; [reflexivity|]. split; reflexivity.
Qed.

Lemma tamper_without_owner_number_witness :
  lastEvent (checkTamper_body 0 demoLifted) = "Tamper but owner # missing (Rack 1)" /\
  gateway (checkTamper_body 0 demoLifted) = gateway demoLifted.
Proof.
  assert (Hr : racks demoLifted !! 0%nat =
               Some (mkRack EmptyString EmptyString true RACK1_UID false))
    by (vm_compute; reflexivity).
  destruct (tamper_without_owner_number 0 demoLifted _ Hr) as (_ & H1 & _ & _ & H2 & _).
  - vm_compute. reflexivity.
  - vm_compute. discriminate.
  - split; [exact H2|exact H1].
Defined.

(** ** Text helpers *)

(** X25.  [maskNumber] keeps the first two and the last two characters of an
    11-character number and replaces the seven in between by stars; a text
    of any other length is returned as it is. *)
Theorem maskNumber_spec n :
  (String.length n = 11%nat ->
     exists a b mid c d,
       String.length mid = 7%nat /\
       n = String a (String b (mid +:+ String c (String d EmptyString))) /\
       maskNumber n =
         String a (String b ("*******" +:+ String c (String d EmptyString)))) /\
  (String.length n <> 11%nat -> maskNumber n = n).
Proof.
  split.
  - intros Hlen.
    do 12 (destruct n as [|? n]; try discriminate).
    eexists _, _, (String _ (String _ (String _ (String _ (String _ (String _
                    (String _ EmptyString))))))), _, _.
    repeat split.
  - intros Hlen. unfold maskNumber, slen.
    destruct (Z.eqb_spec (Z.of_nat (String.length n)) 11) as [He|He];
      [lia|reflexivity].
Qed.

Lemma maskNumber_spec_witness : maskNumber "0917" = "0917".
Proof. apply (proj2 (maskNumber_spec "0917")). vm_compute. discriminate. Defined.

Lemma hasChar_append c s t : hasChar c (s +:+ t) = hasChar c s || hasChar c t.
Proof.
  induction s as [|a s IH]; [reflexivity|].
  rewrite append_cons. cbn [hasChar]. rewrite IH. apply orb_assoc.
Qed.

Lemma replaceChar_clears c by_ s :
  hasChar c by_ = false -> hasChar c (replaceChar c by_ s) = false.
Proof.
  intros Hby. induction s as [|a s IH]; [reflexivity|].
  cbn [replaceChar]. destruct (Ascii.eqb a c) eqn:Ha.
  - rewrite hasChar_append, Hby, IH. reflexivity.
  - cbn [hasChar]. rewrite Ha, IH. reflexivity.
Qed.

Lemma hasChar_substring c s : forall n m,
  hasChar c s = false -> hasChar c (substring n m s) = false.
Proof.
  induction s as [|a s IH]; intros n m H.
  - destruct n, m; reflexivity.
  - cbn [hasChar] in H. apply orb_false_iff in H as [Ha Hs].
    destruct n as [|n]; [destruct m as [|m]; [reflexivity|]|].
    + cbn [substring hasChar]. rewrite Ha. apply (IH 0%nat m Hs).
    + cbn [substring]. apply (IH n m Hs).
Qed.

Lemma digits_no_line_feed d :
  hasChar NEWLINE (NilEmpty.string_of_uint d) = false.
Proof.
  induction d; cbn [NilEmpty.string_of_uint hasChar]; try rewrite IHd; reflexivity.
Qed.

Lemma string_of_uint_no_line_feed d :
  hasChar NEWLINE (NilZero.string_of_uint d) = false.
Proof.
  unfold NilZero.string_of_uint. destruct d; try apply digits_no_line_feed.
  reflexivity.
Qed.

Lemma itoa_no_line_feed n : hasChar NEWLINE (itoa n) = false.
Proof.
  unfold itoa, NilZero.string_of_int.
  destruct (Z.to_int n); cbn [hasChar]; rewrite string_of_uint_no_line_feed; reflexivity.
Qed.

Lemma pad2_no_line_feed n : hasChar NEWLINE (pad2 n) = false.
Proof.
  unfold pad2. destruct (n <? 10); rewrite ?hasChar_append, itoa_no_line_feed;
    reflexivity.
Qed.

Lemma formatUptime_no_line_feed t : hasChar NEWLINE (formatUptime t) = false.
Proof.
  unfold formatUptime. cbv zeta. apply hasChar_substring.
  rewrite !hasChar_append, itoa_no_line_feed, !pad2_no_line_feed. reflexivity.
Qed.

Lemma logEntryJson_no_line_feed e : hasChar NEWLINE (logEntryJson e) = false.
Proof.
  unfold logEntryJson. cbv zeta.
  rewrite !hasChar_append, formatUptime_no_line_feed.
  rewrite replaceChar_clears by reflexivity. reflexivity.
Qed.

Lemma joinComma_no_line_feed l :
  Forall (fun s => hasChar NEWLINE s = false) l ->
  hasChar NEWLINE (joinComma l) = false.
Proof.
  induction 1 as [|s l Hs Hl IH]; [reflexivity|].
  destruct l as [|s' l]; [exact Hs|].
  change (joinComma (s :: s' :: l)) with (s +:+ "," +:+ joinComma (s' :: l)).
  rewrite !hasChar_append, Hs, IH. reflexivity.
Qed.

(** X26.  Replacing a character by a text that does not contain it leaves no
    occurrence of it; [logsJson] escapes the line feed last, so the status
    text it builds holds no line feed, whatever ring and messages it reads. *)
Theorem replaceChar_removes :
  (forall c by_ s,
     hasChar c by_ = false -> hasChar c (replaceChar c by_ s) = false) /\
  (forall st, hasChar NEWLINE (logsJson st) = false).
Proof.
  split; [exact replaceChar_clears|].
  intros st. rewrite logsJson_logRead, !hasChar_append.
  rewrite joinComma_no_line_feed; [reflexivity|].
  apply Forall_fmap, Forall_forall. intros e _. apply logEntryJson_no_line_feed.
Qed.

Lemma replaceChar_removes_witness :
  hasChar NEWLINE
    (replaceChar NEWLINE (str1 BSLASH +:+ "n") (String "a" (String NEWLINE "b"))) = false /\
  hasChar NEWLINE
    (logsJson (addLog (String "a" (String NEWLINE "b")) demoBoot)) = false.
Proof.
  split; [apply (proj1 replaceChar_removes); reflexivity|].
  apply (proj2 replaceChar_removes).
Defined.

(** X27.  The body sent to the gateway is escaped by [jsonEscape]: the result
    holds neither a line feed nor a carriage return, whatever the input. *)
Theorem jsonEscape_no_line_break s :
  hasChar NEWLINE (jsonEscape s) = false /\ hasChar CRETURN (jsonEscape s) = false.
Proof.
  induction s as [|a s [IH1 IH2]]; [split; reflexivity|].
  cbn [jsonEscape].
  destruct (Ascii.eqb_spec a BSLASH) as [->|H1]; [cbn; auto|].
  destruct (Ascii.eqb_spec a DQUOTE) as [->|H2]; [cbn; auto|].
  cbn [orb].
  destruct (Ascii.eqb_spec a NEWLINE) as [->|H3]; [cbn; auto|].
  destruct (Ascii.eqb_spec a CRETURN) as [->|H4]; [auto|].
  cbn [hasChar]. rewrite IH1, IH2.
  apply Ascii.eqb_neq in H3, H4. rewrite H3, H4. auto.
Qed.


(** ** Session, relay outputs and tags in the reachable states *)

(** ** Session, relays and tags between the operations *)

Lemma ctlInv_view st st' :
  pins st' = pins st -> rackMotion st' = rackMotion st -> racks st' = racks st ->
  uiState st' = uiState st -> uiSelectedRack st' = uiSelectedRack st ->
  uiNum st' = uiNum st -> ctlInv st -> ctlInv st'.
Proof.
  unfold ctlInv, uiInv, relayInv, tagsInv. intros -> -> -> -> -> ->. auto.
Qed.

Lemma ctlInv_sameControl st st' : sameControl st st' -> ctlInv st -> ctlInv st'.
Proof.
  intros (H1 & _ & _ & H4 & _ & _ & _ & _ & H9 & H10 & H11 & H12).
  apply ctlInv_view; assumption.
Qed.

Lemma isRelayPin_relay i : isRelayPin (relayA i) = true /\ isRelayPin (relayB i) = true.
Proof. unfold relayA, relayB. case_decide; split; reflexivity. Qed.

Lemma relayState_insert_other i phase p pin level :
  isRelayPin pin = false -> relayState i phase p -> relayState i phase (<[pin := level]> p).
Proof.
  intros Hpin.
  assert (HA : pin <> relayA i) by (intros ->; rewrite (proj1 (isRelayPin_relay i)) in Hpin; discriminate).
  assert (HB : pin <> relayB i) by (intros ->; rewrite (proj2 (isRelayPin_relay i)) in Hpin; discriminate).
  destruct phase; unfold relayState, driving, pinInactive;
    rewrite !lookup_insert_ne by assumption; auto.
Qed.

Lemma ctlInv_digitalWrite_other pin level st :
  isRelayPin pin = false -> ctlInv st -> ctlInv (digitalWrite pin level st).
Proof.
  intros Hpin (Hui & Hrel & Htag). split; [exact Hui|]. split; [|exact Htag].
  intros i Hi. destruct (Hrel i Hi) as (rm & Hrm & Hst).
  exists rm. split; [exact Hrm|].
  unfold digitalWrite. proj_simpl. apply relayState_insert_other; assumption.
Qed.

Lemma ctlInv_env_input pin level st :
  pin = SW1_PIN \/ pin = SW2_PIN -> ctlInv st ->
  ctlInv (set_pins (<[pin := level]> (pins st)) st).
Proof.
  intros Hpin (Hui & Hrel & Htag). split; [exact Hui|]. split; [|exact Htag].
  intros i Hi. destruct (Hrel i Hi) as (rm & Hrm & Hst).
  exists rm. split; [exact Hrm|]. proj_simpl.
  apply relayState_insert_other; [|exact Hst]. destruct Hpin as [-> | ->]; reflexivity.
Qed.

Lemma uiInv_idle st :
  uiState st = UI_IDLE -> uiSelectedRack st = -1 -> uiNum st = EmptyString -> uiInv st.
Proof. intros. left. auto. Qed.

(** A change of the session fields only. *)
Lemma ctlInv_session st st' :
  pins st' = pins st -> rackMotion st' = rackMotion st -> racks st' = racks st ->
  uiInv st' -> ctlInv st -> ctlInv st'.
Proof.
  unfold ctlInv, relayInv, tagsInv. intros -> -> -> Hui (_ & Hrel & Htag). auto.
Qed.

Lemma ctlInv_resetUi st : ctlInv st -> ctlInv (resetUi st).
Proof.
  apply ctlInv_session; try reflexivity. apply uiInv_idle; reflexivity.
Qed.

Lemma tagsInv_alter (f : Rack -> Rack) (i : nat) (l : list Rack) :
  (forall r, tagUid (f r) = tagUid r) ->
  tagUid <$> alter f i l = tagUid <$> l.
Proof.
  intros Hf. revert i. induction l as [|r l IH]; intros [|i]; cbn; f_equal; auto.
Qed.

Lemma ctlInv_set_racks_alter f i st :
  (forall r, tagUid (f r) = tagUid r) ->
  ctlInv st -> ctlInv (set_racks (alter f i (racks st)) st).
Proof.
  intros Hf (Hui & Hrel & Htag). split; [exact Hui|]. split; [exact Hrel|].
  unfold tagsInv in *. proj_simpl. rewrite tagsInv_alter by exact Hf. exact Htag.
Qed.

Lemma relayState_other_rack i j phase p lA lB :
  i <> j -> (i < 2)%nat -> (j < 2)%nat ->
  relayState i phase p ->
  relayState i phase (<[relayB j := lB]> (<[relayA j := lA]> p)).
Proof.
  intros Hne Hi Hj. destruct (relay_other_rack i j Hne Hi Hj) as (H1 & H2 & H3 & H4).
  destruct phase; unfold relayState, driving, pinInactive;
    rewrite !lookup_insert_ne by auto; auto.
Qed.

Lemma ctlInv_startMotionForRack j target st :
  (j < 2)%nat -> ctlInv st -> ctlInv (startMotionForRack j target st).
Proof.
  intros Hj (Hui & Hrel & Htag). split; [|split].
  - destruct Hui as [(H1 & H2 & H3)|(H1 & H2 & H3 & H4)]; [left|right];
      unfold startMotionForRack, rackSetExtend, rackSetRetract, rackSetStop;
      destruct target; case_decide; auto.
  - intros i Hi. rewrite startMotionForRack_rackMotion.
    destruct (Hrel i Hi) as (rm & Hrm & Hst).
    destruct (decide (i = j)) as [->|Hne].
    + eexists. rewrite list_lookup_alter_eq, Hrm. split; [reflexivity|].
      cbn [state]. pose proof (startMotionForRack_driving j target st).
      destruct target; assumption.
    + exists rm. rewrite list_lookup_alter_ne by auto. split; [exact Hrm|].
      rewrite startMotionForRack_pins.
      apply relayState_other_rack; try assumption.
      apply relayState_other_rack; assumption.
  - unfold tagsInv in *. rewrite racks_startMotionForRack. exact Htag.
Qed.

Lemma ctlInv_setLocked j b st : (j < 2)%nat -> ctlInv st -> ctlInv (setLocked j b st).
Proof.
  intros Hj H. unfold setLocked. apply ctlInv_startMotionForRack; [exact Hj|].
  destruct b; cbn [negb].
  - apply ctlInv_set_racks_alter; [reflexivity|exact H].
  - apply (ctlInv_set_racks_alter (set_tamperLatched false) j
             (set_racks (alter (set_locked false) j (racks st)) st)); [reflexivity|].
    apply ctlInv_set_racks_alter; [reflexivity|exact H].
Qed.

Lemma ctlInv_toggleLock j st : (j < 2)%nat -> ctlInv st -> ctlInv (toggleLock j st).
Proof. apply ctlInv_setLocked. Qed.

Lemma ctlInv_updateMotion_body now j st :
  (j < 2)%nat -> ctlInv st -> ctlInv (updateMotion_body now j st).
Proof.
  intros Hj (Hui & Hrel & Htag). split; [|split].
  - unfold updateMotion_body, rackSetStop.
    destruct Hui as [(H1 & H2 & H3)|(H1 & H2 & H3 & H4)]; [left|right];
      repeat case_match; auto.
  - intros i Hi. rewrite updateMotion_body_rackMotion, updateMotion_body_pins.
    destruct (Hrel i Hi) as (rm & Hrm & Hst).
    destruct (motionExpired now (rackMotion st !!! j)); [|eauto].
    destruct (decide (i = j)) as [->|Hne].
    + eexists. rewrite list_lookup_alter_eq, Hrm. split; [reflexivity|].
      cbn [state set_state relayState]. unfold pinInactive. split.
      * rewrite lookup_insert_ne by (apply not_eq_sym, relayA_neq_relayB).
        apply lookup_insert_eq.
      * apply lookup_insert_eq.
    + exists rm. rewrite list_lookup_alter_ne by auto. split; [exact Hrm|].
      apply relayState_other_rack; assumption.
  - unfold tagsInv in *. rewrite racks_updateMotion_body. exact Htag.
Qed.

Lemma ctlInv_updateMotion st : ctlInv st -> ctlInv (updateMotion st).
Proof.
  intros H. unfold updateMotion, for2. cbn [seq foldl].
  apply ctlInv_updateMotion_body; [lia|]. apply ctlInv_updateMotion_body; [lia|exact H].
Qed.


Ltac ctl_step :=
  lazymatch goal with
  | |- ctlInv (addLog _ _) => apply (ctlInv_sameControl _ _ (sameControl_addLog _ _))
  | |- ctlInv (resetUi _) => apply ctlInv_resetUi
  | |- ctlInv (set_racks (alter _ _ (racks ?s)) ?s) =>
      apply ctlInv_set_racks_alter; [reflexivity|]
  | |- ctlInv (digitalWrite _ _ _) => apply ctlInv_digitalWrite_other; [reflexivity|]
  | |- ctlInv (?f ?s) =>
      let Hv := fresh "Hview" in
      assert (Hv : forall s', ctlInv s' -> ctlInv (f s'))
        by (let s' := fresh in let Hs' := fresh in
            intros s' Hs'; apply (ctlInv_view s'); [reflexivity..|exact Hs']);
      apply Hv; clear Hv
  end.

Ltac ctl_steps := repeat first [assumption | ctl_step].

Lemma ctlInv_updateBikePresence st : ctlInv st -> ctlInv (updateBikePresence st).
Proof.
  intros H. unfold updateBikePresence, for2. cbn [seq foldl].
  unfold updateBikePresence_body. repeat case_match; ctl_steps.
Qed.

Lemma ctlInv_updateBuzzer st : ctlInv st -> ctlInv (updateBuzzer st).
Proof. intros H. unfold updateBuzzer, buzzerOff. case_match; ctl_steps. Qed.

Lemma ctlInv_sessionAbortCheck st : ctlInv st -> ctlInv (sessionAbortCheck st).
Proof. intros H. unfold sessionAbortCheck. repeat case_match; ctl_steps. Qed.

Lemma ctlInv_sendAlertSMS i number message st :
  ctlInv st -> ctlInv (sendAlertSMS i number message st).2.
Proof. apply ctlInv_sameControl, sameControl_sendAlertSMS. Qed.

Lemma ctlInv_checkTamper_body i st : ctlInv st -> ctlInv (checkTamper_body i st).
Proof.
  intros H. unfold checkTamper_body.
  destruct (_ && _ && _ && _); [|ctl_steps].
  set (st1 := set_racks _ st).
  assert (H1 : ctlInv st1) by (unfold st1; ctl_steps).
  clearbody st1.
  destruct (slen _ =? 11).
  - match goal with
    | |- context [sendAlertSMS ?a ?b ?c ?d] =>
        pose proof (ctlInv_sendAlertSMS a b c d H1) as H2;
        destruct (sendAlertSMS a b c d) as [ok st2]
    end.
    cbn [snd] in H2. unfold buzzerOnFor. ctl_steps.
  - unfold buzzerOnFor. ctl_steps.
Qed.

Lemma ctlInv_checkTamper st : ctlInv st -> ctlInv (checkTamper st).
Proof.
  intros H. unfold checkTamper, for2. cbn [seq foldl].
  apply ctlInv_checkTamper_body, ctlInv_checkTamper_body, H.
Qed.

Lemma ctlInv_alertUnknownRFID uidStr st : ctlInv st -> ctlInv (alertUnknownRFID uidStr st).
Proof. apply ctlInv_sameControl, sameControl_alertUnknownRFID. Qed.

Lemma ctlInv_handleRFID_scan uid idxs : forall st,
  Forall (fun i => (i < 2)%nat) idxs ->
  ctlInv st -> ctlInv (handleRFID_scan uid idxs st).2.
Proof.
  induction idxs as [|i rest IH]; intros st Hall H; cbn [handleRFID_scan]; [exact H|].
  apply Forall_cons in Hall as [Hi Hall].
  case_match; [|apply IH; assumption].
  cbn [snd]. pose proof (ctlInv_toggleLock i st Hi H). ctl_steps.
Qed.

Lemma ctlInv_handleRFID card st : ctlInv st -> ctlInv (handleRFID card st).
Proof.
  intros H. unfold handleRFID. destruct card as [uid|]; [|exact H].
  destruct (bool_decide (uiState st = UI_WAIT_RFID_LOCK) &&
            negb (uiSelectedRack st =? -1)) eqn:Hmode.
  - apply andb_prop in Hmode as [Hs _]. apply bool_decide_eq_true in Hs.
    assert (Hsel : (Z.to_nat (uiSelectedRack st) < 2)%nat).
    { destruct H as ([(Hi & _)|(_ & [-> | ->] & _)] & _); [congruence|lia|lia]. }
    pose proof (ctlInv_setLocked _ true st Hsel H).
    case_match; ctl_steps.
  - pose proof (ctlInv_handleRFID_scan uid (seq 0 2) st
                  ltac:(repeat constructor) H) as Hs.
    destruct (handleRFID_scan uid (seq 0 2) st) as [matched s]. cbn [snd] in Hs.
    destruct matched; cbn [negb]; ctl_steps.
    apply ctlInv_alertUnknownRFID, Hs.
Qed.

Lemma ctlInv_handleClient req st : ctlInv st -> ctlInv (handleClient req st).
Proof.
  intros H.
  destruct req as [[auth|auth rack name number|auth rack|auth rack|auth rack]|];
    cbn [handleClient]; [| | | | |exact H].
  - unfold handleStatus, requestAuthentication. case_match; ctl_steps.
  - unfold handleSetOwner, requestAuthentication. repeat case_match; ctl_steps.
  - unfold handleToggle, requestAuthentication.
    destruct (negb auth); [ctl_steps|].
    destruct (Z.eqb_spec (getRackArg rack) (-1)) as [Hr|Hr]; [ctl_steps|].
    pose proof (getRackArg_index rack Hr) as Hi.
    pose proof (ctlInv_toggleLock _ st Hi H). repeat case_match; ctl_steps.
  - unfold handleUnlock, requestAuthentication.
    destruct (negb auth); [ctl_steps|].
    destruct (Z.eqb_spec (getRackArg rack) (-1)) as [Hr|Hr]; [ctl_steps|].
    pose proof (getRackArg_index rack Hr) as Hi.
    pose proof (ctlInv_setLocked _ false st Hi H). ctl_steps.
  - unfold handleClear, requestAuthentication. repeat case_match; ctl_steps.
Qed.

Lemma slen_append_char s k : slen (s +:+ str1 k) = slen s + 1.
Proof.
  unfold slen. induction s as [|a s IH]; [reflexivity|].
  rewrite append_cons. cbn [String.length]. lia.
Qed.

Lemma digitsOnly_append_char s k :
  digitsOnly s = true -> isDigit k = true -> digitsOnly (s +:+ str1 k) = true.
Proof.
  intros Hs Hk. induction s as [|a s IH].
  - change (digitsOnly (EmptyString +:+ str1 k))
      with (if negb (isDigit k) then false else true).
    rewrite Hk. reflexivity.
  - rewrite append_cons. cbn [digitsOnly] in *.
    destruct (isDigit a); cbn [negb] in *; [auto|discriminate].
Qed.

Lemma substring_prefix_digits s : forall n,
  digitsOnly s = true ->
  digitsOnly (substring 0 n s) = true /\ slen (substring 0 n s) <= slen s.
Proof.
  unfold slen. induction s as [|a s IH]; intros n Hs.
  - destruct n; cbn; split; (reflexivity || lia).
  - destruct n as [|n]; [cbn; split; [reflexivity|lia]|].
    cbn [digitsOnly] in Hs. destruct (isDigit a) eqn:Ha; [|discriminate].
    cbn [negb] in Hs. destruct (IH n Hs) as [H1 H2].
    cbn [substring digitsOnly String.length]. rewrite Ha. cbn [negb].
    split; [exact H1|lia].
Qed.

Lemma ctlInv_handleSelfServeKeypad st : ctlInv st -> ctlInv (handleSelfServeKeypad st).
Proof.
  intros H. unfold handleSelfServeKeypad.
  assert (Hk : ctlInv (readRemoteKey st).2)
    by (unfold readRemoteKey; case_match; ctl_steps).
  destruct (readRemoteKey st) as [k s]. cbn [snd] in Hk. clear H st.
  destruct (Ascii.eqb k zero); [exact Hk|].
  pose proof Hk as (Hui & _).
  destruct (uiState s) eqn:Hs.
  - (* idle *)
    destruct (Ascii.eqb k "#"); [|exact Hk].
    unfold startSelfServeForCurrentBike.
    destruct (Z.eqb_spec (findNewestAvailableRack s) (-1)) as [Hf|Hf];
      cbn [snd]; [ctl_steps|].
    pose proof (findNewestAvailableRack_range s Hf) as Hrange.
    apply (ctlInv_session s); try reflexivity; [|exact Hk].
    right. unfold uiShowEnterNum, lcd2. proj_simpl.
    split; [discriminate|]. split; [lia|]. split; [unfold slen; cbn; lia|reflexivity].
  - (* entering the number *)
    destruct Hui as [(Hi & _)|(_ & Hsel & Hlen & Hdig)]; [congruence|].
    destruct (isDigit k) eqn:Hd.
    { destruct (Z.ltb_spec (slen (uiNum s)) 11); [|ctl_steps].
      apply (ctlInv_session s); try reflexivity; [|exact Hk].
      right. unfold uiShowEnterNum, lcd2. proj_simpl. rewrite Hs.
      split; [discriminate|]. split; [exact Hsel|]. split.
      - rewrite slen_append_char. lia.
      - apply digitsOnly_append_char; assumption. }
    destruct (Ascii.eqb k "*").
    { destruct (slen (uiNum s) >? 0); [|ctl_steps].
      apply (ctlInv_session s); try reflexivity; [|exact Hk].
      right. unfold uiShowEnterNum, lcd2, removeFrom. proj_simpl. rewrite Hs.
      destruct (substring_prefix_digits (uiNum s) (String.length (uiNum s) - 1) Hdig).
      split; [discriminate|]. split; [exact Hsel|]. split; [lia|assumption]. }
    destruct (Ascii.eqb k "#"); [|exact Hk].
    destruct (negb (slen (uiNum s) =? 11) || negb (digitsOnly (uiNum s)));
      [ctl_steps|].
    set (s1 := set_racks (alter (set_ownerNumber (uiNum s)) _ (racks s)) s).
    assert (H1 : ctlInv s1) by (unfold s1; ctl_steps).
    assert (Hu1 : uiSelectedRack s1 = uiSelectedRack s /\ uiNum s1 = uiNum s)
      by (split; reflexivity).
    destruct Hu1 as [Hu1 Hu2]. clearbody s1.
    match goal with
    | |- context [if ?c then set_racks ?l s1 else s1] =>
        set (s2 := if c then set_racks l s1 else s1)
    end.
    assert (H2 : ctlInv s2) by (unfold s2; case_match; ctl_steps).
    assert (Hu3 : uiSelectedRack s2 = uiSelectedRack s /\ uiNum s2 = uiNum s).
    { unfold s2. case_match; proj_simpl; auto. }
    destruct Hu3 as [Hu3 Hu4]. clearbody s2.
    match goal with
    | |- ctlInv (uiShowWaitRFID (set_uiState _ ?s3)) =>
        assert (H3 : ctlInv s3) by ctl_steps;
        assert (Hu5 : uiSelectedRack s3 = uiSelectedRack s /\ uiNum s3 = uiNum s)
          by (open_addLog; proj_simpl; auto);
        apply (ctlInv_session s3); try reflexivity; [|exact H3]
    end.
    destruct Hu5 as [Hu5 Hu6].
    right. unfold uiShowWaitRFID, lcd2. proj_simpl. rewrite Hu5, Hu6.
    split; [discriminate|]. split; [exact Hsel|]. split; [exact Hlen|exact Hdig].
  - (* waiting for the card *)
    destruct (Ascii.eqb k "*"); [ctl_steps|exact Hk].
Qed.


Lemma setup_fields inputs keys gw :
  let st := setup (powerOn inputs keys gw) in
  uiState st = UI_IDLE /\ uiSelectedRack st = -1 /\ uiNum st = EmptyString /\
  rackMotion st = [mkRackMotion MOTION_IDLE 0; mkRackMotion MOTION_IDLE 0] /\
  pins st =
    <[RFID_RST := HIGH]> (<[RFID_RST := LOW]> (<[RFID_SS := HIGH]>
      (<[BUZZER_PIN := LOW]>
         (<[R2_RELAY_B_PIN := relayOffLevel]> (<[R2_RELAY_A_PIN := relayOffLevel]>
            (<[R1_RELAY_B_PIN := relayOffLevel]> (<[R1_RELAY_A_PIN := relayOffLevel]>
               inputs))))))).
Proof. cbv zeta. repeat split; vm_compute; reflexivity. Qed.

Lemma ctlInv_setup inputs keys gw : ctlInv (setup (powerOn inputs keys gw)).
Proof.
  destruct (setup_fields inputs keys gw) as (H1 & H2 & H3 & H4 & H5).
  split; [|split].
  - apply uiInv_idle; assumption.
  - intros i Hi. rewrite H4, H5.
    destruct i as [|[|i]]; [| |lia]; eexists; (split; [reflexivity|]);
      cbn [state relayState]; unfold pinInactive, relayA, relayB;
      cbn [decide]; split; simplify_map_eq; reflexivity.
  - unfold tagsInv. rewrite racks_setup. reflexivity.
Qed.

Lemma ctlInv_loop req card st : ctlInv st -> ctlInv (loop req card st).
Proof.
  intros H. unfold loop.
  apply ctlInv_sessionAbortCheck, ctlInv_updateBuzzer, ctlInv_updateMotion,
    ctlInv_handleRFID, ctlInv_handleSelfServeKeypad, ctlInv_checkTamper,
    ctlInv_updateBikePresence, ctlInv_handleClient, H.
Qed.

Lemma ctlInv_env_step st st' : env_step st st' -> ctlInv st -> ctlInv st'.
Proof.
  intros [s d Hd|s pin level Hpin|s k|s gw Hgw] H.
  - ctl_steps.
  - apply ctlInv_env_input; assumption.
  - ctl_steps.
  - ctl_steps.
Qed.

Lemma reachable_ctlInv st : reachable st -> ctlInv st.
Proof.
  induction 1 as [inputs keys gw Hgw| | | | | | | | | | | |].
  - apply ctlInv_setup.
  - eapply ctlInv_env_step; eassumption.
  - apply ctlInv_loop; assumption.
  - apply ctlInv_updateBikePresence; assumption.
  - apply ctlInv_checkTamper; assumption.
  - apply ctlInv_handleSelfServeKeypad; assumption.
  - apply ctlInv_handleRFID; assumption.
  - apply ctlInv_updateMotion; assumption.
  - apply ctlInv_updateBuzzer; assumption.
  - apply ctlInv_sessionAbortCheck; assumption.
  - apply ctlInv_handleClient; assumption.
  - apply ctlInv_setLocked; assumption.
  - apply ctlInv_toggleLock; assumption.
Qed.

(** X28.  In every reachable state the session is either idle with no rack
    selected and an empty buffer, or active on rack index 0 or 1 with a
    buffer of at most 11 characters, all of them digits: the selected index
    is inside the rack table whenever the session reads it. *)
Theorem session_well_formed st :
  reachable st ->
  (uiState st = UI_IDLE /\ uiSelectedRack st = -1 /\ uiNum st = EmptyString) \/
  (uiState st <> UI_IDLE /\ (uiSelectedRack st = 0 \/ uiSelectedRack st = 1) /\
   slen (uiNum st) <= 11 /\ digitsOnly (uiNum st) = true).
Proof. intros H. exact (proj1 (reachable_ctlInv st H)). Qed.

(** X29.  In every reachable state the relay outputs of each rack agree with its
    motion record: both inactive while idle, only relay A active while
    extending, only relay B active while retracting; so between the
    operations of the sketch no rack has both outputs active. *)
Theorem relays_follow_motion_state st i :
  reachable st ->
  (i < 2)%nat ->
  (exists rm, rackMotion st !! i = Some rm /\
     match state rm with
     | MOTION_IDLE => pinInactive (pins st) (relayA i) /\ pinInactive (pins st) (relayB i)
     | MOTION_EXTEND => pinActive (pins st) (relayA i) /\ pinInactive (pins st) (relayB i)
     | MOTION_RETRACT => pinInactive (pins st) (relayA i) /\ pinActive (pins st) (relayB i)
     end) /\
  ~ bothActive i (pins st).
Proof.
  intros H Hi. destruct (proj1 (proj2 (reachable_ctlInv st H)) i Hi) as (rm & Hrm & Hst).
  split.
  - exists rm. split; [exact Hrm|]. destruct (state rm); exact Hst.
  - unfold bothActive, pinActive. intros [HA HB].
    destruct (state rm); cbn [relayState] in Hst;
      unfold driving, pinInactive, levelA, levelB in Hst; destruct Hst as [HA' HB'];
      rewrite HA in HA'; rewrite HB in HB'; discriminate.
Qed.

(** X30.  The tag of a rack never changes after [setup]: in every reachable state
    rack 1 carries [RACK1_UID] and rack 2 carries [RACK2_UID]. *)
Theorem tags_are_fixed st :
  reachable st -> tagUid <$> racks st = [RACK1_UID; RACK2_UID].
Proof. intros H. exact (proj2 (proj2 (reachable_ctlInv st H))). Qed.

(** ** The properties on the demonstration states *)

Lemma handleRFID_confirms_session_witness :
  uiState (handleRFID (Some RACK1_UID) demoWaiting) = UI_IDLE /\
  racks (handleRFID (Some RACK1_UID) demoWaiting) !! 0%nat =
    Some (mkRack "Self-Serve" "09171234567" true RACK1_UID false).
Proof.
  assert (Hr : racks demoWaiting !! Z.to_nat (uiSelectedRack demoWaiting) =
               Some (mkRack "Self-Serve" "09171234567" false RACK1_UID false))
    by (vm_compute; reflexivity).
  assert (Hs : uiState demoWaiting = UI_WAIT_RFID_LOCK) by (vm_compute; reflexivity).
  assert (Hsel : uiSelectedRack demoWaiting <> -1) by (vm_compute; discriminate).
  destruct (handleRFID_confirms_session demoWaiting RACK1_UID _ Hs Hsel Hr) as [Hyes _].
  destruct (Hyes eq_refl) as (H1 & _ & H2 & _).
  split; [exact H2|].
  change (Z.to_nat (uiSelectedRack demoWaiting)) with 0%nat in H1. exact H1.
Defined.

Lemma handleRFID_toggles_first_match_witness :
  racks (handleRFID (Some RACK2_UID) demoParked) =
    [mkRack EmptyString EmptyString false RACK1_UID false;
     mkRack EmptyString EmptyString true RACK2_UID false].
Proof.
  assert (Hr : racks demoParked =
               [mkRack EmptyString EmptyString false RACK1_UID false;
                mkRack EmptyString EmptyString false RACK2_UID false])
    by (vm_compute; reflexivity).
  assert (Hm : uiState demoParked <> UI_WAIT_RFID_LOCK \/ uiSelectedRack demoParked = -1)
    by (right; vm_compute; reflexivity).
  destruct (handleRFID_toggles_first_match demoParked RACK2_UID _ _ Hm Hr)
    as (_ & H & _).
  apply H; [discriminate|reflexivity].
Defined.

Lemma idle_keys_witness :
  uiState (handleSelfServeKeypad (set_keypadRx ["#"%char] demoParked)) = UI_ENTER_NUMBER /\
  uiSelectedRack (handleSelfServeKeypad (set_keypadRx ["#"%char] demoParked)) = 0.
Proof.
  assert (Hk : keypadRx (set_keypadRx ["#"%char] demoParked) = ["#"%char])
    by reflexivity.
  assert (Hz : "#"%char <> zero) by discriminate.
  assert (Hs : uiState (set_keypadRx ["#"%char] demoParked) = UI_IDLE)
    by (vm_compute; reflexivity).
  destruct (idle_keys _ _ _ Hk Hz Hs) as (_ & _ & _ & _ & H).
  assert (Hf : findNewestAvailableRack (set_keypadRx ["#"%char] demoParked) = 0)
    by (vm_compute; reflexivity).
  destruct (H eq_refl) as (H1 & H2 & _).
  - rewrite Hf. discriminate.
  - split; [exact H1|]. rewrite H2. exact Hf.
Defined.

Lemma waiting_keys_witness :
  uiState (handleSelfServeKeypad (set_keypadRx ["*"%char] demoWaiting)) = UI_IDLE /\
  keypadRx (handleSelfServeKeypad (set_keypadRx ["*"%char] demoWaiting)) = [].
Proof.
  assert (Hk : keypadRx (set_keypadRx ["*"%char] demoWaiting) = ["*"%char])
    by reflexivity.
  assert (Hz : "*"%char <> zero) by discriminate.
  assert (Hs : uiState (set_keypadRx ["*"%char] demoWaiting) = UI_WAIT_RFID_LOCK)
    by (vm_compute; reflexivity).
  destruct (waiting_keys _ _ _ Hk Hz Hs) as (_ & H1 & H2 & _).
  destruct (H2 eq_refl) as (H3 & _).
  split; [exact H3|exact H1].
Defined.

Lemma set_keypadRx_twice a b st : set_keypadRx a (set_keypadRx b st) = set_keypadRx a st.
Proof. destruct st; reflexivity. Qed.

Lemma keys_reachable ks st :
  reachable st -> reachable (set_keypadRx (keypadRx st ++ ks) st).
Proof.
  intros Hst. induction ks as [|k ks IH] using rev_ind.
  - rewrite app_nil_r.
    replace (set_keypadRx (keypadRx st) st) with st by (destruct st; reflexivity).
    exact Hst.
  - pose proof (reach_env _ _ IH (env_key _ k)) as H.
    rewrite set_keypadRx_twice in H.
    change (keypadRx (set_keypadRx (keypadRx st ++ ks) st)) with (keypadRx st ++ ks) in H.
    rewrite <- app_assoc in H. exact H.
Qed.

Lemma demoWaiting_reachable : reachable demoWaiting.
Proof.
  unfold demoWaiting.
  change 13%nat with (S (S (S (S (S (S (S (S (S (S (S (S (S O))))))))))))).
  cbn [Nat.iter]. do 13 apply reach_keypad.
  assert (Hk : keypadRx demoParked = []) by (vm_compute; reflexivity).
  pose proof (keys_reachable (list_ascii_of_string "#09171234567#") demoParked
                demoParked_reachable) as H.
  rewrite Hk in H. exact H.
Qed.

Lemma session_well_formed_witness :
  (uiSelectedRack demoWaiting = 0 \/ uiSelectedRack demoWaiting = 1) /\
  slen (uiNum demoWaiting) <= 11.
Proof.
  assert (Hs : uiState demoWaiting = UI_WAIT_RFID_LOCK) by (vm_compute; reflexivity).
  destruct (session_well_formed demoWaiting demoWaiting_reachable)
    as [(H & _)|(_ & H1 & H2 & _)].
  - rewrite Hs in H. discriminate.
  - split; [exact H1|exact H2].
Defined.

Lemma relays_follow_motion_state_witness : ~ bothActive 0 (pins demoTamper).
Proof.
  apply (relays_follow_motion_state demoTamper 0 demoTamper_reachable). lia.
Defined.

Lemma tags_are_fixed_witness : tagUid <$> racks demoWaiting = [RACK1_UID; RACK2_UID].
Proof. apply (tags_are_fixed demoWaiting demoWaiting_reachable). Defined.

Lemma alertUnknownRFID_only_alerts_witness :
  alertUnknownRFID "AA BB" demoParked =
    set_lastEvent "Unknown RFID (no locked owners / cooldown / gateway fail)"
      (addLog ("UNKNOWN RFID UalertID=" +:+ "AA BB") demoParked).
Proof.
  apply (proj2 (alertUnknownRFID_only_alerts "AA BB" demoParked));
    vm_compute; reflexivity.
Defined.

Lemma findNewestAvailableRack_spec_witness :
  (0 <= findNewestAvailableRack demoParked < 2 /\
   eligible (Z.to_nat (findNewestAvailableRack demoParked)) demoParked = true) /\
  lastSwChangeMs demoWrapped = [4294967266; 70] /\
  findNewestAvailableRack demoWrapped = 0.
Proof.
  split; [|split; [vm_compute; reflexivity|]].
  - apply (proj1 (proj2 (proj2 (findNewestAvailableRack_spec demoParked)))).
    vm_compute. discriminate.
  - destruct (findNewestAvailableRack_spec demoWrapped) as (_ & _ & _ & H).
    apply (H (ULONG_MOD - 30) (ULONG_MOD + 70));
      try (vm_compute; reflexivity); unfold ULONG_MOD; lia.
Defined.

Lemma no_key_no_change_witness : handleSelfServeKeypad demoParked = demoParked.
Proof.
  apply (proj1 (no_key_no_change demoParked)). vm_compute. reflexivity.
Defined.

Lemma sessionAbortCheck_spec_witness :
  uiState (sessionAbortCheck demoAbandoned) = UI_IDLE /\
  clock (sessionAbortCheck demoAbandoned) = clock demoAbandoned + 2000.
Proof.
  destruct (sessionAbortCheck_spec demoAbandoned) as (_ & _ & H & _).
  destruct H as (H1 & _ & _ & H2).
  - vm_compute. discriminate.
  - vm_compute. discriminate.
  - vm_compute. reflexivity.
  - split; [exact H1|exact H2].
Defined.
